(** * Address book assistant (main.py): a shallow embedding

    The development follows the layout of [main.py]:
    - Python strings and the built-ins the program calls on them;
    - exceptions and the state-and-exception monad of the handlers;
    - the [datetime.date] arithmetic used by the birthday query;
    - [datetime.strptime] / [strftime] for the format ["%d.%m.%Y"];
    - the classes [Field], [Phone], [Birthday], [Record], [AddressBook];
    - the decorator [input_error] and the command handlers.

    Python objects that are shared and mutated (the [Record] objects held
    by the book and by local variables of the handlers) live in an explicit
    object store. *)

From Stdlib Require Import ZArith NArith List String Ascii Bool Lia.
From stdpp Require Import base list.
Import ListNotations.

Local Open Scope Z_scope.

(** ** Python strings *)

(** A Python [str] is a sequence of Unicode code points. *)
Definition codepoint := N.
Definition pystr := list codepoint.

(** String literals of the program are ASCII. *)
Definition lit (s : string) : pystr :=
  List.map N_of_ascii (list_ascii_of_string s).

Definition codepoint_eqb (a b : codepoint) : bool := N.eqb a b.

Fixpoint pystr_eqb (a b : pystr) : bool :=
  match a, b with
  | [], [] => true
  | x :: a', y :: b' => codepoint_eqb x y && pystr_eqb a' b'
  | _, _ => false
  end.

Definition in_ranges (tbl : list (N * N)) (c : codepoint) : bool :=
  existsb (fun r => (fst r <=? c)%N && (c <=? snd r)%N) tbl.

(** Code points whose Unicode property Numeric_Type is Decimal (general
    category Nd), as maximal ranges (Unicode 14.0).  These are the
    characters matched by [\d] in a [str] regular expression and accepted
    as digits by [int].  In every range the digit values run 0..9
    cyclically from the first code point. *)
Definition decimal_ranges : list (N * N) :=
  [ (0x30, 0x39); (0x660, 0x669); (0x6f0, 0x6f9); (0x7c0, 0x7c9);
    (0x966, 0x96f); (0x9e6, 0x9ef); (0xa66, 0xa6f); (0xae6, 0xaef);
    (0xb66, 0xb6f); (0xbe6, 0xbef); (0xc66, 0xc6f); (0xce6, 0xcef);
    (0xd66, 0xd6f); (0xde6, 0xdef); (0xe50, 0xe59); (0xed0, 0xed9);
    (0xf20, 0xf29); (0x1040, 0x1049); (0x1090, 0x1099); (0x17e0, 0x17e9);
    (0x1810, 0x1819); (0x1946, 0x194f); (0x19d0, 0x19d9); (0x1a80, 0x1a89);
    (0x1a90, 0x1a99); (0x1b50, 0x1b59); (0x1bb0, 0x1bb9); (0x1c40, 0x1c49);
    (0x1c50, 0x1c59); (0xa620, 0xa629); (0xa8d0, 0xa8d9); (0xa900, 0xa909);
    (0xa9d0, 0xa9d9); (0xa9f0, 0xa9f9); (0xaa50, 0xaa59); (0xabf0, 0xabf9);
    (0xff10, 0xff19); (0x104a0, 0x104a9); (0x10d30, 0x10d39);
    (0x11066, 0x1106f); (0x110f0, 0x110f9); (0x11136, 0x1113f);
    (0x111d0, 0x111d9); (0x112f0, 0x112f9); (0x11450, 0x11459);
    (0x114d0, 0x114d9); (0x11650, 0x11659); (0x116c0, 0x116c9);
    (0x11730, 0x11739); (0x118e0, 0x118e9); (0x11950, 0x11959);
    (0x11c50, 0x11c59); (0x11d50, 0x11d59); (0x11da0, 0x11da9);
    (0x16a60, 0x16a69); (0x16ac0, 0x16ac9); (0x16b50, 0x16b59);
    (0x1d7ce, 0x1d7ff); (0x1e140, 0x1e149); (0x1e2f0, 0x1e2f9);
    (0x1e950, 0x1e959); (0x1fbf0, 0x1fbf9) ]%N.

(** Code points with Numeric_Type Digit but not Decimal: superscripts,
    subscripts, circled and parenthesised digits and the like. *)
Definition other_digit_ranges : list (N * N) :=
  [ (0xb2, 0xb3); (0xb9, 0xb9); (0x1369, 0x1371); (0x19da, 0x19da);
    (0x2070, 0x2070); (0x2074, 0x2079); (0x2080, 0x2089); (0x2460, 0x2468);
    (0x2474, 0x247c); (0x2488, 0x2490); (0x24ea, 0x24ea); (0x24f5, 0x24fd);
    (0x24ff, 0x24ff); (0x2776, 0x277e); (0x2780, 0x2788); (0x278a, 0x2792);
    (0x10a40, 0x10a43); (0x10e60, 0x10e68); (0x11052, 0x1105a);
    (0x1f100, 0x1f10a) ]%N.

(** [\d] of the [re] module on [str] patterns. *)
Definition is_decimal (c : codepoint) : bool := in_ranges decimal_ranges c.

(** The character test behind [str.isdigit]: Numeric_Type Digit or
    Decimal. *)
Definition char_isdigit (c : codepoint) : bool :=
  is_decimal c || in_ranges other_digit_ranges c.

(** The ten characters ['0'..'9']. *)
Definition is_ascii_digit (c : codepoint) : bool :=
  (0x30 <=? c)%N && (c <=? 0x39)%N.

(** [str.isdigit()]: every character is a digit and there is at least
    one character. *)
Definition isdigit (s : pystr) : bool :=
  match s with
  | [] => false
  | _ => forallb char_isdigit s
  end.

(** [len(s)] *)
Definition len {A} (s : list A) : Z := Z.of_nat (length s).

(** [sep.join(parts)] *)
Fixpoint join (sep : pystr) (parts : list pystr) : pystr :=
  match parts with
  | [] => []
  | [p] => p
  | p :: rest => p ++ sep ++ join sep rest
  end.

(** ** Exceptions *)

(** The [ValueError]s that can arise, by origin.  The first three are
    raised by the program itself, with the message given. *)
Inductive value_error : Type :=
  | PhoneFormat       (* "Phone number must contain exactly 10 digits" *)
  | OldPhoneMissing   (* "Old phone is not exist" *)
  | DateFormat        (* "Invalid date format. Use DD.MM.YYYY" *)
  | NoMatch           (* strptime: data does not match the format *)
  | Unconverted       (* strptime: unconverted data remains *)
  | DateRange         (* date(y, m, d): a field is out of range *)
  | Unpack            (* too few values to unpack *)
  | NotInList.        (* list.remove(x): x not in list *)

Inductive exn : Type :=
  | ValueError (why : value_error)
  | IndexError
  | KeyError
  | AttributeError
  | OverflowError
  | SystemError.      (* a dangling reference; see [getobj] *)

Inductive result (A : Type) : Type :=
  | Ok (a : A)
  | Raise (e : exn).
Arguments Ok {A} a.
Arguments Raise {A} e.

Definition is_ok {A} (r : result A) : bool :=
  match r with Ok _ => true | Raise _ => false end.

(** ** Validated fields *)

(** [class Field]: a value holder; [Name], [Phone] and [Birthday] are
    subclasses that add no attribute. *)
Record Field : Type := mkField { value : pystr }.
Abbreviation Name := Field (only parsing).
Abbreviation Phone := Field (only parsing).
Abbreviation Birthday := Field (only parsing).

Definition Field_str (f : Field) : pystr := value f.

(** [Phone.__init__] *)
Definition Phone_init (v : pystr) : result Phone :=
  if negb (isdigit v) || negb (len v =? 10)
  then Raise (ValueError PhoneFormat)
  else Ok (mkField v).

(** ** Calendar arithmetic of [datetime.date] *)

Definition MINYEAR : Z := 1.
Definition MAXYEAR : Z := 9999.
(** [date.max.toordinal()] *)
Definition MAXORDINAL : Z := 3652059.

(** Index 0 is a placeholder, so that months index the tables directly. *)
Definition DAYS_IN_MONTH : list Z :=
  [-1; 31; 28; 31; 30; 31; 30; 31; 31; 30; 31; 30; 31].

Definition DAYS_BEFORE_MONTH : list Z :=
  [-1; 0; 31; 59; 90; 120; 151; 181; 212; 243; 273; 304; 334].

(** [table[i]] for an index within the table. *)
Definition index (table : list Z) (i : Z) : Z := nth (Z.to_nat i) table (-1).

(** A Python [bool] used as a number. *)
Definition int_of_bool (b : bool) : Z := if b then 1 else 0.

Definition is_leap (y : Z) : bool :=
  (y mod 4 =? 0) && (negb (y mod 100 =? 0) || (y mod 400 =? 0)).

(** number of days before January 1st of [y] *)
Definition days_before_year (y : Z) : Z :=
  let y' := y - 1 in
  y' * 365 + y' / 4 - y' / 100 + y' / 400.

Definition days_in_month (y m : Z) : Z :=
  if (m =? 2) && is_leap y then 29 else index DAYS_IN_MONTH m.

(** number of days in the year preceding the first day of month [m] *)
Definition days_before_month (y m : Z) : Z :=
  index DAYS_BEFORE_MONTH m + int_of_bool ((2 <? m) && is_leap y).

(** [_ymd2ord]: January 1st of year 1 is day 1. *)
Definition ymd2ord (y m d : Z) : Z :=
  days_before_year y + days_before_month y m + d.

Definition DI400Y : Z := Eval cbv in days_before_year 401.
Definition DI100Y : Z := Eval cbv in days_before_year 101.
Definition DI4Y : Z := Eval cbv in days_before_year 5.

(** [_ord2ymd] *)
Definition ord2ymd (n : Z) : Z * Z * Z :=
  let n := n - 1 in
  let n400 := n / DI400Y in
  let n := n mod DI400Y in
  let y := n400 * 400 + 1 in
  let n100 := n / DI100Y in
  let n := n mod DI100Y in
  let n4 := n / DI4Y in
  let n := n mod DI4Y in
  let n1 := n / 365 in
  let n := n mod 365 in
  let y := y + (n100 * 100 + n4 * 4 + n1) in
  if (n1 =? 4) || (n100 =? 4) then (y - 1, 12, 31)
  else
    let leapyear := (n1 =? 3) && (negb (n4 =? 24) || (n100 =? 3)) in
    let m := Z.shiftr (n + 50) 5 in
    let preceding := index DAYS_BEFORE_MONTH m
                     + int_of_bool ((2 <? m) && leapyear) in
    if n <? preceding then
      let m := m - 1 in
      let preceding := preceding
                       - (index DAYS_IN_MONTH m
                          + int_of_bool ((m =? 2) && leapyear)) in
      (y, m, n - preceding + 1)
    else (y, m, n - preceding + 1).

(** A [datetime.date] object. *)
Record date : Type := mkDate { year : Z; month : Z; day : Z }.

(** [date(y, m, d)]: the constructor checks the fields. *)
Definition date_new (y m d : Z) : result date :=
  if negb ((MINYEAR <=? y) && (y <=? MAXYEAR)) then Raise (ValueError DateRange)
  else if negb ((1 <=? m) && (m <=? 12)) then Raise (ValueError DateRange)
  else if negb ((1 <=? d) && (d <=? days_in_month y m))
       then Raise (ValueError DateRange)
  else Ok (mkDate y m d).

(** [d.replace(year=y)] *)
Definition replace_year (d : date) (y : Z) : result date :=
  date_new y (month d) (day d).

Definition toordinal (d : date) : Z := ymd2ord (year d) (month d) (day d).

Definition fromordinal (n : Z) : result date :=
  let '(y, m, d) := ord2ymd n in date_new y m d.

(** [a < b]: comparison of the tuples (year, month, day). *)
Definition date_lt (a b : date) : bool :=
  (year a <? year b)
  || ((year a =? year b)
      && ((month a <? month b)
          || ((month a =? month b) && (day a <? day b)))).

(** [(a - b).days] *)
Definition days_between (a b : date) : Z := toordinal a - toordinal b.

(** [d + timedelta(days=n)] *)
Definition date_add (d : date) (n : Z) : result date :=
  let o := toordinal d + n in
  if (0 <? o) && (o <=? MAXORDINAL) then fromordinal o
  else Raise OverflowError.

(** Monday is 0, Sunday is 6. *)
Definition weekday (d : date) : Z := (toordinal d + 6) mod 7.

(** Modelled from the spec: [date_utils.adjust_for_weekend], which
    [main.py] imports, is not among the sources.  The specification gives
    it as: an occurrence on a Saturday is shifted forward to the following
    Monday (+2 days), one on a Sunday to Monday (+1 day), weekdays are
    unchanged. *)
Definition adjust_for_weekend (d : date) : result date :=
  if weekday d =? 5 then date_add d 2
  else if weekday d =? 6 then date_add d 1
  else Ok d.

(** The well-formed dates: those the constructor accepts. *)
Definition valid_date (d : date) : Prop :=
  MINYEAR <= year d <= MAXYEAR /\ 1 <= month d <= 12
  /\ 1 <= day d <= days_in_month (year d) (month d).

(** ** Parsing and formatting with the format ["%d.%m.%Y"] *)

(** The fragment of regular expressions produced for this format. *)
Inductive regex : Type :=
  | Chr (c : codepoint)          (* one given character *)
  | Rng (lo hi : codepoint)      (* [lo-hi] *)
  | Dec                          (* \d *)
  | Cat (r1 r2 : regex)
  | Alt (r1 r2 : regex).

(** Backtracking matcher: every way [r] matches a prefix of [s], as
    (matched text, remaining text), in the order in which the engine
    tries them (alternatives left to right). *)
Fixpoint rmatch (r : regex) (s : pystr) : list (pystr * pystr) :=
  match r with
  | Chr c =>
      match s with
      | x :: s' => if codepoint_eqb x c then [([x], s')] else []
      | [] => []
      end
  | Rng lo hi =>
      match s with
      | x :: s' => if (lo <=? x)%N && (x <=? hi)%N then [([x], s')] else []
      | [] => []
      end
  | Dec =>
      match s with
      | x :: s' => if is_decimal x then [([x], s')] else []
      | [] => []
      end
  | Cat r1 r2 =>
      flat_map (fun m1 =>
                  List.map (fun m2 => (fst m1 ++ fst m2, snd m2))
                           (rmatch r2 (snd m1)))
               (rmatch r1 s)
  | Alt r1 r2 => rmatch r1 s ++ rmatch r2 s
  end.

Definition ch (s : string) : codepoint :=
  match lit s with c :: _ => c | [] => 0%N end.

(** [%d]: 3[0-1]|[1-2]\d|0[1-9]|[1-9]| [1-9] *)
Definition re_d : regex :=
  Alt (Cat (Chr (ch "3")) (Rng (ch "0") (ch "1")))
 (Alt (Cat (Rng (ch "1") (ch "2")) Dec)
 (Alt (Cat (Chr (ch "0")) (Rng (ch "1") (ch "9")))
 (Alt (Rng (ch "1") (ch "9"))
      (Cat (Chr (ch " ")) (Rng (ch "1") (ch "9")))))).

(** [%m]: 1[0-2]|0[1-9]|[1-9] *)
Definition re_m : regex :=
  Alt (Cat (Chr (ch "1")) (Rng (ch "0") (ch "2")))
 (Alt (Cat (Chr (ch "0")) (Rng (ch "1") (ch "9")))
      (Rng (ch "1") (ch "9"))).

(** [%Y]: \d\d\d\d *)
Definition re_Y : regex := Cat Dec (Cat Dec (Cat Dec Dec)).

Definition re_dot : regex := Chr (ch ".").

(** The groups of a match of the compiled format
    [(?P<d>..)\.(?P<m>..)\.(?P<Y>..)] and the text left after it.  (The
    format is compiled with IGNORECASE; none of its characters has case.) *)
Record found : Type :=
  mkFound { group_d : pystr; group_m : pystr; group_Y : pystr;
            unconverted : pystr }.

(** All matches of the format at the start of [s], in engine order. *)
Definition format_matches (s : pystr) : list found :=
  flat_map (fun md =>
  flat_map (fun p1 =>
  flat_map (fun mm =>
  flat_map (fun p2 =>
  List.map (fun mY => mkFound (fst md) (fst mm) (fst mY) (snd mY))
           (rmatch re_Y (snd p2)))
           (rmatch re_dot (snd mm)))
           (rmatch re_m (snd p1)))
           (rmatch re_dot (snd md)))
           (rmatch re_d s).

(** [format_regex.match(data_string)]: the first match, if any. *)
Definition format_match (s : pystr) : option found := head (format_matches s).

(** Value of a decimal digit character. *)
Definition decimal_value (c : codepoint) : Z :=
  match List.find (fun r => (fst r <=? c)%N && (c <=? snd r)%N)
                  decimal_ranges with
  | Some r => Z.of_N ((c - fst r) mod 10)
  | None => 0
  end.

Definition is_space (c : codepoint) : bool := codepoint_eqb c (ch " ").

Fixpoint lstrip (s : pystr) : pystr :=
  match s with
  | c :: s' => if is_space c then lstrip s' else s
  | [] => []
  end.

(** [int(s)] on the texts a group of the format can capture: blanks
    before the number are skipped, the digits may come from any decimal
    script.  (Blanks after the number, signs and underscores, which [int]
    accepts as well, cannot occur in a captured group.) *)
Definition py_int (s : pystr) : Z :=
  fold_left (fun acc c => 10 * acc + decimal_value c) (lstrip s) 0.

(** [datetime.strptime(s, "%d.%m.%Y").date()] *)
Definition strptime (s : pystr) : result date :=
  match format_match s with
  | None => Raise (ValueError NoMatch)
  | Some f =>
      match unconverted f with
      | _ :: _ => Raise (ValueError Unconverted)
      | [] => date_new (py_int (group_Y f)) (py_int (group_m f))
                       (py_int (group_d f))
      end
  end.

Definition digit_char (n : Z) : codepoint := (ch "0" + Z.to_N n)%N.

Definition pad2 (n : Z) : pystr := [digit_char (n / 10); digit_char (n mod 10)].

Definition pad4 (n : Z) : pystr :=
  [digit_char (n / 1000); digit_char (n / 100 mod 10);
   digit_char (n / 10 mod 10); digit_char (n mod 10)].

(** [d.strftime("%d.%m.%Y")].  The year is printed with four digits; for
    years before 1000 the C library decides about the padding, and the
    program only formats dates of the current or the next year. *)
Definition strftime (d : date) : pystr :=
  pad2 (day d) ++ lit "." ++ pad2 (month d) ++ lit "." ++ pad4 (year d).

(** [Birthday.__init__]: the text is kept as it was given. *)
Definition Birthday_init (v : pystr) : result Birthday :=
  match strptime v with
  | Ok _ => Ok (mkField v)
  | Raise (ValueError _) => Raise (ValueError DateFormat)
  | Raise e => Raise e
  end.

(** [Birthday.__str__] *)
Definition Birthday_str (b : Birthday) : pystr := value b.

(** ** The object store and the handler monad *)

(** Addresses of [Record] objects and of [Phone] objects. *)
Abbreviation ref := nat (only parsing).
Abbreviation pref := nat (only parsing).

(** [class Record]: the attributes [name], [phones], [birthday].  The
    list [phones] holds references to [Phone] objects; the name and the
    birthday are never changed once made and are kept by value. *)
Record ContactRecord : Type :=
  mkRecord { name : Name; phones : list pref; birthday : option Birthday }.

(** The [Record] and the [Phone] objects allocated so far, by address,
    and the dictionary [AddressBook.data] in insertion order; its values
    are references to records. *)
Record state : Type :=
  mkState { objects : list ContactRecord;
            phone_objects : list Phone;
            data : list (pystr * ref) }.

(** A computation may change the store and may raise; what it had
    changed before raising stays changed. *)
Definition M (A : Type) : Type := state -> result A * state.

Definition ret {A} (a : A) : M A := fun s => (Ok a, s).

Definition raise {A} (e : exn) : M A := fun s => (Raise e, s).

Definition bind {A B} (c : M A) (k : A -> M B) : M B :=
  fun s => match c s with
           | (Ok a, s') => k a s'
           | (Raise e, s') => (Raise e, s')
           end.

Declare Scope py_scope.
Delimit Scope py_scope with py.
Notation "x <- c ;; k" := (bind c (fun x => k))
  (at level 100, c at next level, right associativity) : py_scope.
Notation "c ;;; k" := (bind c (fun _ => k))
  (at level 100, right associativity) : py_scope.
Local Open Scope py_scope.

Definition lift {A} (r : result A) : M A :=
  match r with Ok a => ret a | Raise e => raise e end.

(** Reading the object behind a reference.  The program cannot produce an
    address outside the store; that case is reported as [SystemError] so
    that the access is a total function. *)
Definition getobj (r : ref) : M ContactRecord :=
  fun s => match objects s !! r with
           | Some o => (Ok o, s)
           | None => (Raise SystemError, s)
           end.

(** Assignment to attributes of the object behind a reference. *)
Definition setobj (r : ref) (o : ContactRecord) : M unit :=
  fun s => (Ok tt, mkState (<[r := o]> (objects s)) (phone_objects s) (data s)).

(** Allocation of a new object. *)
Definition newobj (o : ContactRecord) : M ref :=
  fun s => (Ok (length (objects s)),
            mkState (objects s ++ [o]) (phone_objects s) (data s)).

(** The same for [Phone] objects. *)
Definition getphone (p : pref) : M Phone :=
  fun s => match phone_objects s !! p with
           | Some x => (Ok x, s)
           | None => (Raise SystemError, s)
           end.

Definition setphone (p : pref) (x : Phone) : M unit :=
  fun s => (Ok tt, mkState (objects s) (<[p := x]> (phone_objects s)) (data s)).

Definition newphone (x : Phone) : M pref :=
  fun s => (Ok (length (phone_objects s)),
            mkState (objects s) (phone_objects s ++ [x]) (data s)).

(** [Phone(v)] as an object of the store. *)
Definition Phone_new (v : pystr) : M pref :=
  x <- lift (Phone_init v) ;;
  newphone x.

(** [[p.value for p in ps]] *)
Fixpoint phone_values (ps : list pref) : M (list pystr) :=
  match ps with
  | [] => ret []
  | p :: rest =>
      x <- getphone p ;;
      vs <- phone_values rest ;;
      ret (value x :: vs)
  end.

(** ** [class Record] *)

(** [Record.__init__] *)
Definition Record_init (nm : pystr) : M ref :=
  newobj (mkRecord (mkField nm) [] None).

(** The loop of [find_phone]: the first [Phone] object of the list whose
    value equals [phone]; [None] is Python's [None]. *)
Fixpoint find_phone_loop (ps : list pref) (phone : pystr)
  : M (option pref) :=
  match ps with
  | [] => ret None
  | p :: rest =>
      x <- getphone p ;;
      if pystr_eqb (value x) phone then ret (Some p)
      else find_phone_loop rest phone
  end.

(** [Record.find_phone] *)
Definition find_phone (self : ref) (phone : pystr) : M (option pref) :=
  o <- getobj self ;;
  find_phone_loop (phones o) phone.

(** [Record.add_phone] *)
Definition add_phone (self : ref) (phone : pystr) : M unit :=
  p <- Phone_new phone ;;
  o <- getobj self ;;
  setobj self (mkRecord (name o) (phones o ++ [p]) (birthday o)).

(** [l.remove(x)] on a list of references: the first item that is [x]
    goes; [None] when [x] is not an item. *)
Fixpoint list_remove (x : pref) (l : list pref) : option (list pref) :=
  match l with
  | [] => None
  | y :: rest =>
      if Nat.eqb y x then Some rest
      else match list_remove x rest with
           | Some rest' => Some (y :: rest')
           | None => None
           end
  end.

(** [Record.remove_phone]; [list.remove] raises when handed [None]. *)
Definition remove_phone (self : ref) (phone : pystr) : M unit :=
  phone_obj <- find_phone self phone ;;
  o <- getobj self ;;
  match phone_obj with
  | None => raise (ValueError NotInList)
  | Some p =>
      match list_remove p (phones o) with
      | None => raise (ValueError NotInList)
      | Some ps => setobj self (mkRecord (name o) ps (birthday o))
      end
  end.

(** [Record.edit_phone].  The [Phone] built from [new_phone] only lends
    its value to the object that was found; it is not kept. *)
Definition edit_phone (self : ref) (old_phone new_phone : pystr) : M unit :=
  phone_obj <- find_phone self old_phone ;;
  match phone_obj with
  | None => raise (ValueError OldPhoneMissing)
  | Some p =>
      x <- lift (Phone_init new_phone) ;;
      setphone p (mkField (value x))
  end.

(** [Record.add_birthday] *)
Definition Record_add_birthday (self : ref) (text : pystr) : M unit :=
  b <- lift (Birthday_init text) ;;
  o <- getobj self ;;
  setobj self (mkRecord (name o) (phones o) (Some b)).

(** [Record.__str__] *)
Definition Record_str (self : ref) : M pystr :=
  o <- getobj self ;;
  vs <- phone_values (phones o) ;;
  ret (lit "Contact name: " ++ value (name o) ++ lit ", phones: "
       ++ join (lit "; ") vs).

(** ** [class AddressBook] *)

(** [d.get(k)] on the dictionary. *)
Fixpoint dict_get (d : list (pystr * ref)) (k : pystr) : option ref :=
  match d with
  | [] => None
  | (k', v) :: rest => if pystr_eqb k' k then Some v else dict_get rest k
  end.

(** [d[k] = v]: an existing key keeps its place, a new one goes last. *)
Fixpoint dict_set (d : list (pystr * ref)) (k : pystr) (v : ref)
  : list (pystr * ref) :=
  match d with
  | [] => [(k, v)]
  | (k', v') :: rest =>
      if pystr_eqb k' k then (k', v) :: rest else (k', v') :: dict_set rest k v
  end.

(** [del d[k]] without the check for presence. *)
Fixpoint dict_del (d : list (pystr * ref)) (k : pystr) : list (pystr * ref) :=
  match d with
  | [] => []
  | (k', v') :: rest =>
      if pystr_eqb k' k then rest else (k', v') :: dict_del rest k
  end.

(** [AddressBook.add_record] *)
Definition add_record (record : ref) : M unit :=
  o <- getobj record ;;
  fun s => (Ok tt, mkState (objects s) (phone_objects s)
                           (dict_set (data s) (value (name o)) record)).

(** [AddressBook.find] *)
Definition find (nm : pystr) : M (option ref) :=
  fun s => (Ok (dict_get (data s) nm), s).

(** [AddressBook.delete] *)
Definition delete_record (nm : pystr) : M unit :=
  fun s => match dict_get (data s) nm with
           | None => (Raise KeyError, s)
           | Some _ => (Ok tt, mkState (objects s) (phone_objects s)
                                       (dict_del (data s) nm))
           end.

(** An item of the list returned by [get_upcoming_birthdays]. *)
Record reminder : Type :=
  mkReminder { reminder_name : pystr; congratulation_date : pystr }.

(** One record of the loop of [get_upcoming_birthdays]: the date of
    congratulation when the birthday is set, before the test of the
    window. *)
Definition congratulation (today : date) (b : Birthday) : result date :=
  match strptime (value b) with
  | Raise e => Raise e
  | Ok birthday_date =>
      match replace_year birthday_date (year today) with
      | Raise e => Raise e
      | Ok birthday_this_year =>
          match (if date_lt birthday_this_year today
                 then replace_year birthday_this_year (year today + 1)
                 else Ok birthday_this_year) with
          | Raise e => Raise e
          | Ok birthday_this_year => adjust_for_weekend birthday_this_year
          end
      end
  end.

(** The loop of [get_upcoming_birthdays] over the values of the
    dictionary, [acc] being the list [result] built so far. *)
Fixpoint upcoming_loop (today : date) (days : Z) (values : list ref)
    (acc : list reminder) : M (list reminder) :=
  match values with
  | [] => ret acc
  | r :: rest =>
      record <- getobj r ;;
      match birthday record with
      | None => upcoming_loop today days rest acc
      | Some b =>
          congratulation_date <- lift (congratulation today b) ;;
          let delta := days_between congratulation_date today in
          if (0 <=? delta) && (delta <=? days)
          then upcoming_loop today days rest
                 (acc ++ [mkReminder (value (name record))
                                     (strftime congratulation_date)])
          else upcoming_loop today days rest acc
      end
  end.

(** [AddressBook.get_upcoming_birthdays]; [today] is what [date.today()]
    returns. *)
Definition get_upcoming_birthdays (today : date) (days : Z)
  : M (list reminder) :=
  fun s => upcoming_loop today days (List.map snd (data s)) [] s.

(** The line of one record in [AddressBook.__str__]. *)
Definition book_line (o : ContactRecord) : M pystr :=
  vs <- phone_values (phones o) ;;
  ret (lit "Name: " ++ value (name o) ++ lit ", Phones: "
       ++ join (lit "; ") vs
       ++ lit ", Birthday: "
       ++ match birthday o with Some b => value b | None => lit "N/A" end).

(** The loop of [AddressBook.__str__], [acc] being the list [result]. *)
Fixpoint book_lines (values : list ref) (acc : list pystr)
  : M (list pystr) :=
  match values with
  | [] => ret acc
  | r :: rest =>
      record <- getobj r ;;
      line <- book_line record ;;
      book_lines rest (acc ++ [line])
  end.

(** [AddressBook.__str__] *)
Definition AddressBook_str : M pystr :=
  fun s => match data s with
           | [] => (Ok (lit "Address book is empty."), s)
           | _ => (result <- book_lines (List.map snd (data s)) [] ;;
                   ret (join (lit (String "010" EmptyString)) result)) s
           end.

(** ** The decorator and the command handlers *)

(** [input_error]: four kinds of exception become a message; any other
    exception passes through. *)
Definition input_error (func : M pystr) : M pystr :=
  fun s => match func s with
           | (Ok v, s') => (Ok v, s')
           | (Raise (ValueError _), s') => (Ok (lit "Provide correct data."), s')
           | (Raise IndexError, s') => (Ok (lit "Not enough arguments."), s')
           | (Raise KeyError, s') => (Ok (lit "Contact not found."), s')
           | (Raise AttributeError, s') => (Ok (lit "Contact not found."), s')
           | (Raise e, s') => (Raise e, s')
           end.

(** [a, *_ = args] *)
Definition unpack1 (args : list pystr) : M pystr :=
  match args with
  | a :: _ => ret a
  | _ => raise (ValueError Unpack)
  end.

(** [a, b, *_ = args] *)
Definition unpack2 (args : list pystr) : M (pystr * pystr) :=
  match args with
  | a :: b :: _ => ret (a, b)
  | _ => raise (ValueError Unpack)
  end.

(** [a, b, c, *_ = args] *)
Definition unpack3 (args : list pystr) : M (pystr * pystr * pystr) :=
  match args with
  | a :: b :: c :: _ => ret (a, b, c)
  | _ => raise (ValueError Unpack)
  end.

(** Use of an attribute or method of [record], which may be [None]. *)
Definition attr (record : option ref) : M ref :=
  match record with
  | Some r => ret r
  | None => raise AttributeError
  end.

Definition add_birthday (args : list pystr) : M pystr :=
  input_error (
    nb <- unpack2 args ;;
    record <- find (fst nb) ;;
    self <- attr record ;;
    Record_add_birthday self (snd nb) ;;;
    ret (lit "Birthday added.")).

Definition show_birthday (args : list pystr) : M pystr :=
  input_error (
    nm <- unpack1 args ;;
    record <- find nm ;;
    self <- attr record ;;
    o <- getobj self ;;
    match birthday o with
    | None => ret (lit "Birthday not set.")
    | Some b => ret (value b)
    end).

Definition reminder_line (item : reminder) : pystr :=
  reminder_name item ++ lit ": " ++ congratulation_date item.

Definition birthdays (today : date) (args : list pystr) : M pystr :=
  input_error (
    upcoming <- get_upcoming_birthdays today 7 ;;
    match upcoming with
    | [] => ret (lit "No birthdays in the next week.")
    | _ => ret (join (lit (String "010" EmptyString))
                     (List.map reminder_line upcoming))
    end).

Definition add_contact (args : list pystr) : M pystr :=
  input_error (
    np <- unpack2 args ;;
    let nm := fst np in
    let phone := snd np in
    record <- find nm ;;
    rm <- match record with
          | None =>
              record <- Record_init nm ;;
              add_record record ;;;
              ret (record, lit "Contact added.")
          | Some record => ret (record, lit "Contact updated.")
          end ;;
    match phone with
    | [] => ret (snd rm)
    | _ => add_phone (fst rm) phone ;;; ret (snd rm)
    end).

Definition change_contact (args : list pystr) : M pystr :=
  input_error (
    a <- unpack3 args ;;
    let '(nm, old_phone, new_phone) := a in
    record <- find nm ;;
    self <- attr record ;;
    edit_phone self old_phone new_phone ;;;
    ret (lit "Phone number updated.")).

Definition show_phone (args : list pystr) : M pystr :=
  input_error (
    nm <- unpack1 args ;;
    record <- find nm ;;
    self <- attr record ;;
    o <- getobj self ;;
    match phones o with
    | [] => ret (lit "No phone numbers.")
    | ps => vs <- phone_values ps ;; ret (join (lit "; ") vs)
    end).

Definition show_all_contacts (args : list pystr) : M pystr :=
  input_error AddressBook_str.

(** An empty [AddressBook()], no object being allocated. *)
Definition empty_book : state := mkState [] [] [].

(** ** Notions used in the statements *)

(** The month and day of the [n]-th day (from 0) of a year, as the last
    part of [ord2ymd] computes them. *)
Definition in_year (leapyear : bool) (n : Z) : Z * Z :=
  let m := Z.shiftr (n + 50) 5 in
  let preceding := index DAYS_BEFORE_MONTH m
                   + int_of_bool ((2 <? m) && leapyear) in
  if n <? preceding then
    let m := m - 1 in
    let preceding := preceding
                     - (index DAYS_IN_MONTH m
                        + int_of_bool ((m =? 2) && leapyear)) in
    (m, n - preceding + 1)
  else (m, n - preceding + 1).

Definition in_year_ok (leapyear : bool) (n : Z) : bool :=
  let '(m, d) := in_year leapyear n in
  (1 <=? m) && (m <=? 12) && (1 <=? d)
  && (d <=? (if (m =? 2) && leapyear then 29 else index DAYS_IN_MONTH m))
  && (index DAYS_BEFORE_MONTH m + int_of_bool ((2 <? m) && leapyear) + d
      =? n + 1).

(** The texts a regular expression matches. *)
Inductive matches : regex -> pystr -> Prop :=
  | m_chr c : matches (Chr c) [c]
  | m_rng lo hi c : (lo <= c <= hi)%N -> matches (Rng lo hi) [c]
  | m_dec c : is_decimal c = true -> matches Dec [c]
  | m_cat r1 r2 t1 t2 :
      matches r1 t1 -> matches r2 t2 -> matches (Cat r1 r2) (t1 ++ t2)
  | m_alt_l r1 r2 t : matches r1 t -> matches (Alt r1 r2) t
  | m_alt_r r1 r2 t : matches r2 t -> matches (Alt r1 r2) t.

Definition between (lo hi : string) (c : codepoint) : Prop :=
  (ch lo <= c <= ch hi)%N.

(** The texts of a day of the month that the directive [%d] reads: two
    digits, one digit, or one digit after a blank. *)
Inductive day_field : pystr -> Prop :=
  | day_3x c : between "0" "1" c -> day_field [ch "3"; c]
  | day_1x a c : between "1" "2" a -> is_decimal c = true -> day_field [a; c]
  | day_0x c : between "1" "9" c -> day_field [ch "0"; c]
  | day_x c : between "1" "9" c -> day_field [c]
  | day_blank_x c : between "1" "9" c -> day_field [ch " "; c].

(** The texts of a month that the directive [%m] reads. *)
Inductive month_field : pystr -> Prop :=
  | month_1x c : between "0" "2" c -> month_field [ch "1"; c]
  | month_0x c : between "1" "9" c -> month_field [ch "0"; c]
  | month_x c : between "1" "9" c -> month_field [c].

(** A year of four digits, as the directive [%Y] reads it. *)
Definition year_field (t : pystr) : Prop :=
  length t = 4%nat /\ Forall (fun c => is_decimal c = true) t.

(** The matches of the whole format. *)
Definition found_in (f : found) (s : pystr) : Prop :=
  day_field (group_d f) /\ month_field (group_m f) /\ year_field (group_Y f)
  /\ s = group_d f ++ lit "." ++ group_m f ++ lit "." ++ group_Y f
         ++ unconverted f.

(** [raw] is written day.month.year and these numbers are those of [dt]. *)
Definition written_as (raw : pystr) (dt : date) : Prop :=
  exists D Mo Y,
    raw = D ++ lit "." ++ Mo ++ lit "." ++ Y
    /\ day_field D /\ month_field Mo /\ year_field Y
    /\ dt = mkDate (py_int Y) (py_int Mo) (py_int D).

(** The dates of the Gregorian calendar, years 1 to 9999. *)
Definition gregorian (dt : date) : Prop :=
  1 <= year dt <= 9999
  /\ ((In (month dt) [1; 3; 5; 7; 8; 10; 12] /\ 1 <= day dt <= 31)
      \/ (In (month dt) [4; 6; 9; 11] /\ 1 <= day dt <= 30)
      \/ (month dt = 2 /\ 1 <= day dt <= 28)
      \/ (month dt = 2 /\ day dt = 29 /\ year dt mod 4 = 0
          /\ (year dt mod 100 <> 0 \/ year dt mod 400 = 0))).

(** The text is a date that [Birthday] accepts. *)
Definition parses_as_date (raw : pystr) : Prop :=
  exists dt, written_as raw dt /\ gregorian dt.

(** Exactly ten characters ['0'..'9']. *)
Definition ten_ascii_digits (raw : pystr) : Prop :=
  length raw = 10%nat /\ Forall (fun c => is_ascii_digit c = true) raw.

(** Exactly ten characters that [str.isdigit] counts as digits. *)
Definition ten_digits (raw : pystr) : Prop :=
  length raw = 10%nat /\ Forall (fun c => char_isdigit c = true) raw.

(** Ten ARABIC-INDIC DIGITs, U+0661 .. U+0669 and U+0660. *)
Definition arabic_indic_phone : pystr :=
  [0x661; 0x662; 0x663; 0x664; 0x665; 0x666; 0x667; 0x668; 0x669; 0x660]%N.

(** The exceptions that [input_error] turns into a message. *)
Definition caught (e : exn) : Prop :=
  match e with
  | ValueError _ | IndexError | KeyError | AttributeError => True
  | OverflowError | SystemError => False
  end.

Definition allocated (s : state) (r : ref) : Prop :=
  (r < length (objects s))%nat.

Definition phone_allocated (s : state) (p : pref) : Prop :=
  (p < length (phone_objects s))%nat.

(** A birthday that is set holds a text that [Birthday] accepted, and the
    phones are allocated objects. *)
Definition record_ok (s : state) (o : ContactRecord) : Prop :=
  (forall b, birthday o = Some b -> exists dt, strptime (value b) = Ok dt)
  /\ Forall (phone_allocated s) (phones o).

(** A [Phone] object is an item of one list of phones, once. *)
Definition no_sharing (s : state) : Prop :=
  forall i j oi oj a b p,
    objects s !! i = Some oi -> objects s !! j = Some oj ->
    phones oi !! a = Some p -> phones oj !! b = Some p ->
    i = j /\ a = b.

(** States the program can reach: the book refers to allocated records,
    the records are as above, and no [Phone] object is shared. *)
Definition wf (s : state) : Prop :=
  Forall (fun kv => allocated s (snd kv)) (data s)
  /\ Forall (record_ok s) (objects s)
  /\ no_sharing s.

(** A computation started in a state satisfying [P] either returns with
    [Q], or raises an exception that [input_error] catches, in a
    well-formed state. *)
Definition triple {A} (P : state -> Prop) (c : M A)
    (Q : A -> state -> Prop) : Prop :=
  forall s, P s ->
    match c s with
    | (Ok a, s') => Q a s'
    | (Raise e, s') => caught e /\ wf s'
    end.

(** The handlers that [main] dispatches to. *)
Definition handlers (today : date) : list (list pystr -> M pystr) :=
  [add_contact; change_contact; show_phone; show_all_contacts;
   add_birthday; show_birthday; birthdays today].

(** The values of the phones behind a list of references. *)
Fixpoint texts (objs : list Phone) (ps : list pref) : option (list pystr) :=
  match ps with
  | [] => Some []
  | p :: rest =>
      match objs !! p, texts objs rest with
      | Some x, Some vs => Some (value x :: vs)
      | _, _ => None
      end
  end.

(** The phone numbers of a record, in the order of its list. *)
Definition phones_of (s : state) (o : ContactRecord) : option (list pystr) :=
  texts (phone_objects s) (phones o).

(** [p] is the first phone of the list with the value [v], at position
    [i]. *)
Definition first_with_value (s : state) (ps : list pref) (v : pystr)
    (i : nat) (p : pref) : Prop :=
  ps !! i = Some p
  /\ (exists x, phone_objects s !! p = Some x /\ value x = v)
  /\ forall j q y, (j < i)%nat -> ps !! j = Some q ->
                   phone_objects s !! q = Some y -> value y <> v.

(** No phone of the list has the value [v]. *)
Definition no_phone_with_value (s : state) (ps : list pref) (v : pystr)
  : Prop :=
  forall p x, In p ps -> phone_objects s !! p = Some x -> value x <> v.

(** The record of key [nm], as the book shows it. *)
Definition record_of (s : state) (nm : pystr) : option ContactRecord :=
  match dict_get (data s) nm with
  | Some r => objects s !! r
  | None => None
  end.

(** Number of entries of the book under the key [nm]. *)
Definition entries_for (s : state) (nm : pystr) : nat :=
  length (List.filter (fun kv => pystr_eqb (fst kv) nm) (data s)).

(** ** The birthday rule in the words of the specification *)

(** This year's and next year's occurrence of the month and day of [bd]. *)
Definition this_year (today bd : date) : date :=
  mkDate (year today) (month bd) (day bd).

Definition next_year (today bd : date) : date :=
  mkDate (year today + 1) (month bd) (day bd).

(** Next year's occurrence is taken when this year's is a day before
    [today]. *)
Definition occurrence (today bd : date) : date :=
  if toordinal (this_year today bd) <? toordinal today
  then next_year today bd
  else this_year today bd.

(** Days added for the weekend: 2 on a Saturday, 1 on a Sunday. *)
Definition weekend_shift (d : date) : Z :=
  if weekday d =? 5 then 2 else if weekday d =? 6 then 1 else 0.

(** The record [o] is due: its birthday is set, and the adjusted date
    [adj] of its occurrence is at most [days] days ahead. *)
Definition due (today : date) (days : Z) (o : ContactRecord) (adj : date)
  : Prop :=
  exists b bd,
    birthday o = Some b /\ strptime (value b) = Ok bd
    /\ valid_date adj
    /\ toordinal adj = toordinal (occurrence today bd)
                       + weekend_shift (occurrence today bd)
    /\ 0 <= toordinal adj - toordinal today <= days.

(** The year in which the occurrence is looked for: the current one, or
    the next when month and day are already behind [today]. *)
Definition target_year (today bd : date) : Z :=
  if (month bd <? month today)
     || ((month bd =? month today) && (day bd <? day today))
  then year today + 1 else year today.

(** The canonical form DD.MM.YYYY: two digits, two digits, four digits. *)
Definition canonical_form (t : pystr) : Prop :=
  exists d1 d2 m1 m2 y1 y2 y3 y4,
    t = [d1; d2; ch "."; m1; m2; ch "."; y1; y2; y3; y4]
    /\ Forall (fun c => is_ascii_digit c = true)
              [d1; d2; m1; m2; y1; y2; y3; y4].

(** The records the book holds. *)
Definition in_book (s : state) (o : ContactRecord) : Prop :=
  exists k r, In (k, r) (data s) /\ objects s !! r = Some o.

(** No record of the book has its birthday on a 29th of February. *)
Definition no_leap_day (s : state) : Prop :=
  forall o b bd, in_book s o -> birthday o = Some b ->
                 strptime (value b) = Ok bd ->
                 ~ (month bd = 2 /\ day bd = 29).

(** A book with one contact, born on 01.01.2000. *)
Definition new_year_book : state :=
  mkState [mkRecord (mkField (lit "Ann")) [0%nat]
                    (Some (mkField (lit "01.01.2000")))]
          [mkField (lit "0501234567")]
          [(lit "Ann", 0%nat)].

(** A book with one contact, born on 29.02.2000. *)
Definition leap_day_book : state :=
  mkState [mkRecord (mkField (lit "Leo")) []
                    (Some (mkField (lit "29.02.2000")))]
          []
          [(lit "Leo", 0%nat)].

(** The reminders of the records that are due, whatever their order. *)
Definition reminded (today : date) (days : Z) (s : state) (values : list ref)
    (entry : reminder) : Prop :=
  exists r o adj,
    In r values /\ objects s !! r = Some o /\ due today days o adj
    /\ entry = mkReminder (value (name o)) (strftime adj).

(** A book with one contact and two phones. *)
Definition two_phone_book : state :=
  mkState [mkRecord (mkField (lit "Ann")) [0%nat; 1%nat] None]
          [mkField (lit "1111111111"); mkField (lit "2222222222")]
          [(lit "Ann", 0%nat)].

(** The record of that book. *)
Definition ann : ContactRecord :=
  mkRecord (mkField (lit "Ann")) [0%nat; 1%nat] None.

(** The reminders that one record contributes to the query: none or one. *)
Definition record_reminders (today : date) (days : Z) (o : ContactRecord)
  : result (list reminder) :=
  match birthday o with
  | None => Ok []
  | Some b =>
      match congratulation today b with
      | Raise e => Raise e
      | Ok adj =>
          if (0 <=? days_between adj today) && (days_between adj today <=? days)
          then Ok [mkReminder (value (name o)) (strftime adj)]
          else Ok []
      end
  end.

(** The keys of the dictionary, in its order. *)
Definition keys (s : state) : list pystr := List.map fst (data s).

(** * The command line: [parse_input] and [main] *)

(** ** The string methods that [parse_input] calls *)

(** The characters for which [str.isspace] holds (Unicode 14.0): those
    that [str.split()] takes as separators and [str.strip()] removes. *)
Definition space_ranges : list (N * N) :=
  [ (0x9, 0xd); (0x1c, 0x20); (0x85, 0x85); (0xa0, 0xa0); (0x1680, 0x1680);
    (0x2000, 0x200a); (0x2028, 0x2029); (0x202f, 0x202f); (0x205f, 0x205f);
    (0x3000, 0x3000) ]%N.

Definition char_isspace (c : codepoint) : bool := in_ranges space_ranges c.

(** The loop of [s.split()]: [word] is the word being read.  Runs of
    white space separate the words and no word is empty. *)
Fixpoint split_loop (s : pystr) (word : pystr) : list pystr :=
  match s with
  | [] => match word with [] => [] | _ => [word] end
  | c :: rest =>
      if char_isspace c
      then match word with
           | [] => split_loop rest []
           | _ => word :: split_loop rest []
           end
      else split_loop rest (word ++ [c])
  end.

(** [s.split()] *)
Definition split (s : pystr) : list pystr := split_loop s [].

Fixpoint strip_left (s : pystr) : pystr :=
  match s with
  | c :: rest => if char_isspace c then strip_left rest else s
  | [] => []
  end.

(** [s.strip()] *)
Definition strip (s : pystr) : pystr := rev (strip_left (rev (strip_left s))).

(** The simple lower-case mapping (Unicode 14.0), as runs
    [(first, last, step, image of first)]: the code points [first],
    [first + step], ... up to [last] are mapped to the image of [first]
    moved by the same distance; every other code point is mapped to
    itself. *)
Definition lower_runs : list (N * N * N * N) :=
  [ (0x41, 0x5a, 1, 0x61); (0xc0, 0xd6, 1, 0xe0); (0xd8, 0xde, 1, 0xf8);
    (0x100, 0x12e, 2, 0x101); (0x132, 0x136, 2, 0x133);
    (0x139, 0x147, 2, 0x13a); (0x14a, 0x176, 2, 0x14b);
    (0x178, 0x178, 1, 0xff); (0x179, 0x17d, 2, 0x17a);
    (0x181, 0x181, 1, 0x253); (0x182, 0x184, 2, 0x183);
    (0x186, 0x186, 1, 0x254); (0x187, 0x187, 1, 0x188);
    (0x189, 0x18a, 1, 0x256); (0x18b, 0x18b, 1, 0x18c);
    (0x18e, 0x18e, 1, 0x1dd); (0x18f, 0x18f, 1, 0x259);
    (0x190, 0x190, 1, 0x25b); (0x191, 0x191, 1, 0x192);
    (0x193, 0x193, 1, 0x260); (0x194, 0x194, 1, 0x263);
    (0x196, 0x196, 1, 0x269); (0x197, 0x197, 1, 0x268);
    (0x198, 0x198, 1, 0x199); (0x19c, 0x19c, 1, 0x26f);
    (0x19d, 0x19d, 1, 0x272); (0x19f, 0x19f, 1, 0x275);
    (0x1a0, 0x1a4, 2, 0x1a1); (0x1a6, 0x1a6, 1, 0x280);
    (0x1a7, 0x1a7, 1, 0x1a8); (0x1a9, 0x1a9, 1, 0x283);
    (0x1ac, 0x1ac, 1, 0x1ad); (0x1ae, 0x1ae, 1, 0x288);
    (0x1af, 0x1af, 1, 0x1b0); (0x1b1, 0x1b2, 1, 0x28a);
    (0x1b3, 0x1b5, 2, 0x1b4); (0x1b7, 0x1b7, 1, 0x292);
    (0x1b8, 0x1b8, 1, 0x1b9); (0x1bc, 0x1bc, 1, 0x1bd);
    (0x1c4, 0x1c4, 1, 0x1c6); (0x1c5, 0x1c5, 1, 0x1c6);
    (0x1c7, 0x1c7, 1, 0x1c9); (0x1c8, 0x1c8, 1, 0x1c9);
    (0x1ca, 0x1ca, 1, 0x1cc); (0x1cb, 0x1db, 2, 0x1cc);
    (0x1de, 0x1ee, 2, 0x1df); (0x1f1, 0x1f1, 1, 0x1f3);
    (0x1f2, 0x1f4, 2, 0x1f3); (0x1f6, 0x1f6, 1, 0x195);
    (0x1f7, 0x1f7, 1, 0x1bf); (0x1f8, 0x21e, 2, 0x1f9);
    (0x220, 0x220, 1, 0x19e); (0x222, 0x232, 2, 0x223);
    (0x23a, 0x23a, 1, 0x2c65); (0x23b, 0x23b, 1, 0x23c);
    (0x23d, 0x23d, 1, 0x19a); (0x23e, 0x23e, 1, 0x2c66);
    (0x241, 0x241, 1, 0x242); (0x243, 0x243, 1, 0x180);
    (0x244, 0x244, 1, 0x289); (0x245, 0x245, 1, 0x28c);
    (0x246, 0x24e, 2, 0x247); (0x370, 0x372, 2, 0x371);
    (0x376, 0x376, 1, 0x377); (0x37f, 0x37f, 1, 0x3f3);
    (0x386, 0x386, 1, 0x3ac); (0x388, 0x38a, 1, 0x3ad);
    (0x38c, 0x38c, 1, 0x3cc); (0x38e, 0x38f, 1, 0x3cd);
    (0x391, 0x3a1, 1, 0x3b1); (0x3a3, 0x3ab, 1, 0x3c3);
    (0x3cf, 0x3cf, 1, 0x3d7); (0x3d8, 0x3ee, 2, 0x3d9);
    (0x3f4, 0x3f4, 1, 0x3b8); (0x3f7, 0x3f7, 1, 0x3f8);
    (0x3f9, 0x3f9, 1, 0x3f2); (0x3fa, 0x3fa, 1, 0x3fb);
    (0x3fd, 0x3ff, 1, 0x37b); (0x400, 0x40f, 1, 0x450);
    (0x410, 0x42f, 1, 0x430); (0x460, 0x480, 2, 0x461);
    (0x48a, 0x4be, 2, 0x48b); (0x4c0, 0x4c0, 1, 0x4cf);
    (0x4c1, 0x4cd, 2, 0x4c2); (0x4d0, 0x52e, 2, 0x4d1);
    (0x531, 0x556, 1, 0x561); (0x10a0, 0x10c5, 1, 0x2d00);
    (0x10c7, 0x10c7, 1, 0x2d27); (0x10cd, 0x10cd, 1, 0x2d2d);
    (0x13a0, 0x13ef, 1, 0xab70); (0x13f0, 0x13f5, 1, 0x13f8);
    (0x1c90, 0x1cba, 1, 0x10d0); (0x1cbd, 0x1cbf, 1, 0x10fd);
    (0x1e00, 0x1e94, 2, 0x1e01); (0x1e9e, 0x1e9e, 1, 0xdf);
    (0x1ea0, 0x1efe, 2, 0x1ea1); (0x1f08, 0x1f0f, 1, 0x1f00);
    (0x1f18, 0x1f1d, 1, 0x1f10); (0x1f28, 0x1f2f, 1, 0x1f20);
    (0x1f38, 0x1f3f, 1, 0x1f30); (0x1f48, 0x1f4d, 1, 0x1f40);
    (0x1f59, 0x1f5f, 2, 0x1f51); (0x1f68, 0x1f6f, 1, 0x1f60);
    (0x1f88, 0x1f8f, 1, 0x1f80); (0x1f98, 0x1f9f, 1, 0x1f90);
    (0x1fa8, 0x1faf, 1, 0x1fa0); (0x1fb8, 0x1fb9, 1, 0x1fb0);
    (0x1fba, 0x1fbb, 1, 0x1f70); (0x1fbc, 0x1fbc, 1, 0x1fb3);
    (0x1fc8, 0x1fcb, 1, 0x1f72); (0x1fcc, 0x1fcc, 1, 0x1fc3);
    (0x1fd8, 0x1fd9, 1, 0x1fd0); (0x1fda, 0x1fdb, 1, 0x1f76);
    (0x1fe8, 0x1fe9, 1, 0x1fe0); (0x1fea, 0x1feb, 1, 0x1f7a);
    (0x1fec, 0x1fec, 1, 0x1fe5); (0x1ff8, 0x1ff9, 1, 0x1f78);
    (0x1ffa, 0x1ffb, 1, 0x1f7c); (0x1ffc, 0x1ffc, 1, 0x1ff3);
    (0x2126, 0x2126, 1, 0x3c9); (0x212a, 0x212a, 1, 0x6b);
    (0x212b, 0x212b, 1, 0xe5); (0x2132, 0x2132, 1, 0x214e);
    (0x2160, 0x216f, 1, 0x2170); (0x2183, 0x2183, 1, 0x2184);
    (0x24b6, 0x24cf, 1, 0x24d0); (0x2c00, 0x2c2f, 1, 0x2c30);
    (0x2c60, 0x2c60, 1, 0x2c61); (0x2c62, 0x2c62, 1, 0x26b);
    (0x2c63, 0x2c63, 1, 0x1d7d); (0x2c64, 0x2c64, 1, 0x27d);
    (0x2c67, 0x2c6b, 2, 0x2c68); (0x2c6d, 0x2c6d, 1, 0x251);
    (0x2c6e, 0x2c6e, 1, 0x271); (0x2c6f, 0x2c6f, 1, 0x250);
    (0x2c70, 0x2c70, 1, 0x252); (0x2c72, 0x2c72, 1, 0x2c73);
    (0x2c75, 0x2c75, 1, 0x2c76); (0x2c7e, 0x2c7f, 1, 0x23f);
    (0x2c80, 0x2ce2, 2, 0x2c81); (0x2ceb, 0x2ced, 2, 0x2cec);
    (0x2cf2, 0x2cf2, 1, 0x2cf3); (0xa640, 0xa66c, 2, 0xa641);
    (0xa680, 0xa69a, 2, 0xa681); (0xa722, 0xa72e, 2, 0xa723);
    (0xa732, 0xa76e, 2, 0xa733); (0xa779, 0xa77b, 2, 0xa77a);
    (0xa77d, 0xa77d, 1, 0x1d79); (0xa77e, 0xa786, 2, 0xa77f);
    (0xa78b, 0xa78b, 1, 0xa78c); (0xa78d, 0xa78d, 1, 0x265);
    (0xa790, 0xa792, 2, 0xa791); (0xa796, 0xa7a8, 2, 0xa797);
    (0xa7aa, 0xa7aa, 1, 0x266); (0xa7ab, 0xa7ab, 1, 0x25c);
    (0xa7ac, 0xa7ac, 1, 0x261); (0xa7ad, 0xa7ad, 1, 0x26c);
    (0xa7ae, 0xa7ae, 1, 0x26a); (0xa7b0, 0xa7b0, 1, 0x29e);
    (0xa7b1, 0xa7b1, 1, 0x287); (0xa7b2, 0xa7b2, 1, 0x29d);
    (0xa7b3, 0xa7b3, 1, 0xab53); (0xa7b4, 0xa7c2, 2, 0xa7b5);
    (0xa7c4, 0xa7c4, 1, 0xa794); (0xa7c5, 0xa7c5, 1, 0x282);
    (0xa7c6, 0xa7c6, 1, 0x1d8e); (0xa7c7, 0xa7c9, 2, 0xa7c8);
    (0xa7d0, 0xa7d0, 1, 0xa7d1); (0xa7d6, 0xa7d8, 2, 0xa7d7);
    (0xa7f5, 0xa7f5, 1, 0xa7f6); (0xff21, 0xff3a, 1, 0xff41);
    (0x10400, 0x10427, 1, 0x10428); (0x104b0, 0x104d3, 1, 0x104d8);
    (0x10570, 0x1057a, 1, 0x10597); (0x1057c, 0x1058a, 1, 0x105a3);
    (0x1058c, 0x10592, 1, 0x105b3); (0x10594, 0x10595, 1, 0x105bb);
    (0x10c80, 0x10cb2, 1, 0x10cc0); (0x118a0, 0x118bf, 1, 0x118c0);
    (0x16e40, 0x16e5f, 1, 0x16e60); (0x1e900, 0x1e921, 1, 0x1e922) ]%N.

Fixpoint lower_in (runs : list (N * N * N * N)) (c : codepoint) : codepoint :=
  match runs with
  | [] => c
  | (first, last, step, image) :: rest =>
      if ((first <=? c) && (c <=? last) && ((c - first) mod step =? 0))%N
      then (image + (c - first))%N
      else lower_in rest c
  end.

(** The lower case of one character that is not a capital sigma;
    U+0130 is the one character with a lower case of two characters. *)
Definition to_lower_full (c : codepoint) : pystr :=
  if (c =? 0x130)%N then [0x69; 0x307]%N else [lower_in lower_runs c].

(** The characters with the property Case_Ignorable. *)
Definition case_ignorable_ranges : list (N * N) :=
  [ (0x27, 0x27); (0x2e, 0x2e); (0x3a, 0x3a); (0x5e, 0x5e); (0x60, 0x60);
    (0xa8, 0xa8); (0xad, 0xad); (0xaf, 0xaf); (0xb4, 0xb4); (0xb7, 0xb8);
    (0x2b0, 0x36f); (0x374, 0x375); (0x37a, 0x37a); (0x384, 0x385);
    (0x387, 0x387); (0x483, 0x489); (0x559, 0x559); (0x55f, 0x55f);
    (0x591, 0x5bd); (0x5bf, 0x5bf); (0x5c1, 0x5c2); (0x5c4, 0x5c5);
    (0x5c7, 0x5c7); (0x5f4, 0x5f4); (0x600, 0x605); (0x610, 0x61a);
    (0x61c, 0x61c); (0x640, 0x640); (0x64b, 0x65f); (0x670, 0x670);
    (0x6d6, 0x6dd); (0x6df, 0x6e8); (0x6ea, 0x6ed); (0x70f, 0x70f);
    (0x711, 0x711); (0x730, 0x74a); (0x7a6, 0x7b0); (0x7eb, 0x7f5);
    (0x7fa, 0x7fa); (0x7fd, 0x7fd); (0x816, 0x82d); (0x859, 0x85b);
    (0x888, 0x888); (0x890, 0x891); (0x898, 0x89f); (0x8c9, 0x902);
    (0x93a, 0x93a); (0x93c, 0x93c); (0x941, 0x948); (0x94d, 0x94d);
    (0x951, 0x957); (0x962, 0x963); (0x971, 0x971); (0x981, 0x981);
    (0x9bc, 0x9bc); (0x9c1, 0x9c4); (0x9cd, 0x9cd); (0x9e2, 0x9e3);
    (0x9fe, 0x9fe); (0xa01, 0xa02); (0xa3c, 0xa3c); (0xa41, 0xa42);
    (0xa47, 0xa48); (0xa4b, 0xa4d); (0xa51, 0xa51); (0xa70, 0xa71);
    (0xa75, 0xa75); (0xa81, 0xa82); (0xabc, 0xabc); (0xac1, 0xac5);
    (0xac7, 0xac8); (0xacd, 0xacd); (0xae2, 0xae3); (0xafa, 0xaff);
    (0xb01, 0xb01); (0xb3c, 0xb3c); (0xb3f, 0xb3f); (0xb41, 0xb44);
    (0xb4d, 0xb4d); (0xb55, 0xb56); (0xb62, 0xb63); (0xb82, 0xb82);
    (0xbc0, 0xbc0); (0xbcd, 0xbcd); (0xc00, 0xc00); (0xc04, 0xc04);
    (0xc3c, 0xc3c); (0xc3e, 0xc40); (0xc46, 0xc48); (0xc4a, 0xc4d);
    (0xc55, 0xc56); (0xc62, 0xc63); (0xc81, 0xc81); (0xcbc, 0xcbc);
    (0xcbf, 0xcbf); (0xcc6, 0xcc6); (0xccc, 0xccd); (0xce2, 0xce3);
    (0xd00, 0xd01); (0xd3b, 0xd3c); (0xd41, 0xd44); (0xd4d, 0xd4d);
    (0xd62, 0xd63); (0xd81, 0xd81); (0xdca, 0xdca); (0xdd2, 0xdd4);
    (0xdd6, 0xdd6); (0xe31, 0xe31); (0xe34, 0xe3a); (0xe46, 0xe4e);
    (0xeb1, 0xeb1); (0xeb4, 0xebc); (0xec6, 0xec6); (0xec8, 0xecd);
    (0xf18, 0xf19); (0xf35, 0xf35); (0xf37, 0xf37); (0xf39, 0xf39);
    (0xf71, 0xf7e); (0xf80, 0xf84); (0xf86, 0xf87); (0xf8d, 0xf97);
    (0xf99, 0xfbc); (0xfc6, 0xfc6); (0x102d, 0x1030); (0x1032, 0x1037);
    (0x1039, 0x103a); (0x103d, 0x103e); (0x1058, 0x1059); (0x105e, 0x1060);
    (0x1071, 0x1074); (0x1082, 0x1082); (0x1085, 0x1086); (0x108d, 0x108d);
    (0x109d, 0x109d); (0x10fc, 0x10fc); (0x135d, 0x135f); (0x1712, 0x1714);
    (0x1732, 0x1733); (0x1752, 0x1753); (0x1772, 0x1773); (0x17b4, 0x17b5);
    (0x17b7, 0x17bd); (0x17c6, 0x17c6); (0x17c9, 0x17d3); (0x17d7, 0x17d7);
    (0x17dd, 0x17dd); (0x180b, 0x180f); (0x1843, 0x1843); (0x1885, 0x1886);
    (0x18a9, 0x18a9); (0x1920, 0x1922); (0x1927, 0x1928); (0x1932, 0x1932);
    (0x1939, 0x193b); (0x1a17, 0x1a18); (0x1a1b, 0x1a1b); (0x1a56, 0x1a56);
    (0x1a58, 0x1a5e); (0x1a60, 0x1a60); (0x1a62, 0x1a62); (0x1a65, 0x1a6c);
    (0x1a73, 0x1a7c); (0x1a7f, 0x1a7f); (0x1aa7, 0x1aa7); (0x1ab0, 0x1ace);
    (0x1b00, 0x1b03); (0x1b34, 0x1b34); (0x1b36, 0x1b3a); (0x1b3c, 0x1b3c);
    (0x1b42, 0x1b42); (0x1b6b, 0x1b73); (0x1b80, 0x1b81); (0x1ba2, 0x1ba5);
    (0x1ba8, 0x1ba9); (0x1bab, 0x1bad); (0x1be6, 0x1be6); (0x1be8, 0x1be9);
    (0x1bed, 0x1bed); (0x1bef, 0x1bf1); (0x1c2c, 0x1c33); (0x1c36, 0x1c37);
    (0x1c78, 0x1c7d); (0x1cd0, 0x1cd2); (0x1cd4, 0x1ce0); (0x1ce2, 0x1ce8);
    (0x1ced, 0x1ced); (0x1cf4, 0x1cf4); (0x1cf8, 0x1cf9); (0x1d2c, 0x1d6a);
    (0x1d78, 0x1d78); (0x1d9b, 0x1dff); (0x1fbd, 0x1fbd); (0x1fbf, 0x1fc1);
    (0x1fcd, 0x1fcf); (0x1fdd, 0x1fdf); (0x1fed, 0x1fef); (0x1ffd, 0x1ffe);
    (0x200b, 0x200f); (0x2018, 0x2019); (0x2024, 0x2024); (0x2027, 0x2027);
    (0x202a, 0x202e); (0x2060, 0x2064); (0x2066, 0x206f); (0x2071, 0x2071);
    (0x207f, 0x207f); (0x2090, 0x209c); (0x20d0, 0x20f0); (0x2c7c, 0x2c7d);
    (0x2cef, 0x2cf1); (0x2d6f, 0x2d6f); (0x2d7f, 0x2d7f); (0x2de0, 0x2dff);
    (0x2e2f, 0x2e2f); (0x3005, 0x3005); (0x302a, 0x302d); (0x3031, 0x3035);
    (0x303b, 0x303b); (0x3099, 0x309e); (0x30fc, 0x30fe); (0xa015, 0xa015);
    (0xa4f8, 0xa4fd); (0xa60c, 0xa60c); (0xa66f, 0xa672); (0xa674, 0xa67d);
    (0xa67f, 0xa67f); (0xa69c, 0xa69f); (0xa6f0, 0xa6f1); (0xa700, 0xa721);
    (0xa770, 0xa770); (0xa788, 0xa78a); (0xa7f2, 0xa7f4); (0xa7f8, 0xa7f9);
    (0xa802, 0xa802); (0xa806, 0xa806); (0xa80b, 0xa80b); (0xa825, 0xa826);
    (0xa82c, 0xa82c); (0xa8c4, 0xa8c5); (0xa8e0, 0xa8f1); (0xa8ff, 0xa8ff);
    (0xa926, 0xa92d); (0xa947, 0xa951); (0xa980, 0xa982); (0xa9b3, 0xa9b3);
    (0xa9b6, 0xa9b9); (0xa9bc, 0xa9bd); (0xa9cf, 0xa9cf); (0xa9e5, 0xa9e6);
    (0xaa29, 0xaa2e); (0xaa31, 0xaa32); (0xaa35, 0xaa36); (0xaa43, 0xaa43);
    (0xaa4c, 0xaa4c); (0xaa70, 0xaa70); (0xaa7c, 0xaa7c); (0xaab0, 0xaab0);
    (0xaab2, 0xaab4); (0xaab7, 0xaab8); (0xaabe, 0xaabf); (0xaac1, 0xaac1);
    (0xaadd, 0xaadd); (0xaaec, 0xaaed); (0xaaf3, 0xaaf4); (0xaaf6, 0xaaf6);
    (0xab5b, 0xab5f); (0xab69, 0xab6b); (0xabe5, 0xabe5); (0xabe8, 0xabe8);
    (0xabed, 0xabed); (0xfb1e, 0xfb1e); (0xfbb2, 0xfbc2); (0xfe00, 0xfe0f);
    (0xfe13, 0xfe13); (0xfe20, 0xfe2f); (0xfe52, 0xfe52); (0xfe55, 0xfe55);
    (0xfeff, 0xfeff); (0xff07, 0xff07); (0xff0e, 0xff0e); (0xff1a, 0xff1a);
    (0xff3e, 0xff3e); (0xff40, 0xff40); (0xff70, 0xff70); (0xff9e, 0xff9f);
    (0xffe3, 0xffe3); (0xfff9, 0xfffb); (0x101fd, 0x101fd);
    (0x102e0, 0x102e0); (0x10376, 0x1037a); (0x10780, 0x10785);
    (0x10787, 0x107b0); (0x107b2, 0x107ba); (0x10a01, 0x10a03);
    (0x10a05, 0x10a06); (0x10a0c, 0x10a0f); (0x10a38, 0x10a3a);
    (0x10a3f, 0x10a3f); (0x10ae5, 0x10ae6); (0x10d24, 0x10d27);
    (0x10eab, 0x10eac); (0x10f46, 0x10f50); (0x10f82, 0x10f85);
    (0x11001, 0x11001); (0x11038, 0x11046); (0x11070, 0x11070);
    (0x11073, 0x11074); (0x1107f, 0x11081); (0x110b3, 0x110b6);
    (0x110b9, 0x110ba); (0x110bd, 0x110bd); (0x110c2, 0x110c2);
    (0x110cd, 0x110cd); (0x11100, 0x11102); (0x11127, 0x1112b);
    (0x1112d, 0x11134); (0x11173, 0x11173); (0x11180, 0x11181);
    (0x111b6, 0x111be); (0x111c9, 0x111cc); (0x111cf, 0x111cf);
    (0x1122f, 0x11231); (0x11234, 0x11234); (0x11236, 0x11237);
    (0x1123e, 0x1123e); (0x112df, 0x112df); (0x112e3, 0x112ea);
    (0x11300, 0x11301); (0x1133b, 0x1133c); (0x11340, 0x11340);
    (0x11366, 0x1136c); (0x11370, 0x11374); (0x11438, 0x1143f);
    (0x11442, 0x11444); (0x11446, 0x11446); (0x1145e, 0x1145e);
    (0x114b3, 0x114b8); (0x114ba, 0x114ba); (0x114bf, 0x114c0);
    (0x114c2, 0x114c3); (0x115b2, 0x115b5); (0x115bc, 0x115bd);
    (0x115bf, 0x115c0); (0x115dc, 0x115dd); (0x11633, 0x1163a);
    (0x1163d, 0x1163d); (0x1163f, 0x11640); (0x116ab, 0x116ab);
    (0x116ad, 0x116ad); (0x116b0, 0x116b5); (0x116b7, 0x116b7);
    (0x1171d, 0x1171f); (0x11722, 0x11725); (0x11727, 0x1172b);
    (0x1182f, 0x11837); (0x11839, 0x1183a); (0x1193b, 0x1193c);
    (0x1193e, 0x1193e); (0x11943, 0x11943); (0x119d4, 0x119d7);
    (0x119da, 0x119db); (0x119e0, 0x119e0); (0x11a01, 0x11a0a);
    (0x11a33, 0x11a38); (0x11a3b, 0x11a3e); (0x11a47, 0x11a47);
    (0x11a51, 0x11a56); (0x11a59, 0x11a5b); (0x11a8a, 0x11a96);
    (0x11a98, 0x11a99); (0x11c30, 0x11c36); (0x11c38, 0x11c3d);
    (0x11c3f, 0x11c3f); (0x11c92, 0x11ca7); (0x11caa, 0x11cb0);
    (0x11cb2, 0x11cb3); (0x11cb5, 0x11cb6); (0x11d31, 0x11d36);
    (0x11d3a, 0x11d3a); (0x11d3c, 0x11d3d); (0x11d3f, 0x11d45);
    (0x11d47, 0x11d47); (0x11d90, 0x11d91); (0x11d95, 0x11d95);
    (0x11d97, 0x11d97); (0x11ef3, 0x11ef4); (0x13430, 0x13438);
    (0x16af0, 0x16af4); (0x16b30, 0x16b36); (0x16b40, 0x16b43);
    (0x16f4f, 0x16f4f); (0x16f8f, 0x16f9f); (0x16fe0, 0x16fe1);
    (0x16fe3, 0x16fe4); (0x1aff0, 0x1aff3); (0x1aff5, 0x1affb);
    (0x1affd, 0x1affe); (0x1bc9d, 0x1bc9e); (0x1bca0, 0x1bca3);
    (0x1cf00, 0x1cf2d); (0x1cf30, 0x1cf46); (0x1d167, 0x1d169);
    (0x1d173, 0x1d182); (0x1d185, 0x1d18b); (0x1d1aa, 0x1d1ad);
    (0x1d242, 0x1d244); (0x1da00, 0x1da36); (0x1da3b, 0x1da6c);
    (0x1da75, 0x1da75); (0x1da84, 0x1da84); (0x1da9b, 0x1da9f);
    (0x1daa1, 0x1daaf); (0x1e000, 0x1e006); (0x1e008, 0x1e018);
    (0x1e01b, 0x1e021); (0x1e023, 0x1e024); (0x1e026, 0x1e02a);
    (0x1e130, 0x1e13d); (0x1e2ae, 0x1e2ae); (0x1e2ec, 0x1e2ef);
    (0x1e8d0, 0x1e8d6); (0x1e944, 0x1e94b); (0x1f3fb, 0x1f3ff);
    (0xe0001, 0xe0001); (0xe0020, 0xe007f); (0xe0100, 0xe01ef) ]%N.

(** The characters with the property Cased, those that are Case_Ignorable
    left out: the test for Cased is made on a character that is not
    Case_Ignorable only. *)
Definition cased_ranges : list (N * N) :=
  [ (0x41, 0x5a); (0x61, 0x7a); (0xaa, 0xaa); (0xb5, 0xb5); (0xba, 0xba);
    (0xc0, 0xd6); (0xd8, 0xf6); (0xf8, 0x1ba); (0x1bc, 0x1bf);
    (0x1c4, 0x293); (0x295, 0x2af); (0x370, 0x373); (0x376, 0x377);
    (0x37b, 0x37d); (0x37f, 0x37f); (0x386, 0x386); (0x388, 0x38a);
    (0x38c, 0x38c); (0x38e, 0x3a1); (0x3a3, 0x3f5); (0x3f7, 0x481);
    (0x48a, 0x52f); (0x531, 0x556); (0x560, 0x588); (0x10a0, 0x10c5);
    (0x10c7, 0x10c7); (0x10cd, 0x10cd); (0x10d0, 0x10fa); (0x10fd, 0x10ff);
    (0x13a0, 0x13f5); (0x13f8, 0x13fd); (0x1c80, 0x1c88); (0x1c90, 0x1cba);
    (0x1cbd, 0x1cbf); (0x1d00, 0x1d2b); (0x1d6b, 0x1d77); (0x1d79, 0x1d9a);
    (0x1e00, 0x1f15); (0x1f18, 0x1f1d); (0x1f20, 0x1f45); (0x1f48, 0x1f4d);
    (0x1f50, 0x1f57); (0x1f59, 0x1f59); (0x1f5b, 0x1f5b); (0x1f5d, 0x1f5d);
    (0x1f5f, 0x1f7d); (0x1f80, 0x1fb4); (0x1fb6, 0x1fbc); (0x1fbe, 0x1fbe);
    (0x1fc2, 0x1fc4); (0x1fc6, 0x1fcc); (0x1fd0, 0x1fd3); (0x1fd6, 0x1fdb);
    (0x1fe0, 0x1fec); (0x1ff2, 0x1ff4); (0x1ff6, 0x1ffc); (0x2102, 0x2102);
    (0x2107, 0x2107); (0x210a, 0x2113); (0x2115, 0x2115); (0x2119, 0x211d);
    (0x2124, 0x2124); (0x2126, 0x2126); (0x2128, 0x2128); (0x212a, 0x212d);
    (0x212f, 0x2134); (0x2139, 0x2139); (0x213c, 0x213f); (0x2145, 0x2149);
    (0x214e, 0x214e); (0x2160, 0x217f); (0x2183, 0x2184); (0x24b6, 0x24e9);
    (0x2c00, 0x2c7b); (0x2c7e, 0x2ce4); (0x2ceb, 0x2cee); (0x2cf2, 0x2cf3);
    (0x2d00, 0x2d25); (0x2d27, 0x2d27); (0x2d2d, 0x2d2d); (0xa640, 0xa66d);
    (0xa680, 0xa69b); (0xa722, 0xa76f); (0xa771, 0xa787); (0xa78b, 0xa78e);
    (0xa790, 0xa7ca); (0xa7d0, 0xa7d1); (0xa7d3, 0xa7d3); (0xa7d5, 0xa7d9);
    (0xa7f5, 0xa7f6); (0xa7fa, 0xa7fa); (0xab30, 0xab5a); (0xab60, 0xab68);
    (0xab70, 0xabbf); (0xfb00, 0xfb06); (0xfb13, 0xfb17); (0xff21, 0xff3a);
    (0xff41, 0xff5a); (0x10400, 0x1044f); (0x104b0, 0x104d3);
    (0x104d8, 0x104fb); (0x10570, 0x1057a); (0x1057c, 0x1058a);
    (0x1058c, 0x10592); (0x10594, 0x10595); (0x10597, 0x105a1);
    (0x105a3, 0x105b1); (0x105b3, 0x105b9); (0x105bb, 0x105bc);
    (0x10c80, 0x10cb2); (0x10cc0, 0x10cf2); (0x118a0, 0x118df);
    (0x16e40, 0x16e7f); (0x1d400, 0x1d454); (0x1d456, 0x1d49c);
    (0x1d49e, 0x1d49f); (0x1d4a2, 0x1d4a2); (0x1d4a5, 0x1d4a6);
    (0x1d4a9, 0x1d4ac); (0x1d4ae, 0x1d4b9); (0x1d4bb, 0x1d4bb);
    (0x1d4bd, 0x1d4c3); (0x1d4c5, 0x1d505); (0x1d507, 0x1d50a);
    (0x1d50d, 0x1d514); (0x1d516, 0x1d51c); (0x1d51e, 0x1d539);
    (0x1d53b, 0x1d53e); (0x1d540, 0x1d544); (0x1d546, 0x1d546);
    (0x1d54a, 0x1d550); (0x1d552, 0x1d6a5); (0x1d6a8, 0x1d6c0);
    (0x1d6c2, 0x1d6da); (0x1d6dc, 0x1d6fa); (0x1d6fc, 0x1d714);
    (0x1d716, 0x1d734); (0x1d736, 0x1d74e); (0x1d750, 0x1d76e);
    (0x1d770, 0x1d788); (0x1d78a, 0x1d7a8); (0x1d7aa, 0x1d7c2);
    (0x1d7c4, 0x1d7cb); (0x1df00, 0x1df09); (0x1df0b, 0x1df1e);
    (0x1e900, 0x1e943); (0x1f130, 0x1f149); (0x1f150, 0x1f169);
    (0x1f170, 0x1f189) ]%N.

(** The first character that is not Case_Ignorable. *)
Fixpoint skip_case_ignorable (s : pystr) : option codepoint :=
  match s with
  | [] => None
  | c :: rest =>
      if in_ranges case_ignorable_ranges c then skip_case_ignorable rest
      else Some c
  end.

(** The lower case of U+03A3: the final sigma U+03C2 when a cased letter
    comes before it and none comes after it, Case_Ignorable characters
    being passed over; U+03C3 otherwise.  [before] is the text before the
    character, last character first. *)
Definition handle_capital_sigma (before after : pystr) : codepoint :=
  let final_sigma :=
    match skip_case_ignorable before with
    | Some c => in_ranges cased_ranges c
    | None => false
    end
    && match skip_case_ignorable after with
       | Some c => negb (in_ranges cased_ranges c)
       | None => true
       end in
  if final_sigma then 0x3c2%N else 0x3c3%N.

Fixpoint lower_loop (before s : pystr) : pystr :=
  match s with
  | [] => []
  | c :: rest =>
      (if (c =? 0x3a3)%N then [handle_capital_sigma before rest]
       else to_lower_full c)
      ++ lower_loop (c :: before) rest
  end.

(** [s.lower()] *)
Definition lower (s : pystr) : pystr := lower_loop [] s.

(** ** [parse_input] *)

(** What a function without state returns under [input_error]: its own
    result, or the message that stands for the exception. *)
Inductive answer (A : Type) : Type :=
  | Returned (v : A)
  | Message (text : pystr).
Arguments Returned {A} v.
Arguments Message {A} text.

(** [input_error] around a function that does not touch the book. *)
Definition input_error_pure {A} (r : result A) : result (answer A) :=
  match r with
  | Ok v => Ok (Returned v)
  | Raise (ValueError _) => Ok (Message (lit "Provide correct data."))
  | Raise IndexError => Ok (Message (lit "Not enough arguments."))
  | Raise KeyError => Ok (Message (lit "Contact not found."))
  | Raise AttributeError => Ok (Message (lit "Contact not found."))
  | Raise e => Raise e
  end.

(** [parse_input]: the tuple [(cmd, *args)]. *)
Definition parse_input (user_input : pystr) : result (answer (list pystr)) :=
  input_error_pure
    match split user_input with
    | cmd :: args => Ok (lower (strip cmd) :: args)
    | [] => Raise (ValueError Unpack)
    end.

(** ** [main] *)

(** [command, *args = parse_input(user_input)]: a tuple gives its items,
    a string gives its characters, each a string of length one. *)
Definition unpack_command (parsed : answer (list pystr))
  : result (pystr * list pystr) :=
  match parsed with
  | Returned (command :: args) => Ok (command, args)
  | Message (c :: text) => Ok ([c], List.map (fun x => [x]) text)
  | _ => Raise (ValueError Unpack)
  end.

(** What the program does to the outside: the prompt of [input], a line
    printed, the book written to the file by [save_data]. *)
Inductive event : Type :=
  | Prompt (text : pystr)
  | Print (text : pystr)
  | Dump (book : state).

(** How a run ends: by [break], by [EOFError] of [input] when there is no
    line left, or by an exception that nothing catches. *)
Inductive ending : Type :=
  | Finished
  | End_of_input
  | Uncaught (e : exn).

(** One turn of the loop either goes on with the book or ends the run. *)
Inductive turn : Type :=
  | Goes_on (printed : list event) (book : state)
  | Ends (printed : list event) (e : ending).

(** [print(handler(args, book))] *)
Definition print_answer (handler : list pystr -> M pystr) (args : list pystr)
    (book : state) : turn :=
  match handler args book with
  | (Ok text, book') => Goes_on [Print text] book'
  | (Raise e, _) => Ends [] (Uncaught e)
  end.

(** [x in l] for a list of strings. *)
Definition in_list (x : pystr) (l : list pystr) : bool :=
  existsb (pystr_eqb x) l.

(** [save_data]: the book, with the objects it holds, is pickled into
    the file. *)
Definition save_data (book : state) : list event := [Dump book].

(** [load_data]: [file] is [None] when there is no file
    ([FileNotFoundError], which the function catches); otherwise it is the
    book that [pickle] wrote there, which [pickle.load] gives back with
    its objects as they were. *)
Definition load_data (file : option state) : state :=
  match file with
  | Some book => book
  | None => empty_book
  end.

(** The body of the loop of [main] after [input] has returned
    [user_input]; [today] is what [date.today()] returns meanwhile. *)
Definition loop_body (today : date) (user_input : pystr) (book : state)
  : turn :=
  match parse_input user_input with
  | Raise e => Ends [] (Uncaught e)
  | Ok parsed =>
      match unpack_command parsed with
      | Raise e => Ends [] (Uncaught e)
      | Ok (command, args) =>
          if in_list command [lit "close"; lit "exit"]
          then Ends (save_data book ++ [Print (lit "Good bye!")]) Finished
          else if pystr_eqb command (lit "hello")
          then Goes_on [Print (lit "How can I help you?")] book
          else if pystr_eqb command (lit "add")
          then print_answer add_contact args book
          else if pystr_eqb command (lit "change")
          then print_answer change_contact args book
          else if pystr_eqb command (lit "phone")
          then print_answer show_phone args book
          else if pystr_eqb command (lit "all")
          then print_answer show_all_contacts args book
          else if pystr_eqb command (lit "add-birthday")
          then print_answer add_birthday args book
          else if pystr_eqb command (lit "show-birthday")
          then print_answer show_birthday args book
          else if pystr_eqb command (lit "birthdays")
          then print_answer (birthdays today) args book
          else Goes_on [Print (lit "Invalid command.")] book
      end
  end.

(** The loop of [main] on the lines that [input] will return, each with
    the date of the day on which it is read. *)
Fixpoint main_loop (inputs : list (date * pystr)) (book : state)
  : list event * ending :=
  match inputs with
  | [] => ([Prompt (lit "Enter a command: ")], End_of_input)
  | (today, user_input) :: rest =>
      match loop_body today user_input book with
      | Goes_on printed book' =>
          let '(events, e) := main_loop rest book' in
          (Prompt (lit "Enter a command: ") :: printed ++ events, e)
      | Ends printed e => (Prompt (lit "Enter a command: ") :: printed, e)
      end
  end.

(** [main]; [file] is what the file of the book holds when the program
    starts. *)
Definition main (file : option state) (inputs : list (date * pystr))
  : list event * ending :=
  let book := load_data file in
  let '(events, e) := main_loop inputs book in
  (Print (lit "Welcome to the assistant bot!") :: events, e).

(** ** Notions used in the further properties *)


(** The line of a record in the listing of the book. *)
Definition listing_line (o : ContactRecord) (vs : list pystr) : pystr :=
  lit "Name: " ++ value (name o) ++ lit ", Phones: " ++ join (lit "; ") vs
  ++ lit ", Birthday: "
  ++ match birthday o with Some b => value b | None => lit "N/A" end.

(** The end of a line. *)
Definition newline : pystr := lit (String "010" EmptyString).

(** ** Notions for the command line *)

(** A text of white space only. *)
Definition blank (s : pystr) : Prop :=
  Forall (fun c => char_isspace c = true) s.

(** A word: not empty and without white space. *)
Definition word (t : pystr) : Prop :=
  t <> [] /\ Forall (fun c => char_isspace c = false) t.

(** The text without its white space. *)
Definition without_spaces (s : pystr) : pystr :=
  List.filter (fun c => negb (char_isspace c)) s.

(** The words that [main] takes as commands. *)
Definition command_words : list pystr :=
  [lit "close"; lit "exit"; lit "hello"; lit "add"; lit "change";
   lit "phone"; lit "all"; lit "add-birthday"; lit "show-birthday";
   lit "birthdays"].

(** [t] is [w] but for capital letters A..Z in the place of small ones. *)
Definition spelling_of (w t : pystr) : Prop :=
  Forall2 (fun x c => c = x \/ ((0x41 <= c <= 0x5a)%N /\ x = (c + 32)%N)) w t.

(** The small letter for a capital A..Z, the character itself otherwise. *)
Definition ascii_lower (c : codepoint) : codepoint :=
  if ((0x41 <=? c) && (c <=? 0x5a))%N then (c + 32)%N else c.

(** The line makes [main] leave its loop: its command is close or exit. *)
Definition exit_line (user_input : pystr) : bool :=
  match parse_input user_input with
  | Ok parsed =>
      match unpack_command parsed with
      | Ok (command, _) => in_list command [lit "close"; lit "exit"]
      | Raise _ => false
      end
  | Raise _ => false
  end.


(** The books that the events write to the file are well formed. *)
Definition dumps_wf (events : list event) : Prop :=
  forall book, In (Dump book) events -> wf book.

(** Every [Phone] object holds a number that [Phone] accepts. *)
Definition phones_valid (s : state) : Prop :=
  Forall (fun x => ten_digits (value x)) (phone_objects s).

(** Every record of the book is filed under its own name. *)
Definition keys_are_names (s : state) : Prop :=
  forall k r o, In (k, r) (data s) -> objects s !! r = Some o ->
                value (name o) = k.

(** * Properties *)

(** ** Calendar arithmetic *)

Ltac months m :=
  let H := fresh in
  assert (H : m = 1 \/ m = 2 \/ m = 3 \/ m = 4 \/ m = 5 \/ m = 6 \/ m = 7
              \/ m = 8 \/ m = 9 \/ m = 10 \/ m = 11 \/ m = 12) by lia;
  repeat (destruct H as [H | H]); subst m.

Lemma is_leap_true y :
  is_leap y = true <-> y mod 4 = 0 /\ (y mod 100 <> 0 \/ y mod 400 = 0).
Proof.
  unfold is_leap.
  rewrite andb_true_iff, orb_true_iff, negb_true_iff, !Z.eqb_eq, Z.eqb_neq.
  tauto.
Qed.

Lemma days_before_year_succ y :
  days_before_year (y + 1)
  = days_before_year y + 365 + int_of_bool (is_leap y).
Proof.
  unfold days_before_year, int_of_bool.
  destruct (is_leap y) eqn:L.
  - apply is_leap_true in L. Z.div_mod_to_equations. lia.
  - assert (N : ~ (y mod 4 = 0 /\ (y mod 100 <> 0 \/ y mod 400 = 0))).
    { rewrite <- is_leap_true. congruence. }
    Z.div_mod_to_equations. lia.
Qed.

Lemma days_before_year_mono y y' :
  y <= y' -> days_before_year y + 365 * (y' - y) <= days_before_year y'.
Proof.
  intros H. unfold days_before_year. Z.div_mod_to_equations. lia.
Qed.

Lemma in_year_all leapyear n :
  0 <= n < 365 + int_of_bool leapyear -> in_year_ok leapyear n = true.
Proof.
  intros H.
  assert (A : forallb (fun k => in_year_ok true (Z.of_nat k)
                                && ((Z.of_nat k =? 365)
                                    || in_year_ok false (Z.of_nat k)))
                      (seq 0 366) = true) by (vm_compute; reflexivity).
  rewrite forallb_forall in A.
  assert (B : 0 <= n < 366) by (destruct leapyear; simpl in H; lia).
  specialize (A (Z.to_nat n)).
  rewrite Z2Nat.id in A by lia.
  assert (I : In (Z.to_nat n) (seq 0 366)) by (apply in_seq; lia).
  apply A in I. apply andb_true_iff in I. destruct I as [I1 I2].
  destruct leapyear; [exact I1|].
  apply orb_true_iff in I2. destruct I2 as [I2|I2]; [|exact I2].
  apply Z.eqb_eq in I2. simpl in H. lia.
Qed.

Lemma in_year_spec y n :
  0 <= n < 365 + int_of_bool (is_leap y) ->
  let '(m, d) := in_year (is_leap y) n in
  1 <= m <= 12 /\ 1 <= d <= days_in_month y m
  /\ days_before_month y m + d = n + 1.
Proof.
  intros H. pose proof (in_year_all _ _ H) as A.
  unfold in_year_ok in A. destruct (in_year (is_leap y) n) as [m d].
  unfold days_in_month, days_before_month.
  rewrite !andb_true_iff, !Z.leb_le, Z.eqb_eq in A. lia.
Qed.

Lemma days_in_december y : days_in_month y 12 = 31.
Proof. reflexivity. Qed.

Lemma days_before_december y :
  days_before_month y 12 = 334 + int_of_bool (is_leap y).
Proof. reflexivity. Qed.

Lemma cycles_spec n0 :
  0 <= n0 <= 3652058 ->
  let n400 := n0 / 146097 in let r400 := n0 mod 146097 in
  let n100 := r400 / 36524 in let r100 := r400 mod 36524 in
  let n4 := r100 / 1461 in let r4 := r100 mod 1461 in
  let n1 := r4 / 365 in let r1 := r4 mod 365 in
  n0 = n400 * 146097 + n100 * 36524 + n4 * 1461 + n1 * 365 + r1
  /\ 0 <= n400 /\ 0 <= n100 <= 4 /\ 0 <= n4 <= 24
  /\ 0 <= n1 <= 4 /\ 0 <= r1 < 365
  /\ (n100 = 4 -> n4 = 0 /\ n1 = 0 /\ r1 = 0)
  /\ (n1 = 4 -> r1 = 0 /\ n4 <= 23).
Proof.
  intros H n400 r400 n100 r100 n4 r4 n1 r1.
  subst n400 r400 n100 r100 n4 r4 n1 r1.
  Z.div_mod_to_equations.
  repeat split; lia.
Qed.

Lemma ord2ymd_spec n :
  1 <= n <= MAXORDINAL ->
  let '(y, m, d) := ord2ymd n in
  MINYEAR <= y <= MAXYEAR /\ 1 <= m <= 12 /\ 1 <= d <= days_in_month y m
  /\ ymd2ord y m d = n.
Proof.
  intros Hn. unfold ord2ymd. cbv zeta.
  set (n0 := n - 1).
  set (n400 := n0 / DI400Y). set (r400 := n0 mod DI400Y).
  set (n100 := r400 / DI100Y). set (r100 := r400 mod DI100Y).
  set (n4 := r100 / DI4Y). set (r4 := r100 mod DI4Y).
  set (n1 := r4 / 365). set (r1 := r4 mod 365).
  set (y := n400 * 400 + 1 + (n100 * 100 + n4 * 4 + n1)).
  assert (E : n0 = n400 * DI400Y + n100 * DI100Y + n4 * DI4Y + n1 * 365 + r1
              /\ 0 <= n400 /\ 0 <= n100 <= 4 /\ 0 <= n4 <= 24
              /\ 0 <= n1 <= 4 /\ 0 <= r1 < 365
              /\ (n100 = 4 -> n4 = 0 /\ n1 = 0 /\ r1 = 0)
              /\ (n1 = 4 -> r1 = 0 /\ n4 <= 23)).
  { apply (cycles_spec n0). unfold n0, MAXORDINAL in *. lia. }
  assert (En : n = n0 + 1 /\ 0 <= n0 <= 3652058).
  { unfold n0, MAXORDINAL in *. lia. }
  clearbody n0 n400 r400 n100 r100 n4 r4 n1 r1.
  destruct E as (E0 & B400 & B100 & B4 & B1 & Br & S100 & S1).
  destruct En as [-> Bn]. clear Hn.
  unfold DI400Y, DI100Y, DI4Y in *.
  destruct ((n1 =? 4) || (n100 =? 4)) eqn:Sp.
  - (* the last day of a four-year or four-century cycle *)
    assert (L : is_leap (y - 1) = true).
    { apply is_leap_true. unfold y.
      apply orb_true_iff in Sp. rewrite !Z.eqb_eq in Sp.
      Z.div_mod_to_equations. lia. }
    unfold ymd2ord. rewrite days_in_december, days_before_december, L.
    unfold days_before_year, MINYEAR, MAXYEAR, int_of_bool.
    apply orb_true_iff in Sp. rewrite !Z.eqb_eq in Sp.
    unfold y in *. Z.div_mod_to_equations. lia.
  - apply orb_false_iff in Sp. rewrite !Z.eqb_neq in Sp.
    assert (L : (n1 =? 3) && (negb (n4 =? 24) || (n100 =? 3)) = is_leap y).
    { destruct (is_leap y) eqn:L.
      - apply is_leap_true in L.
        rewrite andb_true_iff, orb_true_iff, negb_true_iff, !Z.eqb_eq,
          Z.eqb_neq.
        unfold y in L. Z.div_mod_to_equations. lia.
      - apply not_true_iff_false. intros T.
        apply not_true_iff_false in L. apply L. apply is_leap_true.
        rewrite andb_true_iff, orb_true_iff, negb_true_iff, !Z.eqb_eq,
          Z.eqb_neq in T.
        unfold y. Z.div_mod_to_equations. lia. }
    rewrite L.
    pose proof (in_year_spec y r1) as IY. unfold in_year in IY. cbv zeta in IY.
    assert (R : 0 <= r1 < 365 + int_of_bool (is_leap y)).
    { destruct (is_leap y); simpl; lia. }
    specialize (IY R).
    match goal with
    | |- context [if ?c then _ else _] => destruct c
    end;
    destruct IY as (Im & Id & Io);
    (split; [|split; [exact Im|split; [exact Id|]]]);
    unfold ymd2ord; try rewrite Io;
    unfold days_before_year, MINYEAR, MAXYEAR, y in *;
    Z.div_mod_to_equations; lia.
Qed.

Lemma date_new_ok y m d :
  MINYEAR <= y <= MAXYEAR -> 1 <= m <= 12 -> 1 <= d <= days_in_month y m ->
  date_new y m d = Ok (mkDate y m d).
Proof.
  intros Hy Hm Hd. unfold date_new.
  replace ((MINYEAR <=? y) && (y <=? MAXYEAR)) with true
    by (symmetry; apply andb_true_iff; split; apply Z.leb_le; lia).
  replace ((1 <=? m) && (m <=? 12)) with true
    by (symmetry; apply andb_true_iff; split; apply Z.leb_le; lia).
  replace ((1 <=? d) && (d <=? days_in_month y m)) with true
    by (symmetry; apply andb_true_iff; split; apply Z.leb_le; lia).
  reflexivity.
Qed.

Lemma date_new_inv y m d r :
  date_new y m d = Ok r -> r = mkDate y m d /\ valid_date r.
Proof.
  unfold date_new, valid_date. intros H.
  destruct ((MINYEAR <=? y) && (y <=? MAXYEAR)) eqn:Hy; [|discriminate].
  destruct ((1 <=? m) && (m <=? 12)) eqn:Hm; [|discriminate].
  destruct ((1 <=? d) && (d <=? days_in_month y m)) eqn:Hd; [|discriminate].
  simpl in H. injection H as <-. simpl.
  rewrite andb_true_iff, !Z.leb_le in Hy, Hm, Hd. tauto.
Qed.

Lemma date_new_raises y m d :
  ~ (MINYEAR <= y <= MAXYEAR /\ 1 <= m <= 12 /\ 1 <= d <= days_in_month y m) ->
  date_new y m d = Raise (ValueError DateRange).
Proof.
  intros H. unfold date_new.
  destruct ((MINYEAR <=? y) && (y <=? MAXYEAR)) eqn:Hy; [|reflexivity].
  destruct ((1 <=? m) && (m <=? 12)) eqn:Hm; [|reflexivity].
  destruct ((1 <=? d) && (d <=? days_in_month y m)) eqn:Hd; [|reflexivity].
  rewrite andb_true_iff, !Z.leb_le in Hy, Hm, Hd. tauto.
Qed.

Lemma fromordinal_ok n :
  1 <= n <= MAXORDINAL ->
  exists d, fromordinal n = Ok d /\ valid_date d /\ toordinal d = n.
Proof.
  intros H. pose proof (ord2ymd_spec n H) as S.
  unfold fromordinal. destruct (ord2ymd n) as [[y m] d].
  destruct S as (Hy & Hm & Hd & Ho).
  exists (mkDate y m d). rewrite date_new_ok by assumption.
  repeat split; simpl; try lia. exact Ho.
Qed.

(** Facts about the month tables, by enumeration of the months. *)
Lemma month_tables y m :
  1 <= m <= 12 ->
  0 <= days_before_month y m
  /\ 28 <= days_in_month y m <= 31
  /\ days_before_month y m + days_in_month y m
     = (if m =? 12 then 365 + int_of_bool (is_leap y)
        else days_before_month y (m + 1)).
Proof.
  intros H. unfold days_before_month, days_in_month.
  months m; destruct (is_leap y); vm_compute; repeat split; congruence.
Qed.

Lemma days_before_month_mono y m m' :
  1 <= m -> m < m' -> m' <= 12 ->
  days_before_month y m + days_in_month y m <= days_before_month y m'.
Proof.
  intros H1 H2 H3. unfold days_before_month, days_in_month.
  months m; months m'; try lia; destruct (is_leap y); vm_compute; congruence.
Qed.

Lemma toordinal_bounds d :
  valid_date d -> 1 <= toordinal d <= MAXORDINAL.
Proof.
  intros (Hy & Hm & Hd). unfold toordinal, ymd2ord.
  destruct (month_tables (year d) (month d) Hm) as (B0 & _ & B2).
  assert (T : days_before_month (year d) (month d) + day d
              <= 365 + int_of_bool (is_leap (year d))).
  { destruct (month d =? 12) eqn:E.
    - lia.
    - apply Z.eqb_neq in E.
      assert (M : 1 <= month d + 1 <= 12) by lia.
      destruct (month_tables (year d) (month d + 1) M) as (_ & _ & B3).
      pose proof (days_before_month_mono (year d) (month d) 12) as Mo.
      rewrite days_before_december in Mo. lia. }
  pose proof (days_before_year_succ (year d)) as S.
  pose proof (days_before_year_mono 1 (year d)) as M1.
  pose proof (days_before_year_mono (year d + 1) 10000) as M2.
  change (days_before_year 1) with 0 in M1.
  change (days_before_year 10000) with 3652059 in M2.
  unfold MINYEAR, MAXYEAR, MAXORDINAL in *. lia.
Qed.

Lemma date_lt_true a b :
  date_lt a b = true
  <-> year a < year b
      \/ (year a = year b
          /\ (month a < month b \/ (month a = month b /\ day a < day b))).
Proof.
  unfold date_lt.
  destruct (Z.ltb_spec (year a) (year b)), (Z.eqb_spec (year a) (year b)),
    (Z.ltb_spec (month a) (month b)), (Z.eqb_spec (month a) (month b)),
    (Z.ltb_spec (day a) (day b)); simpl; split; intros;
    first [reflexivity | discriminate | lia].
Qed.

Lemma date_lt_ordinal_1 a b :
  valid_date a -> valid_date b ->
  date_lt a b = true -> toordinal a < toordinal b.
Proof.
  intros (Hya & Hma & Hda) (Hyb & Hmb & Hdb) H.
  apply date_lt_true in H.
  unfold toordinal, ymd2ord.
  destruct (month_tables (year a) (month a) Hma) as (A0 & _ & A2).
  destruct (month_tables (year b) (month b) Hmb) as (B0 & _ & _).
  destruct H as [Hy | [Ey [Hm | [Em Hd]]]].
  - assert (T : days_before_month (year a) (month a) + day a
                <= 365 + int_of_bool (is_leap (year a))).
    { destruct (month a =? 12) eqn:E.
      - lia.
      - apply Z.eqb_neq in E.
        pose proof (days_before_month_mono (year a) (month a) 12) as Mo.
        rewrite days_before_december in Mo. lia. }
    pose proof (days_before_year_succ (year a)) as S.
    pose proof (days_before_year_mono (year a + 1) (year b)) as M2.
    lia.
  - rewrite Ey in *.
    pose proof (days_before_month_mono (year b) (month a) (month b)). lia.
  - rewrite Ey, Em. lia.
Qed.

Lemma date_lt_ordinal a b :
  valid_date a -> valid_date b ->
  date_lt a b = (toordinal a <? toordinal b).
Proof.
  intros Ha Hb. destruct (date_lt a b) eqn:L.
  - symmetry. apply Z.ltb_lt. apply date_lt_ordinal_1; assumption.
  - symmetry. apply Z.ltb_ge.
    destruct (date_lt b a) eqn:L'.
    + apply date_lt_ordinal_1 in L'; try assumption. lia.
    + assert (E : year a = year b /\ month a = month b /\ day a = day b).
      { apply not_true_iff_false in L, L'.
        rewrite date_lt_true in L, L'. lia. }
      destruct a, b. simpl in E. destruct E as (-> & -> & ->). lia.
Qed.

Lemma date_add_ok d n :
  valid_date d -> 1 <= toordinal d + n <= MAXORDINAL ->
  exists d', date_add d n = Ok d' /\ valid_date d'
             /\ toordinal d' = toordinal d + n.
Proof.
  intros Hd Hn. unfold date_add.
  replace ((0 <? toordinal d + n) && (toordinal d + n <=? MAXORDINAL)) with true.
  - apply fromordinal_ok. exact Hn.
  - symmetry. apply andb_true_iff. split; [apply Z.ltb_lt|apply Z.leb_le]; lia.
Qed.

(** A Saturday or Sunday is never among the last days the calendar can
    represent: 31.12.9999 is a Friday. *)
Lemma weekend_not_last d :
  valid_date d -> 5 <= weekday d -> toordinal d + 2 <= MAXORDINAL.
Proof.
  intros Hd Hw. pose proof (toordinal_bounds d Hd) as B.
  unfold weekday, MAXORDINAL in *. Z.div_mod_to_equations. lia.
Qed.

Lemma adjust_for_weekend_spec d :
  valid_date d ->
  exists d', adjust_for_weekend d = Ok d' /\ valid_date d'
    /\ toordinal d' = toordinal d
                      + (if weekday d =? 5 then 2
                         else if weekday d =? 6 then 1 else 0).
Proof.
  intros Hd. unfold adjust_for_weekend.
  pose proof (toordinal_bounds d Hd) as B.
  destruct (weekday d =? 5) eqn:E5; [|destruct (weekday d =? 6) eqn:E6].
  - apply Z.eqb_eq in E5. apply date_add_ok; [assumption|].
    pose proof (weekend_not_last d Hd). lia.
  - apply Z.eqb_eq in E6. apply date_add_ok; [assumption|].
    pose proof (weekend_not_last d Hd). lia.
  - exists d. repeat split; try apply Hd. lia.
Qed.

Lemma toordinal_inj a b :
  valid_date a -> valid_date b -> toordinal a = toordinal b -> a = b.
Proof.
  intros Ha Hb E.
  pose proof (date_lt_ordinal a b Ha Hb) as L1.
  pose proof (date_lt_ordinal b a Hb Ha) as L2.
  rewrite E in L1. rewrite E in L2. rewrite Z.ltb_irrefl in L1, L2.
  apply not_true_iff_false in L1, L2. rewrite date_lt_true in L1, L2.
  destruct a, b. simpl in *. f_equal; lia.
Qed.

Lemma replace_year_inv d y r :
  replace_year d y = Ok r -> r = mkDate y (month d) (day d) /\ valid_date r.
Proof. apply date_new_inv. Qed.

Lemma replace_year_raises d y e :
  replace_year d y = Raise e -> e = ValueError DateRange.
Proof.
  unfold replace_year, date_new. intros H.
  repeat match type of H with
         | (if ?c then _ else _) = _ => destruct c
         end; inversion H; reflexivity.
Qed.

Lemma adjust_for_weekend_shift d :
  valid_date d ->
  exists d', adjust_for_weekend d = Ok d' /\ valid_date d'
             /\ toordinal d' = toordinal d + weekend_shift d.
Proof. apply adjust_for_weekend_spec. Qed.

(** ** The format ["%d.%m.%Y"] *)

Lemma rmatch_spec r : forall s t rest,
  In (t, rest) (rmatch r s) <-> matches r t /\ s = t ++ rest.
Proof.
  induction r as [c | lo hi | | r1 IH1 r2 IH2 | r1 IH1 r2 IH2];
    intros s t rest; simpl.
  - destruct s as [|x s']; [split; [intros []|intros [H E]; inversion H; subst; discriminate]|].
    unfold codepoint_eqb. destruct (N.eqb_spec x c) as [->|Hne]; simpl.
    + split.
      * intros [E|[]]. inversion E; subst. split; [constructor|reflexivity].
      * intros [H E]. inversion H; subst. inversion E; subst. left. reflexivity.
    + split; [intros []|]. intros [H E]. inversion H; subst. inversion E; subst.
      congruence.
  - destruct s as [|x s']; [split; [intros []|intros [H E]; inversion H; subst; discriminate]|].
    destruct ((lo <=? x)%N && (x <=? hi)%N) eqn:B; simpl.
    + apply andb_true_iff in B. rewrite !N.leb_le in B. split.
      * intros [E|[]]. inversion E; subst. split; [constructor; lia|reflexivity].
      * intros [H E]. inversion H; subst. inversion E; subst. left. reflexivity.
    + split; [intros []|]. intros [H E]. inversion H; subst. inversion E; subst.
      apply andb_false_iff in B. rewrite !N.leb_gt in B. lia.
  - destruct s as [|x s']; [split; [intros []|intros [H E]; inversion H; subst; discriminate]|].
    destruct (is_decimal x) eqn:B; simpl.
    + split.
      * intros [E|[]]. inversion E; subst. split; [constructor; assumption|reflexivity].
      * intros [H E]. inversion H; subst. inversion E; subst. left. reflexivity.
    + split; [intros []|]. intros [H E]. inversion H; subst. inversion E; subst.
      congruence.
  - rewrite in_flat_map. split.
    + intros ([t1 s1] & H1 & H2). apply in_map_iff in H2.
      destruct H2 as ([t2 s2] & E & H2). simpl in *. inversion E; subst.
      apply IH1 in H1. apply IH2 in H2. destruct H1 as [M1 ->], H2 as [M2 ->].
      split; [constructor; assumption|]. rewrite <- app_assoc. reflexivity.
    + intros [H E]. inversion H; subst.
      exists (t1, t2 ++ rest). split.
      * apply IH1. split; [assumption|]. rewrite <- app_assoc. reflexivity.
      * apply in_map_iff. exists (t2, rest). split; [reflexivity|].
        apply IH2. split; [assumption|reflexivity].
  - rewrite in_app_iff, IH1, IH2. split.
    + intros [[H E]|[H E]]; split; try assumption; [apply m_alt_l|apply m_alt_r]; assumption.
    + intros [H E]. inversion H; subst; [left|right]; split; auto.
Qed.

Ltac inv_matches :=
  repeat match goal with
         | H : matches (Alt _ _) _ |- _ => inv H
         | H : matches (Cat _ _) _ |- _ => inv H
         | H : matches (Chr _) _ |- _ => inv H
         | H : matches (Rng _ _) _ |- _ => inv H
         | H : matches Dec _ |- _ => inv H
         end.

Lemma matches_re_d t : matches re_d t <-> day_field t.
Proof.
  unfold re_d. split.
  - intros H. inv_matches; simpl; constructor; assumption.
  - intros H. inv H.
    + apply m_alt_l. apply (m_cat _ _ [_] [_]); constructor. assumption.
    + apply m_alt_r, m_alt_l. apply (m_cat _ _ [_] [_]); constructor; assumption.
    + apply m_alt_r, m_alt_r, m_alt_l. apply (m_cat _ _ [_] [_]); constructor.
      assumption.
    + apply m_alt_r, m_alt_r, m_alt_r, m_alt_l. constructor. assumption.
    + apply m_alt_r, m_alt_r, m_alt_r, m_alt_r.
      apply (m_cat _ _ [_] [_]); constructor. assumption.
Qed.

Lemma matches_re_m t : matches re_m t <-> month_field t.
Proof.
  unfold re_m. split.
  - intros H. inv_matches; simpl; constructor; assumption.
  - intros H. inv H.
    + apply m_alt_l. apply (m_cat _ _ [_] [_]); constructor. assumption.
    + apply m_alt_r, m_alt_l. apply (m_cat _ _ [_] [_]); constructor. assumption.
    + apply m_alt_r, m_alt_r. constructor. assumption.
Qed.

Lemma matches_re_Y t : matches re_Y t <-> year_field t.
Proof.
  unfold re_Y, year_field. split.
  - intros H. inv_matches. simpl. split; [reflexivity|].
    repeat constructor; assumption.
  - intros [L F].
    destruct t as [|a [|b [|c [|d [|]]]]]; try discriminate.
    inv F. inv H2. inv H4. inv H5.
    apply (m_cat _ _ [_] [_; _; _]); [constructor; assumption|].
    apply (m_cat _ _ [_] [_; _]); [constructor; assumption|].
    apply (m_cat _ _ [_] [_]); constructor; assumption.
Qed.

Lemma matches_re_dot t : matches re_dot t <-> t = lit ".".
Proof.
  unfold re_dot. split.
  - intros H. inv H. reflexivity.
  - intros ->. constructor.
Qed.

Lemma format_matches_spec s f : In f (format_matches s) <-> found_in f s.
Proof.
  unfold format_matches, found_in. split.
  - intros H.
    apply in_flat_map in H. destruct H as ([D s1] & H1 & H).
    apply in_flat_map in H. destruct H as ([p1 s2] & H2 & H).
    apply in_flat_map in H. destruct H as ([Mo s3] & H3 & H).
    apply in_flat_map in H. destruct H as ([p2 s4] & H4 & H).
    apply in_map_iff in H. destruct H as ([Y s5] & E & H5).
    cbn [fst snd] in *. subst f. cbn [group_d group_m group_Y unconverted].
    apply rmatch_spec in H1, H2, H3, H4, H5.
    destruct H1 as [M1 ->], H2 as [M2 ->], H3 as [M3 ->], H4 as [M4 ->],
      H5 as [M5 ->].
    apply matches_re_dot in M2, M4. subst p1 p2.
    apply matches_re_d in M1. apply matches_re_m in M3.
    apply matches_re_Y in M5.
    split; [assumption|split; [assumption|split; [assumption|reflexivity]]].
  - intros (Hd & Hm & Hy & ->). destruct f as [D Mo Y rest].
    cbn [group_d group_m group_Y unconverted] in *.
    apply in_flat_map. exists (D, lit "." ++ Mo ++ lit "." ++ Y ++ rest).
    split; [apply rmatch_spec; split; [apply matches_re_d; assumption|reflexivity]|].
    apply in_flat_map. exists (lit ".", Mo ++ lit "." ++ Y ++ rest).
    split; [apply rmatch_spec; split; [apply matches_re_dot|]; reflexivity|].
    apply in_flat_map. exists (Mo, lit "." ++ Y ++ rest).
    split; [apply rmatch_spec; split; [apply matches_re_m; assumption|reflexivity]|].
    apply in_flat_map. exists (lit ".", Y ++ rest).
    split; [apply rmatch_spec; split; [apply matches_re_dot|]; reflexivity|].
    apply in_map_iff. exists (Y, rest). split; [reflexivity|].
    apply rmatch_spec; split; [apply matches_re_Y; assumption|reflexivity].
Qed.

(** A match of the format is determined by the text: the fields contain
    no point, and the year has four characters. *)
Lemma split_at_point (a a' b b' : pystr) :
  ~ In (ch ".") a -> ~ In (ch ".") a' ->
  a ++ lit "." ++ b = a' ++ lit "." ++ b' -> a = a' /\ b = b'.
Proof.
  revert a'. induction a as [|x a IH]; intros [|x' a'] Ha Ha' E; simpl in *.
  - inversion E. auto.
  - inversion E; subst. exfalso. apply Ha'. left. reflexivity.
  - inversion E; subst. exfalso. apply Ha. left. reflexivity.
  - inversion E; subst. destruct (IH a') as [-> ->]; auto.
Qed.

Lemma decimal_not_point c : is_decimal c = true -> c <> ch ".".
Proof. intros H ->. vm_compute in H. discriminate. Qed.

Lemma between_not_point lo hi c :
  (ch "." < ch lo)%N -> between lo hi c -> c <> ch ".".
Proof. unfold between. intros H B ->. lia. Qed.

Lemma day_field_no_point t : day_field t -> ~ In (ch ".") t.
Proof.
  intros H I. inv H; simpl in I;
    repeat match goal with
           | H : between _ _ _ |- _ =>
               apply between_not_point in H; [|vm_compute; reflexivity]
           | H : is_decimal _ = true |- _ => apply decimal_not_point in H
           end;
    intuition (try congruence; try discriminate).
Qed.

Lemma month_field_no_point t : month_field t -> ~ In (ch ".") t.
Proof.
  intros H I. inv H; simpl in I;
    repeat match goal with
           | H : between _ _ _ |- _ =>
               apply between_not_point in H; [|vm_compute; reflexivity]
           end;
    intuition (try congruence; try discriminate).
Qed.

Lemma found_in_unique f f' s : found_in f s -> found_in f' s -> f = f'.
Proof.
  intros (Hd & Hm & Hy & E) (Hd' & Hm' & Hy' & E').
  destruct f as [D Mo Y rest], f' as [D' Mo' Y' rest'].
  cbn [group_d group_m group_Y unconverted] in *. subst s.
  apply split_at_point in E'; auto using day_field_no_point.
  destruct E' as [-> E'].
  apply split_at_point in E'; auto using month_field_no_point.
  destruct E' as [-> E'].
  apply app_inj_1 in E'; [|destruct Hy, Hy'; congruence].
  destruct E' as [-> ->]. reflexivity.
Qed.

Lemma format_match_spec s f : format_match s = Some f <-> found_in f s.
Proof.
  unfold format_match. split.
  - intros H. apply format_matches_spec.
    destruct (format_matches s) as [|g l]; [discriminate|].
    inversion H; subst. left. reflexivity.
  - intros H. pose proof H as I. apply format_matches_spec in I.
    destruct (format_matches s) as [|g l] eqn:E; [destruct I|].
    simpl. f_equal. apply (found_in_unique g f s); [|assumption].
    apply format_matches_spec. rewrite E. left. reflexivity.
Qed.

Lemma format_match_none s :
  format_match s = None <-> forall f, ~ found_in f s.
Proof.
  split.
  - intros H f I. apply format_match_spec in I. congruence.
  - intros H. destruct (format_match s) as [f|] eqn:E; [|reflexivity].
    apply format_match_spec in E. destruct (H f E).
Qed.

Lemma days_in_month_cases y m :
  1 <= m <= 12 ->
  (In m [1; 3; 5; 7; 8; 10; 12] /\ days_in_month y m = 31)
  \/ (In m [4; 6; 9; 11] /\ days_in_month y m = 30)
  \/ (m = 2 /\ days_in_month y m = if is_leap y then 29 else 28).
Proof.
  intros H. unfold days_in_month.
  months m;
    first [ left; split; [simpl; tauto | destruct (is_leap y); reflexivity]
          | right; left; split;
            [simpl; tauto | destruct (is_leap y); reflexivity]
          | right; right; split; [reflexivity | destruct (is_leap y); reflexivity] ].
Qed.

Lemma gregorian_valid dt : gregorian dt <-> valid_date dt.
Proof.
  unfold gregorian, valid_date, MINYEAR, MAXYEAR.
  destruct dt as [y m d]. cbn [year month day]. split.
  - intros (Hy & H).
    assert (Hm : 1 <= m <= 12) by (simpl in H; lia).
    destruct (days_in_month_cases y m Hm) as [[I E]|[[I E]|[-> E]]];
      rewrite E.
    + simpl in I, H. intuition lia.
    + simpl in I, H. intuition lia.
    + simpl in H. destruct (is_leap y) eqn:L.
      * intuition lia.
      * assert (N : ~ (y mod 4 = 0 /\ (y mod 100 <> 0 \/ y mod 400 = 0))).
        { rewrite <- is_leap_true. congruence. }
        intuition lia.
  - intros (Hy & Hm & Hd). split; [assumption|].
    destruct (days_in_month_cases y m Hm) as [[I E]|[[I E]|[-> E]]];
      rewrite E in Hd.
    + left. auto.
    + right. left. auto.
    + destruct (is_leap y) eqn:L.
      * apply is_leap_true in L.
        destruct (Z.eq_dec d 29) as [->|]; [right; right; right; tauto|].
        right. right. left. lia.
      * right. right. left. lia.
Qed.

Lemma strptime_ok s dt :
  strptime s = Ok dt <-> written_as s dt /\ valid_date dt.
Proof.
  unfold strptime, written_as. split.
  - intros H. destruct (format_match s) as [f|] eqn:E; [|discriminate].
    apply format_match_spec in E. destruct E as (Hd & Hm & Hy & E).
    destruct (unconverted f); [|discriminate].
    apply date_new_inv in H. destruct H as [-> V].
    split; [|exact V].
    exists (group_d f), (group_m f), (group_Y f).
    rewrite app_nil_r in E. auto.
  - intros [(D & Mo & Y & -> & Hd & Hm & Hy & ->) (Vy & Vm & Vd)].
    cbn [year month day] in *.
    assert (E : format_match (D ++ lit "." ++ Mo ++ lit "." ++ Y)
                = Some (mkFound D Mo Y [])).
    { apply format_match_spec. unfold found_in.
      cbn [group_d group_m group_Y unconverted]. rewrite app_nil_r. auto. }
    rewrite E. cbn [group_d group_m group_Y unconverted].
    apply date_new_ok; assumption.
Qed.

Lemma strptime_raises s e : strptime s = Raise e -> exists w, e = ValueError w.
Proof.
  unfold strptime. intros H.
  destruct (format_match s) as [f|]; [|inversion H; eauto].
  destruct (unconverted f); [|inversion H; eauto].
  unfold date_new in H.
  repeat match type of H with
         | (if ?c then _ else _) = _ => destruct c
         end; inversion H; eauto.
Qed.

Lemma Birthday_init_ok raw :
  Birthday_init raw = Ok (mkField raw) <-> parses_as_date raw.
Proof.
  unfold Birthday_init, parses_as_date. split.
  - intros H. destruct (strptime raw) as [dt|e] eqn:E.
    + apply strptime_ok in E. exists dt. rewrite gregorian_valid. exact E.
    + destruct e; discriminate.
  - intros (dt & W & G). apply gregorian_valid in G.
    assert (E : strptime raw = Ok dt) by (apply strptime_ok; auto).
    rewrite E. reflexivity.
Qed.

Lemma Birthday_init_cases raw :
  Birthday_init raw = Ok (mkField raw)
  \/ Birthday_init raw = Raise (ValueError DateFormat).
Proof.
  unfold Birthday_init. destruct (strptime raw) as [dt|e] eqn:E.
  - left. reflexivity.
  - apply strptime_raises in E. destruct E as [w ->]. right. reflexivity.
Qed.

(** ** Strings and phone numbers *)

Lemma pystr_eqb_eq a b : pystr_eqb a b = true <-> a = b.
Proof.
  revert b. induction a as [|x a IH]; intros [|y b]; simpl;
    try (split; [discriminate|congruence]); [tauto|].
  unfold codepoint_eqb. rewrite andb_true_iff, N.eqb_eq, IH.
  split; [intros [-> ->]; reflexivity|intros E; inversion E; auto].
Qed.

Lemma pystr_eqb_refl a : pystr_eqb a a = true.
Proof. apply pystr_eqb_eq. reflexivity. Qed.

Lemma pystr_eqb_neq a b : pystr_eqb a b = false <-> a <> b.
Proof.
  rewrite <- pystr_eqb_eq. destruct (pystr_eqb a b); split; congruence.
Qed.

Lemma isdigit_true s :
  isdigit s = true <-> s <> [] /\ Forall (fun c => char_isdigit c = true) s.
Proof.
  unfold isdigit. destruct s as [|c s].
  - split; [discriminate|intros [H _]; congruence].
  - rewrite forallb_forall, List.Forall_forall.
    split; [intros H; split; [discriminate|exact H]|intros [_ H]; exact H].
Qed.

Lemma len_10 {A} (s : list A) : (len s =? 10) = true <-> length s = 10%nat.
Proof. unfold len. rewrite Z.eqb_eq. lia. Qed.

Lemma Phone_init_ok raw :
  Phone_init raw = Ok (mkField raw) <-> ten_digits raw.
Proof.
  unfold Phone_init, ten_digits.
  destruct (isdigit raw) eqn:D; destruct (len raw =? 10) eqn:L; simpl.
  - apply isdigit_true in D. apply len_10 in L.
    split; [intros _; tauto|reflexivity].
  - split; [discriminate|]. intros [H _]. apply len_10 in H. congruence.
  - split; [discriminate|]. intros [H F].
    assert (isdigit raw = true); [|congruence].
    apply isdigit_true. split; [|exact F]. intros ->. discriminate.
  - split; [discriminate|]. intros [H _]. apply len_10 in H. congruence.
Qed.

Lemma Phone_init_cases raw :
  Phone_init raw = Ok (mkField raw)
  \/ Phone_init raw = Raise (ValueError PhoneFormat).
Proof.
  unfold Phone_init.
  destruct (negb (isdigit raw) || negb (len raw =? 10)); auto.
Qed.

Lemma Phone_init_inv raw p : Phone_init raw = Ok p -> p = mkField raw.
Proof. destruct (Phone_init_cases raw) as [E|E]; rewrite E; congruence. Qed.

Lemma ascii_digit_isdigit c : is_ascii_digit c = true -> char_isdigit c = true.
Proof.
  unfold is_ascii_digit, char_isdigit, is_decimal. intros H.
  apply orb_true_iff. left.
  unfold decimal_ranges, in_ranges. cbn [existsb fst snd].
  rewrite H. reflexivity.
Qed.

Lemma ten_ascii_ten_digits raw : ten_ascii_digits raw -> ten_digits raw.
Proof.
  intros [L F]. split; [exact L|].
  eapply List.Forall_impl; [|exact F]. exact ascii_digit_isdigit.
Qed.

(** ** The dictionary and the store *)

Arguments lit : simpl never.

Lemma dict_get_In d k r : dict_get d k = Some r -> In (k, r) d.
Proof.
  induction d as [|[k' v] d IH]; simpl; [discriminate|].
  destruct (pystr_eqb k' k) eqn:E.
  - apply pystr_eqb_eq in E. intros H. inversion H; subst. left. reflexivity.
  - intros H. right. apply IH. exact H.
Qed.

Lemma dict_set_absent d k v : dict_get d k = None -> dict_set d k v = d ++ [(k, v)].
Proof.
  induction d as [|[k' v'] d IH]; simpl; [reflexivity|].
  destruct (pystr_eqb k' k); [discriminate|].
  intros H. rewrite IH by assumption. reflexivity.
Qed.

Lemma dict_get_app_absent d k v :
  dict_get d k = None -> dict_get (d ++ [(k, v)]) k = Some v.
Proof.
  induction d as [|[k' v'] d IH]; simpl.
  - rewrite pystr_eqb_refl. reflexivity.
  - destruct (pystr_eqb k' k); [discriminate|]. exact IH.
Qed.

Lemma dict_get_absent_filter d k :
  dict_get d k = None -> List.filter (fun kv => pystr_eqb (fst kv) k) d = [].
Proof.
  induction d as [|[k' v'] d IH]; simpl; [reflexivity|].
  destruct (pystr_eqb k' k); [discriminate|]. exact IH.
Qed.

Lemma store_lookup_new {A} (os : list A) o :
  (os ++ [o]) !! length os = Some o.
Proof. apply list_lookup_middle. reflexivity. Qed.

Lemma store_insert_new {A} (os : list A) o o' :
  <[length os := o']> (os ++ [o]) = os ++ [o'].
Proof.
  rewrite insert_app_r_alt by lia. rewrite Nat.sub_diag. reflexivity.
Qed.

(** ** Rules for the computations *)

Lemma triple_ret {A} (P : state -> Prop) (a : A) (Q : A -> state -> Prop) :
  (forall s, P s -> Q a s) -> triple P (ret a) Q.
Proof. intros H s Hs. simpl. auto. Qed.

Lemma triple_bind {A B} (P : state -> Prop) (c : M A) (k : A -> M B)
    (R : A -> state -> Prop) (Q : B -> state -> Prop) :
  triple P c R -> (forall a, triple (R a) (k a) Q) -> triple P (bind c k) Q.
Proof.
  intros Hc Hk s Hs. unfold bind. specialize (Hc s Hs).
  destruct (c s) as [[a|e] s']; [|exact Hc].
  apply Hk. exact Hc.
Qed.

Lemma triple_raise {A} (P : state -> Prop) e (Q : A -> state -> Prop) :
  caught e -> (forall s, P s -> wf s) -> triple P (raise e) Q.
Proof. intros He Hw s Hs. simpl. auto. Qed.

Lemma triple_lift {A} (P : state -> Prop) (r : result A)
    (Q : A -> state -> Prop) :
  (forall e, r = Raise e -> caught e) ->
  (forall s, P s -> wf s) ->
  (forall a s, r = Ok a -> P s -> Q a s) ->
  triple P (lift r) Q.
Proof.
  intros He Hw Hq s Hs. destruct r as [a|e]; simpl; auto.
Qed.

Lemma triple_weaken {A} (P P' : state -> Prop) (c : M A)
    (Q Q' : A -> state -> Prop) :
  triple P' c Q' -> (forall s, P s -> P' s) ->
  (forall a s, Q' a s -> Q a s) -> triple P c Q.
Proof.
  intros H HP HQ s Hs. specialize (H s (HP s Hs)).
  destruct (c s) as [[a|e] s']; auto.
Qed.

Lemma triple_getobj (P : state -> Prop) r :
  (forall s, P s -> allocated s r) ->
  triple P (getobj r) (fun o s => P s /\ objects s !! r = Some o).
Proof.
  intros H s Hs. unfold getobj.
  destruct (objects s !! r) as [o|] eqn:E; [auto|].
  apply lookup_ge_None in E. specialize (H s Hs). unfold allocated in H. lia.
Qed.

(** ** The invariant *)

Lemma wf_record_ok s r o : wf s -> objects s !! r = Some o -> record_ok s o.
Proof.
  intros (_ & W & _) L. rewrite List.Forall_forall in W. apply W.
  apply list_elem_of_In. apply list_elem_of_lookup. eauto.
Qed.

Lemma wf_lookup_birthday s r o b :
  wf s -> objects s !! r = Some o -> birthday o = Some b ->
  exists dt, strptime (value b) = Ok dt.
Proof. intros W L. apply (wf_record_ok s r o W L). Qed.

Lemma wf_phones_allocated s r o :
  wf s -> objects s !! r = Some o -> Forall (phone_allocated s) (phones o).
Proof. intros W L. apply (wf_record_ok s r o W L). Qed.

Lemma wf_phones_NoDup s r o :
  wf s -> objects s !! r = Some o -> NoDup (phones o).
Proof.
  intros (_ & _ & N) L. apply NoDup_alt. intros a b p Ha Hb.
  apply (N r r o o a b p L L Ha Hb).
Qed.

Lemma wf_allocated s k r : wf s -> dict_get (data s) k = Some r -> allocated s r.
Proof.
  intros [W _] H. apply dict_get_In in H.
  rewrite List.Forall_forall in W. apply (W _ H).
Qed.

(** Records that keep their lists of phones keep the invariant. *)
Lemma no_sharing_same_phones s s' :
  (forall j oj', objects s' !! j = Some oj' ->
                 exists oj, objects s !! j = Some oj /\ phones oj' = phones oj) ->
  no_sharing s -> no_sharing s'.
Proof.
  intros H N i j oi oj a b p Li Lj Ha Hb.
  destruct (H i oi Li) as (oi0 & Li0 & Ei).
  destruct (H j oj Lj) as (oj0 & Lj0 & Ej).
  rewrite Ei in Ha. rewrite Ej in Hb. eauto.
Qed.

Lemma wf_setobj s r o o' :
  wf s -> objects s !! r = Some o -> phones o' = phones o ->
  (forall b, birthday o' = Some b -> exists dt, strptime (value b) = Ok dt) ->
  wf (mkState (<[r := o']> (objects s)) (phone_objects s) (data s)).
Proof.
  intros W L E Hb. pose proof W as (W1 & W2 & W3).
  assert (K : forall j oj',
             <[r := o']> (objects s) !! j = Some oj' ->
             exists oj, objects s !! j = Some oj /\ phones oj' = phones oj
                        /\ (oj' = o' \/ oj' = oj)).
  { intros j oj' H. apply list_lookup_insert_Some in H.
    destruct H as [(<- & <- & _)|(_ & H)]; eauto. }
  split; [|split]; cbn [objects phone_objects data].
  - eapply List.Forall_impl; [|exact W1]. unfold allocated. cbn [objects].
    intros kv. rewrite length_insert. auto.
  - rewrite List.Forall_forall. intros o1 I.
    apply list_elem_of_In in I. apply list_elem_of_lookup in I.
    destruct I as [j I]. destruct (K j o1 I) as (oj & Lj & Ej & C).
    pose proof (wf_record_ok s j oj W Lj) as [B P].
    split; [|unfold phone_allocated in *; cbn [phone_objects]; rewrite Ej; exact P].
    destruct C as [->| ->]; assumption.
  - apply (no_sharing_same_phones s); [|exact W3].
    cbn [objects]. intros j oj' H. destruct (K j oj' H) as (oj & ? & ? & _).
    eauto.
Qed.

Lemma wf_setphone s p x :
  wf s -> wf (mkState (objects s) (<[p := x]> (phone_objects s)) (data s)).
Proof.
  intros (W1 & W2 & W3). split; [|split]; cbn [objects phone_objects data].
  - exact W1.
  - eapply List.Forall_impl; [|exact W2]. intros o [B P]. split; [exact B|].
    eapply List.Forall_impl; [|exact P].
    unfold phone_allocated. cbn [phone_objects]. intros q.
    rewrite length_insert. auto.
  - exact W3.
Qed.

(** A new [Phone] object appended to the phones of a record. *)
Lemma wf_add_phone s r o x :
  wf s -> objects s !! r = Some o ->
  wf (mkState (<[r := mkRecord (name o)
                         (phones o ++ [length (phone_objects s)])
                         (birthday o)]> (objects s))
              (phone_objects s ++ [x]) (data s)).
Proof.
  intros W L. pose proof W as (W1 & W2 & W3).
  set (n := length (phone_objects s)).
  assert (K : forall j oj',
             <[r := mkRecord (name o) (phones o ++ [n]) (birthday o)]>
               (objects s) !! j = Some oj' ->
             exists oj, objects s !! j = Some oj
                        /\ birthday oj' = birthday oj
                        /\ ((j = r /\ phones oj' = phones oj ++ [n])
                            \/ (j <> r /\ phones oj' = phones oj))).
  { intros j oj' H. apply list_lookup_insert_Some in H.
    destruct H as [(<- & <- & _)|(? & H)].
    - exists o. cbn [phones birthday]. auto.
    - exists oj'. auto. }
  assert (Old : forall j oj a p, objects s !! j = Some oj ->
                  phones oj !! a = Some p -> (p < n)%nat).
  { intros j oj a p Lj La.
    pose proof (wf_phones_allocated s j oj W Lj) as P.
    rewrite List.Forall_forall in P. apply (P p).
    apply list_elem_of_In. apply list_elem_of_lookup. eauto. }
  split; [|split]; cbn [objects phone_objects data].
  - eapply List.Forall_impl; [|exact W1]. unfold allocated. cbn [objects].
    intros kv. rewrite length_insert. auto.
  - rewrite List.Forall_forall. intros o1 I.
    apply list_elem_of_In in I. apply list_elem_of_lookup in I.
    destruct I as [j I]. destruct (K j o1 I) as (oj & Lj & Eb & C).
    pose proof (wf_record_ok s j oj W Lj) as [B P].
    split; [rewrite Eb; exact B|].
    assert (P' : Forall (fun q => (q < length (phone_objects s ++ [x]))%nat)
                        (phones oj)).
    { eapply List.Forall_impl; [|exact P]. unfold phone_allocated.
      intros q. rewrite length_app. simpl. lia. }
    unfold phone_allocated. cbn [phone_objects].
    destruct C as [[_ ->]|[_ ->]]; [|exact P'].
    apply Forall_app. split; [exact P'|].
    constructor; [|constructor]. rewrite length_app. simpl. fold n. lia.
  - intros i j oi oj a b p Li Lj Ha Hb.
    destruct (K i oi Li) as (oi0 & Li0 & _ & Ci).
    destruct (K j oj Lj) as (oj0 & Lj0 & _ & Cj).
    assert (Pa : (phones oi0 !! a = Some p)
                 \/ (i = r /\ a = length (phones oi0) /\ p = n)).
    { destruct Ci as [[-> E]|[_ E]]; rewrite E in Ha; [|auto].
      apply lookup_app_Some in Ha. destruct Ha as [Ha|[Hl Ha]]; [auto|].
      right. apply list_lookup_singleton_Some in Ha. destruct Ha as [Hz ->].
      split; [reflexivity|]. split; [lia|reflexivity]. }
    assert (Pb : (phones oj0 !! b = Some p)
                 \/ (j = r /\ b = length (phones oj0) /\ p = n)).
    { destruct Cj as [[-> E]|[_ E]]; rewrite E in Hb; [|auto].
      apply lookup_app_Some in Hb. destruct Hb as [Hb|[Hl Hb]]; [auto|].
      right. apply list_lookup_singleton_Some in Hb. destruct Hb as [Hz ->].
      split; [reflexivity|]. split; [lia|reflexivity]. }
    destruct Pa as [Pa|(-> & -> & ->)], Pb as [Pb|(-> & -> & Ep)].
    + eapply W3; eauto.
    + subst p. pose proof (Old _ _ _ _ Li0 Pa). lia.
    + pose proof (Old _ _ _ _ Lj0 Pb). lia.
    + split; [reflexivity|]. rewrite L in Li0, Lj0. congruence.
Qed.

(** ** Reading the phones of a record *)

Lemma phone_lookup s p :
  phone_allocated s p -> exists x, phone_objects s !! p = Some x.
Proof. intros H. apply lookup_lt_is_Some_2. exact H. Qed.

Lemma phone_values_texts s ps vs :
  texts (phone_objects s) ps = Some vs -> phone_values ps s = (Ok vs, s).
Proof.
  revert vs. induction ps as [|p rest IH]; intros vs; simpl.
  - intros H. inversion H; subst. reflexivity.
  - unfold bind, getphone.
    destruct (phone_objects s !! p) as [x|]; [|discriminate].
    destruct (texts (phone_objects s) rest) as [ws|]; [|discriminate].
    intros H. inversion H; subst. rewrite (IH ws eq_refl). reflexivity.
Qed.

Lemma texts_allocated s ps :
  Forall (phone_allocated s) ps -> exists vs, texts (phone_objects s) ps = Some vs.
Proof.
  induction ps as [|p rest IH]; intros F; simpl; [eauto|].
  inversion F as [|? ? A F']; subst.
  destruct (phone_lookup s p A) as [x ->].
  destruct (IH F') as [vs ->]. eauto.
Qed.

Lemma texts_length objs ps vs : texts objs ps = Some vs -> length vs = length ps.
Proof.
  revert vs. induction ps as [|p rest IH]; intros vs; simpl.
  - intros H. inversion H; reflexivity.
  - destruct (objs !! p); [|discriminate].
    destruct (texts objs rest) as [ws|]; [|discriminate].
    intros H. inversion H; subst. simpl. rewrite (IH ws eq_refl). reflexivity.
Qed.

(** Writing to a [Phone] object that is not in the list leaves the
    values of the list as they are. *)
Lemma texts_insert_other objs ps p x :
  ~ In p ps -> texts (<[p := x]> objs) ps = texts objs ps.
Proof.
  induction ps as [|q rest IH]; intros N; simpl; [reflexivity|].
  rewrite list_lookup_insert_ne by (intros ->; apply N; left; reflexivity).
  rewrite IH by (intros I; apply N; right; exact I). reflexivity.
Qed.

(** Writing to the [Phone] object at position [i] of a list without
    repetition changes the value at that position and no other. *)
Lemma texts_insert objs ps i p v vs :
  NoDup ps -> ps !! i = Some p -> texts objs ps = Some vs ->
  texts (<[p := mkField v]> objs) ps = Some (<[i := v]> vs).
Proof.
  revert i vs. induction ps as [|q rest IH]; intros i vs N L T; [discriminate|].
  apply NoDup_cons in N. destruct N as [Nq N].
  rewrite list_elem_of_In in Nq.
  simpl in T. destruct (objs !! q) as [y|] eqn:Lq; [|discriminate].
  destruct (texts objs rest) as [ws|] eqn:Tr; [|discriminate].
  inversion T; subst vs. destruct i as [|i]; simpl in L.
  - inversion L; subst q. cbn [texts list_insert insert].
    rewrite list_lookup_insert_eq by (apply lookup_lt_Some in Lq; exact Lq).
    rewrite texts_insert_other by exact Nq. rewrite Tr. reflexivity.
  - assert (q <> p).
    { intros ->. apply Nq. apply list_elem_of_In.
      apply list_elem_of_lookup. eauto. }
    cbn [texts]. rewrite list_lookup_insert_ne by congruence. rewrite Lq.
    rewrite (IH i ws N L eq_refl). reflexivity.
Qed.

Lemma texts_app objs ps qs vs ws :
  texts objs ps = Some vs -> texts objs qs = Some ws ->
  texts objs (ps ++ qs) = Some (vs ++ ws).
Proof.
  revert vs. induction ps as [|p rest IH]; intros vs; simpl.
  - intros H. inversion H; subst. auto.
  - destruct (objs !! p); [|discriminate].
    destruct (texts objs rest) as [us|]; [|discriminate].
    intros H T. inversion H; subst. rewrite (IH us eq_refl T). reflexivity.
Qed.

(** Allocation leaves the values of the phones that were there. *)
Lemma texts_alloc objs x ps vs :
  texts objs ps = Some vs -> texts (objs ++ [x]) ps = Some vs.
Proof.
  revert vs. induction ps as [|p rest IH]; intros vs; simpl; [auto|].
  destruct (objs !! p) as [y|] eqn:L; [|discriminate].
  destruct (texts objs rest) as [us|]; [|discriminate].
  intros H. inversion H; subst.
  rewrite lookup_app_l by (apply lookup_lt_Some in L; exact L).
  rewrite L, (IH us eq_refl). reflexivity.
Qed.

(** ** Finding a phone *)

Lemma find_phone_loop_none s ps v :
  Forall (phone_allocated s) ps -> no_phone_with_value s ps v ->
  find_phone_loop ps v s = (Ok None, s).
Proof.
  induction ps as [|p rest IH]; intros F N; simpl; [reflexivity|].
  inversion F as [|? ? A F']; subst.
  destruct (phone_lookup s p A) as [x L].
  unfold bind, getphone. rewrite L.
  assert (E : pystr_eqb (value x) v = false).
  { apply pystr_eqb_neq. apply (N p x); [left; reflexivity|exact L]. }
  rewrite E. apply IH; [exact F'|].
  intros q y I. apply N. right. exact I.
Qed.

Lemma find_phone_loop_first s ps v : forall i p,
  Forall (phone_allocated s) ps -> first_with_value s ps v i p ->
  find_phone_loop ps v s = (Ok (Some p), s).
Proof.
  induction ps as [|q rest IH]; intros i p F (L & (x & Lx & Vx) & B);
    [discriminate|].
  inversion F as [|? ? A F']; subst. simpl.
  destruct (phone_lookup s q A) as [y Ly].
  unfold bind, getphone. rewrite Ly.
  destruct i as [|i]; simpl in L.
  - inversion L; subst q. rewrite Lx in Ly. inversion Ly; subst y.
    rewrite pystr_eqb_refl. reflexivity.
  - assert (E : pystr_eqb (value y) (value x) = false).
    { apply pystr_eqb_neq. apply (B 0%nat q y); [lia|reflexivity|exact Ly]. }
    rewrite E. apply (IH i p F'). split; [exact L|]. split; [eauto|].
    intros j q' y' Hj Lj. apply (B (S j) q' y'); [lia|exact Lj].
Qed.

Lemma find_phone_cases s ps v :
  Forall (phone_allocated s) ps ->
  no_phone_with_value s ps v \/ exists i p, first_with_value s ps v i p.
Proof.
  induction ps as [|q rest IH]; intros F.
  - left. intros p x [].
  - inversion F as [|? ? A F']; subst.
    destruct (phone_lookup s q A) as [y Ly].
    destruct (pystr_eqb (value y) v) eqn:E.
    + apply pystr_eqb_eq in E. right. exists 0%nat, q.
      split; [reflexivity|]. split; [eauto|]. intros j ? ? Hj. lia.
    + apply pystr_eqb_neq in E. destruct (IH F') as [N|(i & p & L & X & B)].
      * left. intros p x [<-|I] Lp; [congruence|]. apply (N p x I Lp).
      * right. exists (S i), p. split; [exact L|]. split; [exact X|].
        intros j q' y' Hj Lj Ly'. destruct j as [|j]; simpl in Lj.
        -- inversion Lj; subst q'. congruence.
        -- apply (B j q' y'); [lia|exact Lj|exact Ly'].
Qed.

(** The first phone with a value is also the first occurrence of its
    object in the list. *)
Lemma first_with_value_remove s ps v i p :
  first_with_value s ps v i p -> list_remove p ps = Some (delete i ps).
Proof.
  revert i. induction ps as [|q rest IH]; intros i (L & (x & Lx & Vx) & B);
    [discriminate|].
  simpl. destruct i as [|i]; simpl in L.
  - inversion L; subst q. rewrite Nat.eqb_refl. reflexivity.
  - destruct (Nat.eqb_spec q p) as [->|Hne].
    + exfalso. apply (B 0%nat p x); [lia|reflexivity|exact Lx|exact Vx].
    + rewrite (IH i); [reflexivity|].
      split; [exact L|]. split; [eauto|].
      intros j q' y' Hj Lj. apply (B (S j) q' y'); [lia|exact Lj].
Qed.

(** ** The methods of [Record], run *)

Lemma edit_phone_absent s self o old_phone new_phone :
  objects s !! self = Some o -> Forall (phone_allocated s) (phones o) ->
  no_phone_with_value s (phones o) old_phone ->
  edit_phone self old_phone new_phone s
  = (Raise (ValueError OldPhoneMissing), s).
Proof.
  intros L F N. unfold edit_phone, find_phone.
  unfold bind, getobj. rewrite L.
  rewrite (find_phone_loop_none s _ _ F N). reflexivity.
Qed.

Lemma edit_phone_invalid s self o old_phone new_phone i p :
  objects s !! self = Some o -> Forall (phone_allocated s) (phones o) ->
  first_with_value s (phones o) old_phone i p ->
  ~ ten_digits new_phone ->
  edit_phone self old_phone new_phone s = (Raise (ValueError PhoneFormat), s).
Proof.
  intros L F H N. unfold edit_phone, find_phone.
  unfold bind, getobj. rewrite L.
  rewrite (find_phone_loop_first s _ _ i p F H).
  destruct (Phone_init_cases new_phone) as [E|E].
  - apply Phone_init_ok in E. contradiction.
  - rewrite E. reflexivity.
Qed.

Lemma edit_phone_valid s self o old_phone new_phone i p :
  objects s !! self = Some o -> Forall (phone_allocated s) (phones o) ->
  first_with_value s (phones o) old_phone i p ->
  ten_digits new_phone ->
  edit_phone self old_phone new_phone s
  = (Ok tt,
     mkState (objects s) (<[p := mkField new_phone]> (phone_objects s))
             (data s)).
Proof.
  intros L F H V. apply Phone_init_ok in V. unfold edit_phone, find_phone.
  unfold bind, getobj. rewrite L.
  rewrite (find_phone_loop_first s _ _ i p F H).
  rewrite V. reflexivity.
Qed.

Lemma add_phone_valid s self o phone :
  objects s !! self = Some o -> ten_digits phone ->
  add_phone self phone s
  = (Ok tt,
     mkState (<[self := mkRecord (name o)
                          (phones o ++ [length (phone_objects s)])
                          (birthday o)]> (objects s))
             (phone_objects s ++ [mkField phone]) (data s)).
Proof.
  intros L V. apply Phone_init_ok in V.
  unfold add_phone, Phone_new, bind, lift. rewrite V.
  unfold ret, newphone, getobj, setobj. cbn [objects phone_objects data].
  rewrite L. reflexivity.
Qed.

Lemma add_phone_invalid s self phone :
  ~ ten_digits phone ->
  add_phone self phone s = (Raise (ValueError PhoneFormat), s).
Proof.
  intros N. unfold add_phone, Phone_new, bind, lift.
  destruct (Phone_init_cases phone) as [E|E].
  - apply Phone_init_ok in E. contradiction.
  - rewrite E. reflexivity.
Qed.

(** ** No exception escapes a handler *)

Lemma triple_find (P : state -> Prop) nm :
  triple P (find nm) (fun r s => P s /\ dict_get (data s) nm = r).
Proof. intros s Hs. simpl. auto. Qed.

Lemma triple_attr (P : state -> Prop) record :
  (forall s, P s -> wf s) ->
  triple P (attr record) (fun r s => P s /\ record = Some r).
Proof.
  intros H. destruct record as [r|]; simpl.
  - apply triple_ret. auto.
  - apply triple_raise; [exact I|exact H].
Qed.

Lemma triple_unpack1 args : triple wf (unpack1 args) (fun _ s => wf s).
Proof.
  destruct args as [|a args]; simpl.
  - apply triple_raise; [exact I|auto].
  - apply triple_ret. auto.
Qed.

Lemma triple_unpack2 args : triple wf (unpack2 args) (fun _ s => wf s).
Proof.
  destruct args as [|a [|b args]]; simpl;
    first [apply triple_ret; auto | apply triple_raise; [exact I|auto]].
Qed.

Lemma triple_unpack3 args : triple wf (unpack3 args) (fun _ s => wf s).
Proof.
  destruct args as [|a [|b [|c args]]]; simpl;
    first [apply triple_ret; auto | apply triple_raise; [exact I|auto]].
Qed.

(** A record found in the book can be read. *)
Lemma triple_getobj_wf r :
  triple (fun s => wf s /\ allocated s r) (getobj r)
         (fun o s => wf s /\ objects s !! r = Some o).
Proof.
  eapply triple_weaken.
  - apply (triple_getobj (fun s => wf s /\ allocated s r)). tauto.
  - auto.
  - simpl. tauto.
Qed.

Lemma ten_digits_dec phone : ten_digits phone \/ ~ ten_digits phone.
Proof.
  destruct (Phone_init_cases phone) as [E|E].
  - left. apply Phone_init_ok. exact E.
  - right. intros V. apply Phone_init_ok in V. congruence.
Qed.

Lemma allocated_lookup s r : allocated s r -> exists o, objects s !! r = Some o.
Proof. intros H. apply lookup_lt_is_Some_2. exact H. Qed.

Lemma triple_add_phone self phone :
  triple (fun s => wf s /\ allocated s self) (add_phone self phone)
         (fun _ s => wf s).
Proof.
  intros s [W A]. destruct (allocated_lookup s self A) as [o L].
  destruct (ten_digits_dec phone) as [V|N].
  - rewrite (add_phone_valid s self o phone L V). apply wf_add_phone; assumption.
  - rewrite (add_phone_invalid s self phone N). split; [exact I|exact W].
Qed.

Lemma triple_edit_phone self old_phone new_phone :
  triple (fun s => wf s /\ allocated s self)
         (edit_phone self old_phone new_phone) (fun _ s => wf s).
Proof.
  intros s [W A]. destruct (allocated_lookup s self A) as [o L].
  pose proof (wf_phones_allocated s self o W L) as F.
  destruct (find_phone_cases s (phones o) old_phone F) as [N|(i & p & H)].
  - rewrite (edit_phone_absent s self o old_phone new_phone L F N).
    split; [exact I|exact W].
  - destruct (ten_digits_dec new_phone) as [V|N].
    + rewrite (edit_phone_valid s self o old_phone new_phone i p L F H V).
      apply wf_setphone. exact W.
    + rewrite (edit_phone_invalid s self o old_phone new_phone i p L F H N).
      split; [exact I|exact W].
Qed.

Lemma Record_add_birthday_valid s self o text :
  objects s !! self = Some o -> parses_as_date text ->
  Record_add_birthday self text s
  = (Ok tt,
     mkState (<[self := mkRecord (name o) (phones o) (Some (mkField text))]>
                (objects s))
             (phone_objects s) (data s)).
Proof.
  intros L P. apply Birthday_init_ok in P.
  unfold Record_add_birthday, bind, lift. rewrite P.
  unfold ret, getobj, setobj. rewrite L. reflexivity.
Qed.

Lemma Record_add_birthday_invalid s self text :
  ~ parses_as_date text ->
  Record_add_birthday self text s = (Raise (ValueError DateFormat), s).
Proof.
  intros N. unfold Record_add_birthday, bind, lift.
  destruct (Birthday_init_cases text) as [E|E].
  - apply Birthday_init_ok in E. contradiction.
  - rewrite E. reflexivity.
Qed.

Lemma parses_as_date_dec text : parses_as_date text \/ ~ parses_as_date text.
Proof.
  destruct (Birthday_init_cases text) as [E|E].
  - left. apply Birthday_init_ok. exact E.
  - right. intros V. apply Birthday_init_ok in V. congruence.
Qed.

Lemma triple_Record_add_birthday self text :
  triple (fun s => wf s /\ allocated s self) (Record_add_birthday self text)
         (fun _ s => wf s).
Proof.
  intros s [W A]. destruct (allocated_lookup s self A) as [o L].
  destruct (parses_as_date_dec text) as [P|N].
  - rewrite (Record_add_birthday_valid s self o text L P).
    apply (wf_setobj s self o); [exact W|exact L|reflexivity|].
    cbn [birthday]. intros b E. inversion E; subst b. cbn [value].
    destruct P as (dt & Wr & G). exists dt. apply strptime_ok.
    split; [exact Wr|]. apply gregorian_valid. exact G.
  - rewrite (Record_add_birthday_invalid s self text N).
    split; [exact I|exact W].
Qed.

(** The values of the phones of a record can be read. *)
Lemma triple_phone_values ps :
  triple (fun s => wf s /\ Forall (phone_allocated s) ps) (phone_values ps)
         (fun _ s => wf s).
Proof.
  intros s [W F]. destruct (texts_allocated s ps F) as [vs T].
  rewrite (phone_values_texts s ps vs T). exact W.
Qed.

Lemma input_error_safe (body : M pystr) :
  triple wf body (fun _ s => wf s) ->
  forall s, wf s -> exists msg s', input_error body s = (Ok msg, s') /\ wf s'.
Proof.
  intros H s Hs. specialize (H s Hs). unfold input_error.
  destruct (body s) as [[v|e] s']; [eauto|].
  destruct H as [C W]. destruct e; simpl in C; try contradiction; eauto.
Qed.

(** [record = book.find(name)] followed by a use of [record]. *)
Lemma triple_find_attr {B} nm (k : ref -> M B) (Q : B -> state -> Prop) :
  (forall self, triple (fun s => wf s /\ allocated s self) (k self) Q) ->
  triple wf (record <- find nm ;; self <- attr record ;; k self) Q.
Proof.
  intros Hk.
  eapply triple_bind; [apply triple_find|].
  intros record. eapply triple_bind.
  - apply (triple_attr (fun s => wf s /\ dict_get (data s) nm = record)). tauto.
  - intros self. eapply triple_weaken; [apply (Hk self)| |auto].
    simpl. intros s [[W G] E]. split; [exact W|].
    rewrite E in G. eapply wf_allocated; eauto.
Qed.

(** The rules that apply to a call as it stands. *)
Create HintDb triples.
#[local] Hint Resolve triple_unpack1 triple_unpack2 triple_unpack3
  triple_getobj_wf triple_add_phone triple_edit_phone
  triple_Record_add_birthday : triples.

(** One statement of a handler: the call, then the rest. *)
Ltac step := eapply triple_bind; [solve [eauto with triples]|].

Lemma add_birthday_safe args :
  triple wf (nb <- unpack2 args ;;
             record <- find (fst nb) ;;
             self <- attr record ;;
             Record_add_birthday self (snd nb) ;;;
             ret (lit "Birthday added."))
         (fun _ s => wf s).
Proof.
  step. intros nb. apply triple_find_attr. intros self.
  step. intros u. apply triple_ret. auto.
Qed.

Lemma show_birthday_safe args :
  triple wf (nm <- unpack1 args ;;
             record <- find nm ;;
             self <- attr record ;;
             o <- getobj self ;;
             match birthday o with
             | None => ret (lit "Birthday not set.")
             | Some b => ret (value b)
             end)
         (fun _ s => wf s).
Proof.
  step. intros nm. apply triple_find_attr. intros self.
  step. intros o. destruct (birthday o); apply triple_ret; tauto.
Qed.

Lemma show_phone_safe args :
  triple wf (nm <- unpack1 args ;;
             record <- find nm ;;
             self <- attr record ;;
             o <- getobj self ;;
             match phones o with
             | [] => ret (lit "No phone numbers.")
             | ps => vs <- phone_values ps ;; ret (join (lit "; ") vs)
             end)
         (fun _ s => wf s).
Proof.
  step. intros nm. apply triple_find_attr. intros self.
  step. intros o. destruct (phones o) as [|p ps] eqn:E.
  - apply triple_ret. tauto.
  - eapply (triple_bind _ _ _ (fun _ s => wf s)).
    + eapply triple_weaken;
        [apply (triple_phone_values (p :: ps))| |intros a s H; exact H].
      intros s [W L]. split; [exact W|]. rewrite <- E.
      apply (wf_phones_allocated s self o W L).
    + intros vs. apply triple_ret. auto.
Qed.

Lemma change_contact_safe args :
  triple wf (a <- unpack3 args ;;
             let '(nm, old_phone, new_phone) := a in
             record <- find nm ;;
             self <- attr record ;;
             edit_phone self old_phone new_phone ;;;
             ret (lit "Phone number updated."))
         (fun _ s => wf s).
Proof.
  step. intros [[nm old_phone] new_phone].
  apply triple_find_attr. intros self.
  step. intros u. apply triple_ret. auto.
Qed.

Lemma wf_newobj s o nm :
  wf s -> birthday o = None -> phones o = [] ->
  wf (mkState (objects s ++ [o]) (phone_objects s)
              (dict_set (data s) nm (length (objects s)))).
Proof.
  intros (W1 & W2 & W3) Hb Hp. split; [|split]; cbn [objects phone_objects data].
  - assert (G : forall d,
               Forall (fun kv => allocated s (snd kv)) d ->
               Forall (fun kv => (snd kv < length (objects s ++ [o]))%nat)
                      (dict_set d nm (length (objects s)))).
    { induction d as [|[k v] d IH]; simpl; intros F.
      - constructor; [simpl; rewrite length_app; simpl; lia|constructor].
      - inversion F; subst. unfold allocated in *. simpl in *.
        destruct (pystr_eqb k nm).
        + constructor; [simpl; rewrite length_app; simpl; lia|].
          eapply List.Forall_impl; [|eassumption].
          intros kv. simpl. rewrite length_app. simpl. lia.
        + constructor; [simpl; rewrite length_app; simpl; lia|].
          apply IH. assumption. }
    apply G. exact W1.
  - apply Forall_app. split; [exact W2|].
    constructor; [|constructor]. split.
    + intros b E. congruence.
    + rewrite Hp. constructor.
  - intros i j oi oj a b p Li Lj Ha Hb'.
    apply lookup_app_Some in Li, Lj.
    destruct Li as [Li|[_ Li]], Lj as [Lj|[_ Lj]].
    + eapply W3; eauto.
    + apply list_lookup_singleton_Some in Lj. destruct Lj as [_ <-].
      rewrite Hp in Hb'. discriminate.
    + apply list_lookup_singleton_Some in Li. destruct Li as [_ <-].
      rewrite Hp in Ha. discriminate.
    + apply list_lookup_singleton_Some in Li. destruct Li as [_ <-].
      rewrite Hp in Ha. discriminate.
Qed.

(** Creation of a record and its insertion into the book. *)
Lemma create_record_eq {A} nm (x : A) s :
  (record <- Record_init nm ;; add_record record ;;; ret (record, x)) s
  = (Ok (length (objects s), x),
     mkState (objects s ++ [mkRecord (mkField nm) [] None]) (phone_objects s)
             (dict_set (data s) nm (length (objects s)))).
Proof.
  unfold Record_init, newobj, add_record, getobj, ret, bind.
  cbn [objects data]. rewrite store_lookup_new. reflexivity.
Qed.

Lemma add_contact_safe args :
  triple wf (np <- unpack2 args ;;
             let nm := fst np in
             let phone := snd np in
             record <- find nm ;;
             rm <- match record with
                   | None =>
                       record <- Record_init nm ;;
                       add_record record ;;;
                       ret (record, lit "Contact added.")
                   | Some record => ret (record, lit "Contact updated.")
                   end ;;
             match phone with
             | [] => ret (snd rm)
             | _ => add_phone (fst rm) phone ;;; ret (snd rm)
             end)
         (fun _ s => wf s).
Proof.
  eapply triple_bind; [apply triple_unpack2|]. intros [nm phone]. cbv zeta.
  cbn [fst snd].
  eapply triple_bind; [apply triple_find|].
  intros record.
  eapply (triple_bind _ _ _ (fun rm s => wf s /\ allocated s (fst rm))).
  - destruct record as [r|].
    + apply triple_ret. simpl. intros s [W G]. split; [exact W|].
      eapply wf_allocated; eauto.
    + intros s [W G]. rewrite create_record_eq. cbn [fst].
      split.
      * apply wf_newobj; [exact W|reflexivity|reflexivity].
      * unfold allocated. simpl. rewrite length_app. simpl. lia.
  - intros rm. destruct phone as [|c phone].
    + apply triple_ret. tauto.
    + eapply triple_bind; [apply triple_add_phone|].
      intros u. apply triple_ret. auto.
Qed.

(** ** No exception escapes the loops *)

Lemma congratulation_raises today b e :
  congratulation today b = Raise e -> exists w, e = ValueError w.
Proof.
  unfold congratulation. intros H.
  destruct (strptime (value b)) as [bd|e0] eqn:S.
  2:{ inversion H; subst. eapply strptime_raises; eauto. }
  destruct (replace_year bd (year today)) as [this|e0] eqn:R1.
  2:{ inversion H; subst. apply replace_year_raises in R1. eauto. }
  apply replace_year_inv in R1. destruct R1 as [_ V1].
  destruct (date_lt this today).
  - destruct (replace_year this (year today + 1)) as [nxt|e0] eqn:R2.
    2:{ inversion H; subst. apply replace_year_raises in R2. eauto. }
    apply replace_year_inv in R2. destruct R2 as [_ V2].
    destruct (adjust_for_weekend_shift _ V2) as (d' & A & _).
    rewrite A in H. discriminate.
  - destruct (adjust_for_weekend_shift _ V1) as (d' & A & _).
    rewrite A in H. discriminate.
Qed.

Lemma upcoming_loop_safe today days values : forall acc,
  triple (fun s => wf s /\ Forall (allocated s) values)
         (upcoming_loop today days values acc) (fun _ s => wf s).
Proof.
  induction values as [|r rest IH]; intros acc; simpl.
  - apply triple_ret. tauto.
  - eapply triple_bind.
    { apply (triple_getobj (fun s => wf s /\ Forall (allocated s) (r :: rest))).
      intros s [_ F]. inversion F; assumption. }
    intros o.
    assert (W : forall s,
               (wf s /\ Forall (allocated s) (r :: rest))
               /\ objects s !! r = Some o ->
               wf s /\ Forall (allocated s) rest).
    { intros s [[W F] _]. inversion F; auto. }
    destruct (birthday o) as [b|].
    + eapply triple_bind.
      { apply (triple_lift _ _ (fun _ s => wf s /\ Forall (allocated s) rest)).
        - intros e H. apply congratulation_raises in H. destruct H as [w ->].
          exact I.
        - intros s H. apply W in H. tauto.
        - intros a s _ H. apply W. exact H. }
      intros adj. cbv zeta.
      destruct ((0 <=? days_between adj today)
                && (days_between adj today <=? days)); apply IH.
    + eapply triple_weaken; [apply IH|exact W|auto].
Qed.

Lemma wf_values s : wf s -> Forall (allocated s) (List.map snd (data s)).
Proof.
  intros [W _]. apply Forall_map. exact W.
Qed.

Lemma birthdays_safe today :
  triple wf (upcoming <- get_upcoming_birthdays today 7 ;;
             match upcoming with
             | [] => ret (lit "No birthdays in the next week.")
             | _ => ret (join (lit (String "010" EmptyString))
                              (List.map reminder_line upcoming))
             end)
         (fun _ s => wf s).
Proof.
  eapply triple_bind.
  - intros s W. unfold get_upcoming_birthdays.
    apply (upcoming_loop_safe today 7 (List.map snd (data s)) [] s).
    split; [exact W|apply wf_values; exact W].
  - intros [|x l]; apply triple_ret; auto.
Qed.

Lemma book_line_safe r o :
  triple (fun s => wf s /\ objects s !! r = Some o) (book_line o)
         (fun _ s => wf s).
Proof.
  unfold book_line. eapply (triple_bind _ _ _ (fun _ s => wf s)).
  - eapply triple_weaken;
      [apply (triple_phone_values (phones o))| |intros a s H; exact H].
    intros s [W L]. split; [exact W|].
    apply (wf_phones_allocated s r o W L).
  - intros vs. apply triple_ret. auto.
Qed.

(** The loops over the book leave the state as it is. *)
Lemma phone_values_state ps : forall s r s',
  phone_values ps s = (r, s') -> s' = s.
Proof.
  induction ps as [|p rest IH]; intros s r s'; simpl.
  - unfold ret. congruence.
  - unfold bind, getphone. destruct (phone_objects s !! p); [|congruence].
    destruct (phone_values rest s) as [[vs|e] s1] eqn:E;
      apply IH in E; subst s1; unfold ret; congruence.
Qed.

Lemma book_lines_safe values : forall acc,
  triple (fun s => wf s /\ Forall (allocated s) values) (book_lines values acc)
         (fun _ s => wf s).
Proof.
  induction values as [|r rest IH]; intros acc; simpl.
  - apply triple_ret. tauto.
  - intros s [W F]. inversion F as [|? ? A F']; subst.
    destruct (allocated_lookup s r A) as [o L].
    unfold bind at 1. unfold getobj at 1. rewrite L.
    unfold bind at 1.
    pose proof (book_line_safe r o s (conj W L)) as B.
    destruct (book_line o s) as [[line|e] s1] eqn:E; [|exact B].
    assert (s1 = s); [|subst s1; apply IH; auto].
    unfold book_line, bind in E.
    destruct (phone_values (phones o) s) as [[vs|e] s2] eqn:V;
      apply phone_values_state in V; subst s2; unfold ret in E; congruence.
Qed.

Lemma AddressBook_str_safe : triple wf AddressBook_str (fun _ s => wf s).
Proof.
  intros s W. unfold AddressBook_str.
  pose proof (wf_values s W) as F.
  destruct (data s) as [|kv d]; [exact W|].
  set (values := List.map snd (kv :: d)) in *.
  apply (triple_bind (fun s0 => wf s0 /\ Forall (allocated s0) values)
           (book_lines values []) _ (fun _ s0 => wf s0) (fun _ s0 => wf s0)).
  - apply book_lines_safe.
  - intros os. apply triple_ret. auto.
  - auto.
Qed.

Lemma handlers_safe today h args s :
  In h (handlers today) -> wf s ->
  exists msg s', h args s = (Ok msg, s') /\ wf s'.
Proof.
  intros H W. simpl in H.
  destruct H as [<-|[<-|[<-|[<-|[<-|[<-|[<-|[]]]]]]]];
    apply input_error_safe; try exact W.
  - apply add_contact_safe.
  - apply change_contact_safe.
  - apply show_phone_safe.
  - apply AddressBook_str_safe.
  - apply add_birthday_safe.
  - apply show_birthday_safe.
  - apply birthdays_safe.
Qed.

Lemma wf_empty_book : wf empty_book.
Proof.
  split; [constructor|]. split; [constructor|].
  intros i j oi oj a b p L. discriminate.
Qed.

(** ** The birthday query *)

Section Query.

Variable today : date.
Variable days : Z.
Hypothesis today_valid : valid_date today.

(** What the loop body computes for one birthday. *)
Lemma congratulation_ok b adj :
  congratulation today b = Ok adj ->
  exists bd, strptime (value b) = Ok bd
             /\ valid_date (occurrence today bd) /\ valid_date adj
             /\ toordinal adj = toordinal (occurrence today bd)
                                + weekend_shift (occurrence today bd).
Proof.
  intros H. unfold congratulation in H.
  destruct (strptime (value b)) as [bd|e] eqn:S; [|discriminate].
  destruct (replace_year bd (year today)) as [this|e] eqn:R1; [|discriminate].
  apply replace_year_inv in R1. destruct R1 as [E1 V1].
  assert (O : exists occ,
             (if date_lt this today then replace_year this (year today + 1)
              else Ok this) = Ok occ
             /\ occ = occurrence today bd /\ valid_date occ).
  { unfold occurrence. fold (this_year today bd) in E1. rewrite <- E1.
    rewrite <- (date_lt_ordinal this today V1 today_valid).
    destruct (date_lt this today).
    - destruct (replace_year this (year today + 1)) as [nxt|e] eqn:R2;
        [|discriminate].
      apply replace_year_inv in R2. destruct R2 as [E2 V2].
      exists nxt. split; [reflexivity|]. split; [|exact V2].
      rewrite E2, E1. reflexivity.
    - exists this. auto. }
  destruct O as (occ & EO & -> & VO). rewrite EO in H.
  destruct (adjust_for_weekend_shift _ VO) as (d' & A & V' & T).
  rewrite A in H. inversion H; subst d'.
  exists bd. auto.
Qed.

Lemma congratulation_complete b bd :
  strptime (value b) = Ok bd ->
  valid_date (this_year today bd) -> valid_date (occurrence today bd) ->
  exists adj, congratulation today b = Ok adj.
Proof.
  intros S V1 VO. unfold congratulation. rewrite S.
  unfold replace_year at 1.
  rewrite date_new_ok by apply V1.
  fold (this_year today bd).
  rewrite (date_lt_ordinal _ today V1 today_valid).
  unfold occurrence in VO.
  destruct (toordinal (this_year today bd) <? toordinal today).
  - unfold replace_year. cbn [this_year month day].
    rewrite date_new_ok by apply VO.
    destruct (adjust_for_weekend_shift _ VO) as (d' & A & _). eauto.
  - destruct (adjust_for_weekend_shift _ VO) as (d' & A & _). eauto.
Qed.

Lemma upcoming_loop_state values : forall acc s r s',
  upcoming_loop today days values acc s = (r, s') -> s' = s.
Proof.
  induction values as [|v rest IH]; intros acc s r s'; simpl.
  - unfold ret. congruence.
  - unfold bind, getobj. destruct (objects s !! v) as [o|]; [|congruence].
    destruct (birthday o) as [b|]; [|apply IH].
    destruct (congratulation today b) as [adj|e]; simpl; [|congruence].
    destruct ((0 <=? days_between adj today)
              && (days_between adj today <=? days)); apply IH.
Qed.

Lemma reminded_cons s r rest entry :
  reminded today days s (r :: rest) entry
  <-> reminded today days s [r] entry \/ reminded today days s rest entry.
Proof.
  unfold reminded. split.
  - intros (r' & o & adj & [<-|I] & H).
    + left. exists r, o, adj. simpl. tauto.
    + right. exists r', o, adj. tauto.
  - intros [(r' & o & adj & [<-|[]] & H)|(r' & o & adj & I & H)].
    + exists r, o, adj. simpl. tauto.
    + exists r', o, adj. simpl. tauto.
Qed.

Lemma upcoming_loop_spec values :
  forall acc s res,
    upcoming_loop today days values acc s = (Ok res, s) ->
    forall entry, In entry res
                  <-> In entry acc \/ reminded today days s values entry.
Proof.
  induction values as [|r rest IH]; intros acc s res; simpl.
  - unfold ret. intros H entry. inversion H; subst.
    split; [auto|]. intros [H'|(r & o & adj & [] & _)]. exact H'.
  - unfold bind, getobj. destruct (objects s !! r) as [o|] eqn:L; [|discriminate].
    intros H entry. rewrite reminded_cons.
    destruct (birthday o) as [b|] eqn:B.
    + destruct (congratulation today b) as [adj|e] eqn:C; simpl in H;
        [|discriminate].
      destruct (congratulation_ok b adj C) as (bd & S & VO & VA & TA).
      assert (U : forall adj', due today days o adj' ->
                  adj' = adj /\ 0 <= days_between adj today <= days).
      { intros adj' (b' & bd' & B' & S' & VA' & TA' & W).
        rewrite B in B'. inversion B'; subst b'.
        rewrite S in S'. inversion S'; subst bd'.
        assert (adj' = adj) by (apply toordinal_inj; auto; lia).
        subst adj'. unfold days_between. auto. }
      destruct ((0 <=? days_between adj today)
                && (days_between adj today <=? days)) eqn:W.
      * rewrite (IH _ _ _ H entry), in_app_iff. simpl.
        apply andb_true_iff in W. rewrite !Z.leb_le in W.
        split.
        -- intros [[I|[<-|[]]]|I]; auto.
           right. left. exists r, o, adj. split; [left; reflexivity|].
           split; [exact L|]. split; [|reflexivity].
           exists b, bd. unfold days_between in W. auto.
        -- intros [I|[(r' & o' & adj' & [<-|[]] & L' & D & ->)|I]]; auto.
           rewrite L in L'. inversion L'; subst o'.
           destruct (U adj' D) as [-> _]. auto.
      * rewrite (IH _ _ _ H entry).
        split; [tauto|].
        intros [I|[(r' & o' & adj' & [<-|[]] & L' & D & ->)|I]]; auto.
        rewrite L in L'. inversion L'; subst o'.
        destruct (U adj' D) as [-> W'].
        apply andb_false_iff in W. rewrite !Z.leb_gt in W. lia.
    + rewrite (IH _ _ _ H entry).
      split; [tauto|].
      intros [I|[(r' & o' & adj' & [<-|[]] & L' & D & ->)|I]]; auto.
      rewrite L in L'. inversion L'; subst o'.
      destruct D as (b' & bd' & B' & _). congruence.
Qed.

Lemma upcoming_loop_total s values :
  Forall (allocated s) values ->
  (forall r o b, In r values -> objects s !! r = Some o ->
     birthday o = Some b ->
     exists bd, strptime (value b) = Ok bd
                /\ valid_date (this_year today bd)
                /\ valid_date (occurrence today bd)) ->
  forall acc, exists res, upcoming_loop today days values acc s = (Ok res, s).
Proof.
  induction values as [|r rest IH]; intros F H acc; simpl.
  - unfold ret. eauto.
  - inversion F as [|? ? A F']; subst.
    unfold bind, getobj. destruct (objects s !! r) as [o|] eqn:L.
    2:{ apply lookup_ge_None in L. unfold allocated in A. lia. }
    assert (H' : forall r o b, In r rest -> objects s !! r = Some o ->
                   birthday o = Some b ->
                   exists bd, strptime (value b) = Ok bd
                              /\ valid_date (this_year today bd)
                              /\ valid_date (occurrence today bd)).
    { intros r' o' b' I. apply (H r' o' b'). right. exact I. }
    destruct (birthday o) as [b|] eqn:B; [|apply IH; assumption].
    destruct (H r o b (or_introl eq_refl) L B)
      as (bd & S & V1 & VO).
    destruct (congratulation_complete b bd S V1 VO) as [adj C].
    rewrite C. simpl.
    destruct ((0 <=? days_between adj today)
              && (days_between adj today <=? days)); apply IH; assumption.
Qed.

End Query.

(** ** Adding a contact *)

Lemma ten_digits_nonempty phone : ten_digits phone -> phone <> [].
Proof. intros [L _] ->. discriminate. Qed.

(** The first call for a name: the record is created, then the phone is
    appended to it. *)
Lemma add_contact_new s nm phone rest :
  dict_get (data s) nm = None -> ten_digits phone ->
  add_contact (nm :: phone :: rest) s
  = (Ok (lit "Contact added."),
     mkState (objects s
              ++ [mkRecord (mkField nm) [length (phone_objects s)] None])
             (phone_objects s ++ [mkField phone])
             (data s ++ [(nm, length (objects s))])).
Proof.
  intros G V. pose proof (ten_digits_nonempty _ V) as NE.
  unfold add_contact, input_error, unpack2.
  unfold bind at 1. unfold ret at 1. cbv zeta. cbn [fst snd].
  unfold bind at 1. unfold find at 1. rewrite G.
  unfold bind at 1. rewrite create_record_eq. cbn [fst snd].
  destruct phone as [|c phone]; [congruence|].
  unfold bind at 1.
  rewrite (add_phone_valid _ _ (mkRecord (mkField nm) [] None));
    [|cbn [objects]; apply store_lookup_new|exact V].
  cbn [objects phone_objects data name phones birthday app].
  rewrite store_insert_new, dict_set_absent by exact G.
  reflexivity.
Qed.

(** A call for a name that is present: the record is reused. *)
Lemma add_contact_existing s nm phone rest r o :
  dict_get (data s) nm = Some r -> objects s !! r = Some o ->
  ten_digits phone ->
  add_contact (nm :: phone :: rest) s
  = (Ok (lit "Contact updated."),
     mkState (<[r := mkRecord (name o)
                       (phones o ++ [length (phone_objects s)])
                       (birthday o)]> (objects s))
             (phone_objects s ++ [mkField phone]) (data s)).
Proof.
  intros G L V. pose proof (ten_digits_nonempty _ V) as NE.
  unfold add_contact, input_error, unpack2.
  unfold bind at 1. unfold ret at 1. cbv zeta. cbn [fst snd].
  unfold bind at 1. unfold find at 1. rewrite G.
  unfold bind at 1. unfold ret at 1. cbn [fst snd].
  destruct phone as [|c phone]; [congruence|].
  unfold bind at 1.
  rewrite (add_phone_valid _ _ o); [reflexivity|exact L|exact V].
Qed.

(** A first call with a phone that is refused: the record stays. *)
Lemma add_contact_new_invalid s nm phone rest :
  dict_get (data s) nm = None -> phone <> [] -> ~ ten_digits phone ->
  add_contact (nm :: phone :: rest) s
  = (Ok (lit "Provide correct data."),
     mkState (objects s ++ [mkRecord (mkField nm) [] None]) (phone_objects s)
             (data s ++ [(nm, length (objects s))])).
Proof.
  intros G NE N.
  unfold add_contact, input_error, unpack2.
  unfold bind at 1. unfold ret at 1. cbv zeta. cbn [fst snd].
  unfold bind at 1. unfold find at 1. rewrite G.
  unfold bind at 1. rewrite create_record_eq. cbn [fst snd].
  destruct phone as [|c phone]; [congruence|].
  unfold bind at 1. rewrite add_phone_invalid by exact N.
  rewrite dict_set_absent by exact G. reflexivity.
Qed.

(** ** Handlers on a missing contact or phone *)

Lemma change_contact_unknown s nm old_phone new_phone rest :
  dict_get (data s) nm = None ->
  change_contact (nm :: old_phone :: new_phone :: rest) s
  = (Ok (lit "Contact not found."), s).
Proof.
  intros G. unfold change_contact, input_error, unpack3, bind, find, ret, attr.
  rewrite G. reflexivity.
Qed.

Lemma show_phone_unknown s nm rest :
  dict_get (data s) nm = None ->
  show_phone (nm :: rest) s = (Ok (lit "Contact not found."), s).
Proof.
  intros G. unfold show_phone, input_error, unpack1, bind, find, ret, attr.
  rewrite G. reflexivity.
Qed.

Lemma add_birthday_unknown s nm text rest :
  dict_get (data s) nm = None ->
  add_birthday (nm :: text :: rest) s = (Ok (lit "Contact not found."), s).
Proof.
  intros G. unfold add_birthday, input_error, unpack2, bind, find, ret, attr.
  cbn [fst snd]. rewrite G. reflexivity.
Qed.

Lemma show_birthday_unknown s nm rest :
  dict_get (data s) nm = None ->
  show_birthday (nm :: rest) s = (Ok (lit "Contact not found."), s).
Proof.
  intros G. unfold show_birthday, input_error, unpack1, bind, find, ret, attr.
  rewrite G. reflexivity.
Qed.

Lemma change_contact_missing_phone s nm old_phone new_phone rest r o :
  dict_get (data s) nm = Some r -> objects s !! r = Some o ->
  Forall (phone_allocated s) (phones o) ->
  no_phone_with_value s (phones o) old_phone ->
  change_contact (nm :: old_phone :: new_phone :: rest) s
  = (Ok (lit "Provide correct data."), s).
Proof.
  intros G L F H.
  unfold change_contact, input_error, unpack3.
  unfold bind at 1. unfold ret at 1.
  unfold bind at 1. unfold find at 1. rewrite G.
  unfold bind at 1. unfold attr, ret at 1.
  unfold bind at 1.
  rewrite (edit_phone_absent _ _ o) by assumption. reflexivity.
Qed.

Lemma show_birthday_set s nm rest r o b :
  dict_get (data s) nm = Some r -> objects s !! r = Some o ->
  birthday o = Some b ->
  show_birthday (nm :: rest) s = (Ok (value b), s).
Proof.
  intros G L B.
  unfold show_birthday, input_error, unpack1.
  unfold bind at 1. unfold ret at 1.
  unfold bind at 1. unfold find at 1. rewrite G.
  unfold bind at 1. unfold attr, ret at 1.
  unfold bind at 1. unfold getobj at 1. rewrite L, B. reflexivity.
Qed.

(** ** Canonical texts are read back *)

Ltac digits k :=
  let H := fresh in
  assert (H : k = 0 \/ k = 1 \/ k = 2 \/ k = 3 \/ k = 4 \/ k = 5 \/ k = 6
              \/ k = 7 \/ k = 8 \/ k = 9) by lia;
  repeat (destruct H as [H | H]); subst k.

Lemma digit_char_facts k :
  0 <= k <= 9 ->
  is_decimal (digit_char k) = true /\ decimal_value (digit_char k) = k
  /\ is_space (digit_char k) = false /\ is_ascii_digit (digit_char k) = true.
Proof.
  intros H. digits k; vm_compute; repeat split; reflexivity.
Qed.

Ltac side :=
  first [ reflexivity
        | unfold between; vm_compute; split; discriminate ].

Lemma day_field_pad2 d : 1 <= d <= 31 -> day_field (pad2 d).
Proof.
  intros H.
  assert (E : In d (List.map Z.of_nat (seq 1 31))).
  { apply in_map_iff. exists (Z.to_nat d). split; [lia|apply in_seq; lia]. }
  simpl in E.
  repeat (destruct E as [<-|E];
          [first [ apply day_3x; side | apply day_1x; side
                 | apply day_0x; side ]|]).
  destruct E.
Qed.

Lemma month_field_pad2 m : 1 <= m <= 12 -> month_field (pad2 m).
Proof.
  intros H. months m;
    first [ apply month_1x; side | apply month_0x; side ].
Qed.

Lemma py_int_pad2 k : 0 <= k <= 99 -> py_int (pad2 k) = k.
Proof.
  intros H. unfold py_int, pad2.
  assert (A : 0 <= k / 10 <= 9) by (Z.div_mod_to_equations; lia).
  assert (B : 0 <= k mod 10 <= 9) by (Z.div_mod_to_equations; lia).
  destruct (digit_char_facts _ A) as (_ & VA & SA & _).
  destruct (digit_char_facts _ B) as (_ & VB & _ & _).
  cbn [lstrip]. rewrite SA. cbn [fold_left]. rewrite VA, VB.
  Z.div_mod_to_equations. lia.
Qed.

Lemma py_int_pad4 y : 0 <= y <= 9999 -> py_int (pad4 y) = y.
Proof.
  intros H. unfold py_int, pad4.
  assert (A : 0 <= y / 1000 <= 9) by (Z.div_mod_to_equations; lia).
  assert (B : 0 <= y / 100 mod 10 <= 9) by (Z.div_mod_to_equations; lia).
  assert (C : 0 <= y / 10 mod 10 <= 9) by (Z.div_mod_to_equations; lia).
  assert (D : 0 <= y mod 10 <= 9) by (Z.div_mod_to_equations; lia).
  destruct (digit_char_facts _ A) as (_ & VA & SA & _).
  destruct (digit_char_facts _ B) as (_ & VB & _ & _).
  destruct (digit_char_facts _ C) as (_ & VC & _ & _).
  destruct (digit_char_facts _ D) as (_ & VD & _ & _).
  cbn [lstrip]. rewrite SA. cbn [fold_left]. rewrite VA, VB, VC, VD.
  Z.div_mod_to_equations. lia.
Qed.

Lemma year_field_pad4 y : 0 <= y <= 9999 -> year_field (pad4 y).
Proof.
  intros H. split; [reflexivity|]. unfold pad4.
  repeat constructor; apply digit_char_facts; Z.div_mod_to_equations; lia.
Qed.

Lemma strftime_written d : valid_date d -> written_as (strftime d) d.
Proof.
  intros (Hy & Hm & Hd). unfold MINYEAR, MAXYEAR in Hy.
  destruct (month_tables (year d) (month d) Hm) as (_ & B & _).
  exists (pad2 (day d)), (pad2 (month d)), (pad4 (year d)).
  split; [reflexivity|].
  split; [apply day_field_pad2; lia|].
  split; [apply month_field_pad2; lia|].
  split; [apply year_field_pad4; lia|].
  rewrite !py_int_pad2, py_int_pad4 by lia. destruct d; reflexivity.
Qed.

Lemma strptime_strftime d : valid_date d -> strptime (strftime d) = Ok d.
Proof.
  intros H. apply strptime_ok. split; [apply strftime_written|]; exact H.
Qed.

Lemma strftime_canonical d : valid_date d -> canonical_form (strftime d).
Proof.
  intros (Hy & Hm & Hd). unfold MINYEAR, MAXYEAR in Hy.
  destruct (month_tables (year d) (month d) Hm) as (_ & B & _).
  unfold canonical_form, strftime, pad2, pad4.
  do 8 eexists. split; [reflexivity|].
  repeat constructor; apply digit_char_facts; Z.div_mod_to_equations; lia.
Qed.

(** ** Occurrences that exist, and the 29th of February *)

Lemma other_year_valid bd y :
  valid_date bd -> ~ (month bd = 2 /\ day bd = 29) ->
  MINYEAR <= y <= MAXYEAR ->
  valid_date (mkDate y (month bd) (day bd)).
Proof.
  intros (Hy & Hm & Hd) N Y. unfold valid_date. cbn [year month day].
  split; [exact Y|]. split; [exact Hm|].
  destruct (days_in_month_cases (year bd) (month bd) Hm)
    as [[I E]|[[I E]|[M E]]];
    destruct (days_in_month_cases y (month bd) Hm)
      as [[I' E']|[[I' E']|[M' E']]];
    rewrite E in Hd; rewrite E'; simpl in *; try lia.
  destruct (is_leap (year bd)), (is_leap y); lia.
Qed.

Lemma occurrence_valid today bd :
  valid_date today -> year today < MAXYEAR ->
  valid_date bd -> ~ (month bd = 2 /\ day bd = 29) ->
  valid_date (this_year today bd) /\ valid_date (occurrence today bd).
Proof.
  intros Ht Y Hb N. pose proof Ht as (Hy & _).
  assert (V1 : valid_date (this_year today bd)).
  { apply other_year_valid; auto. }
  split; [exact V1|]. unfold occurrence.
  destruct (toordinal (this_year today bd) <? toordinal today); [|exact V1].
  apply other_year_valid; auto. unfold MINYEAR, MAXYEAR in *. lia.
Qed.

Lemma days_in_february y : days_in_month y 2 = if is_leap y then 29 else 28.
Proof. unfold days_in_month. destruct (is_leap y); reflexivity. Qed.

(** A birthday on 29.02 whose target year is not a leap year cannot be
    moved to that year. *)
Lemma congratulation_leap_day today b bd :
  valid_date today ->
  strptime (value b) = Ok bd -> month bd = 2 -> day bd = 29 ->
  is_leap (target_year today bd) = false ->
  congratulation today b = Raise (ValueError DateRange).
Proof.
  intros Ht S M D T. unfold congratulation. rewrite S.
  unfold replace_year at 1. rewrite M, D.
  destruct (is_leap (year today)) eqn:L.
  - assert (V : valid_date (mkDate (year today) 2 29)).
    { destruct Ht as (Hy & _). unfold valid_date. cbn [year month day].
      rewrite days_in_february, L. lia. }
    rewrite date_new_ok by apply V.
    assert (P : date_lt (mkDate (year today) 2 29) today = true).
    { unfold target_year in T. rewrite M, D in T.
      unfold date_lt. cbn [year month day].
      rewrite Z.ltb_irrefl, Z.eqb_refl. cbn [orb andb].
      destruct ((2 <? month today)
                || ((2 =? month today) && (29 <? day today))); [reflexivity|].
      congruence. }
    rewrite P. unfold replace_year. cbn [month day].
    rewrite date_new_raises; [reflexivity|]. intros (_ & _ & Hd).
    unfold target_year in T. rewrite M, D in T.
    unfold date_lt in P. cbn [year month day] in P.
    rewrite Z.ltb_irrefl, Z.eqb_refl in P. cbn [orb andb] in P.
    rewrite P in T.
    rewrite days_in_february, T in Hd. lia.
  - rewrite date_new_raises; [reflexivity|].
    intros (_ & _ & Hd). rewrite days_in_february, L in Hd. lia.
Qed.

Lemma upcoming_loop_raises today days s values r o b w0 :
  Forall (allocated s) values ->
  In r values -> objects s !! r = Some o -> birthday o = Some b ->
  congratulation today b = Raise (ValueError w0) ->
  forall acc, exists w,
    upcoming_loop today days values acc s = (Raise (ValueError w), s).
Proof.
  intros F I L B C. induction values as [|v rest IH]; intros acc; [destruct I|].
  inversion F as [|? ? A F']; subst. simpl.
  unfold bind, getobj.
  destruct (objects s !! v) as [o'|] eqn:L'.
  2:{ apply lookup_ge_None in L'. unfold allocated in A. lia. }
  destruct (decide (v = r)) as [->|Hne].
  - rewrite L in L'. inversion L'; subst o'. rewrite B, C. simpl. eauto.
  - assert (I' : In r rest) by (destruct I; [congruence|assumption]).
    destruct (birthday o') as [b'|]; [|apply IH; assumption].
    destruct (congratulation today b') as [adj|e] eqn:C'; simpl.
    + destruct ((0 <=? days_between adj today)
                && (days_between adj today <=? days)); apply IH; assumption.
    + apply congratulation_raises in C'. destruct C' as [w ->]. eauto.
Qed.

Lemma in_book_values s o :
  in_book s o
  <-> exists r, In r (List.map snd (data s)) /\ objects s !! r = Some o.
Proof.
  unfold in_book. split.
  - intros (k & r & I & L). exists r. split; [|exact L].
    apply in_map_iff. exists (k, r). auto.
  - intros (r & I & L). apply in_map_iff in I. destruct I as ([k r'] & E & I).
    simpl in E. subst r'. eauto.
Qed.

(** * The claims *)

(** Validity of a given date, by evaluation. *)
Ltac valid_by_computation :=
  unfold valid_date, MINYEAR, MAXYEAR; cbn [year month day];
  repeat split; vm_compute; discriminate.

(** A book of one record whose phones are distinct objects shares none. *)
Lemma no_sharing_single s o :
  objects s = [o] -> NoDup (phones o) -> no_sharing s.
Proof.
  intros E N i j oi oj a b p Li Lj Ha Hb. rewrite E in Li, Lj.
  apply list_lookup_singleton_Some in Li. destruct Li as [-> <-].
  apply list_lookup_singleton_Some in Lj. destruct Lj as [-> <-].
  split; [reflexivity|]. apply (NoDup_lookup (phones o) a b p N Ha Hb).
Qed.

(** Well-formedness of a given book of one record, by evaluation. *)
Ltac wf_by_computation :=
  split; [repeat constructor|split];
  [repeat constructor;
   try (intros b E; inversion E; subst; eexists; vm_compute; reflexivity);
   try discriminate
  |eapply no_sharing_single; [reflexivity|];
   cbn [phones]; repeat constructor; rewrite list_elem_of_In; simpl;
   intuition discriminate].

Lemma wf_new_year_book : wf new_year_book.
Proof. wf_by_computation. Qed.

Lemma wf_leap_day_book : wf leap_day_book.
Proof. wf_by_computation. Qed.

Lemma wf_two_phone_book : wf two_phone_book.
Proof. wf_by_computation. Qed.

Lemma no_leap_day_new_year_book : no_leap_day new_year_book.
Proof.
  intros o b bd (k & r & I & L) B S.
  destruct I as [I|[]]. inversion I; subst.
  vm_compute in L. inversion L; subst. simpl in B. inversion B; subst.
  vm_compute in S. inversion S; subst. simpl. intros [H _]. discriminate.
Qed.

(** C1. [get_upcoming_birthdays]: a record is in the result exactly when
    its birthday is set and the weekend-adjusted date of its occurrence
    (this year's, or next year's when this year's lies before today) is
    between 0 and [days] days ahead, both ends included; the query returns
    such a result whenever no birthday of the book is a 29th of February.
    A contact born on 01.01.2000, asked for on 30.12.2024 with 7 days, is
    reported with the date "01.01.2025". *)
Theorem upcoming_birthdays_rule :
  (forall today days s,
     valid_date today -> wf s ->
     (forall res s',
        get_upcoming_birthdays today days s = (Ok res, s') ->
        s' = s
        /\ forall entry,
             In entry res
             <-> exists o adj,
                   in_book s o /\ due today days o adj
                   /\ entry = mkReminder (value (name o)) (strftime adj))
     /\ (year today < MAXYEAR -> no_leap_day s ->
         exists res, get_upcoming_birthdays today days s = (Ok res, s)))
  /\ get_upcoming_birthdays (mkDate 2024 12 30) 7 new_year_book
     = (Ok [mkReminder (lit "Ann") (lit "01.01.2025")], new_year_book).
Proof.
  split; [|vm_compute; reflexivity].
  intros today days s Ht W. split.
  - intros res s' H. unfold get_upcoming_birthdays in H.
    pose proof (upcoming_loop_state _ _ _ _ _ _ _ H) as ->.
    split; [reflexivity|]. intros entry.
    rewrite (upcoming_loop_spec today days Ht _ [] s res H entry).
    unfold reminded. split.
    + intros [[]|(r & o & adj & I & L & D & E)].
      exists o, adj. split; [|auto]. apply in_book_values. eauto.
    + intros (o & adj & I & D & E). right.
      apply in_book_values in I. destruct I as (r & I & L).
      exists r, o, adj. auto.
  - intros Y N. unfold get_upcoming_birthdays.
    apply upcoming_loop_total; [exact Ht|apply wf_values; exact W|].
    intros r o b I L B.
    destruct (wf_lookup_birthday s r o b W L B) as [bd S].
    exists bd. split; [exact S|].
    apply occurrence_valid; auto.
    + apply strptime_ok in S. tauto.
    + apply (N o b bd); auto. apply in_book_values. eauto.
Qed.

Lemma upcoming_birthdays_rule_witness :
  exists res,
    get_upcoming_birthdays (mkDate 2024 12 30) 7 new_year_book
    = (Ok res, new_year_book).
Proof.
  apply (proj1 upcoming_birthdays_rule (mkDate 2024 12 30) 7 new_year_book).
  - valid_by_computation.
  - exact wf_new_year_book.
  - vm_compute; reflexivity.
  - exact no_leap_day_new_year_book.
Defined.

(** C2. Weekend adjustment: an occurrence on a Saturday is reported two
    days later, one on a Sunday one day later, in both cases on a Monday;
    an occurrence on a weekday is reported unchanged. *)
Theorem weekend_adjustment (d : date) :
  valid_date d ->
  (weekday d = 5 ->
   exists m, adjust_for_weekend d = Ok m /\ valid_date m
             /\ days_between m d = 2 /\ weekday m = 0)
  /\ (weekday d = 6 ->
      exists m, adjust_for_weekend d = Ok m /\ valid_date m
                /\ days_between m d = 1 /\ weekday m = 0)
  /\ (0 <= weekday d <= 4 -> adjust_for_weekend d = Ok d)
  /\ 0 <= weekday d <= 6.
Proof.
  intros V.
  destruct (adjust_for_weekend_shift d V) as (m & A & Vm & T).
  unfold weekend_shift in T.
  repeat split.
  - intros W. exists m. rewrite W in T. simpl in T.
    split; [exact A|]. split; [exact Vm|].
    unfold days_between, weekday in *. split; [lia|].
    rewrite T. Z.div_mod_to_equations. lia.
  - intros W. exists m. rewrite W in T. simpl in T.
    split; [exact A|]. split; [exact Vm|].
    unfold days_between, weekday in *. split; [lia|].
    rewrite T. Z.div_mod_to_equations. lia.
  - intros W. unfold adjust_for_weekend.
    destruct (Z.eqb_spec (weekday d) 5); [lia|].
    destruct (Z.eqb_spec (weekday d) 6); [lia|]. reflexivity.
  - unfold weekday. Z.div_mod_to_equations. lia.
  - unfold weekday. Z.div_mod_to_equations. lia.
Qed.

Lemma weekend_adjustment_witness :
  exists m, adjust_for_weekend (mkDate 2025 1 4) = Ok m /\ valid_date m
            /\ days_between m (mkDate 2025 1 4) = 2 /\ weekday m = 0.
Proof.
  apply (weekend_adjustment (mkDate 2025 1 4)).
  - valid_by_computation.
  - reflexivity.
Defined.

(** C3, counterexample. Ten ARABIC-INDIC digits are accepted as a phone
    number although none of them is an ASCII digit. *)
Lemma phone_arabic_indic_accepted :
  Phone_init arabic_indic_phone = Ok (mkField arabic_indic_phone)
  /\ ~ ten_ascii_digits arabic_indic_phone.
Proof.
  split; [reflexivity|]. intros [_ F]. inversion F; subst. discriminate.
Qed.

(** C3, as amended. [Phone] accepts a text exactly when it has ten
    characters, each a digit for [str.isdigit]; every other text is
    refused with the program's ValueError; ten ASCII digits are accepted,
    a number written with separators is not. *)
Theorem Phone_init_iff (raw : pystr) :
  (Phone_init raw = Ok (mkField raw) <-> ten_digits raw)
  /\ (~ ten_digits raw -> Phone_init raw = Raise (ValueError PhoneFormat))
  /\ (ten_ascii_digits raw -> Phone_init raw = Ok (mkField raw))
  /\ Phone_init (lit "050-123-45") = Raise (ValueError PhoneFormat).
Proof.
  split; [apply Phone_init_ok|]. split; [|split; [|reflexivity]].
  - intros N. destruct (Phone_init_cases raw) as [E|E]; [|exact E].
    apply Phone_init_ok in E. contradiction.
  - intros H. apply Phone_init_ok. apply ten_ascii_ten_digits. exact H.
Qed.

(** C4. [edit_phone]: when no phone of the record has the old value it
    raises the program's ValueError ("Old phone is not exist") and nothing
    changes; otherwise the new text is validated, a refused text changes
    nothing, and an accepted one becomes the value of the first matching
    [Phone] object: the list of the record's numbers changes at that
    position and nowhere else, and the other records keep their numbers.
    With the phones 1111111111 and 2222222222, editing 1111111111 into
    3333333333 gives 3333333333 and 2222222222. *)
Theorem edit_phone_in_place :
  (forall s self o old_phone new_phone,
     wf s -> objects s !! self = Some o ->
     (no_phone_with_value s (phones o) old_phone ->
      edit_phone self old_phone new_phone s
      = (Raise (ValueError OldPhoneMissing), s))
     /\ (forall i p,
           first_with_value s (phones o) old_phone i p ->
           (~ ten_digits new_phone ->
            edit_phone self old_phone new_phone s
            = (Raise (ValueError PhoneFormat), s))
           /\ (ten_digits new_phone ->
               exists s',
                 edit_phone self old_phone new_phone s = (Ok tt, s')
                 /\ objects s' = objects s /\ data s' = data s
                 /\ phone_objects s'
                    = <[p := mkField new_phone]> (phone_objects s)
                 /\ (forall vs, phones_of s o = Some vs ->
                       phones_of s' o = Some (<[i := new_phone]> vs))
                 /\ (forall j oj, j <> self -> objects s !! j = Some oj ->
                       phones_of s' oj = phones_of s oj))))
  /\ edit_phone 0%nat (lit "1111111111") (lit "3333333333") two_phone_book
     = (Ok tt,
        mkState [ann]
                [mkField (lit "3333333333"); mkField (lit "2222222222")]
                [(lit "Ann", 0%nat)])
  /\ phones_of (mkState [ann]
                  [mkField (lit "3333333333"); mkField (lit "2222222222")]
                  [(lit "Ann", 0%nat)]) ann
     = Some [lit "3333333333"; lit "2222222222"].
Proof.
  split; [|split; vm_compute; reflexivity].
  intros s self o old_phone new_phone W L.
  pose proof (wf_phones_allocated s self o W L) as F. split.
  - apply edit_phone_absent; assumption.
  - intros i p H. split.
    + apply (edit_phone_invalid s self o old_phone new_phone i p); assumption.
    + intros V. eexists.
      split; [apply (edit_phone_valid s self o old_phone new_phone i p);
              assumption|].
      cbn [objects phone_objects data].
      split; [reflexivity|]. split; [reflexivity|]. split; [reflexivity|].
      destruct H as (Li & _). split.
      * intros vs T. unfold phones_of in *. cbn [phone_objects].
        apply texts_insert; [|exact Li|exact T].
        apply (wf_phones_NoDup s self o W L).
      * intros j oj Hj Lj. unfold phones_of. cbn [phone_objects].
        apply texts_insert_other. intros I.
        apply list_elem_of_In in I. apply list_elem_of_lookup in I.
        destruct I as [b Lb]. destruct W as (_ & _ & N).
        destruct (N j self oj o b i p Lj L Lb Li) as [E _]. contradiction.
Qed.

Lemma edit_phone_in_place_witness :
  edit_phone 0%nat (lit "9999999999") (lit "3333333333") two_phone_book
  = (Raise (ValueError OldPhoneMissing), two_phone_book).
Proof.
  apply (proj1 edit_phone_in_place two_phone_book 0%nat ann).
  - exact wf_two_phone_book.
  - reflexivity.
  - intros p x [<-|[<-|[]]] E; vm_compute in E; inversion E; subst;
      vm_compute; discriminate.
Defined.

(** C5, counterexample. The contact exists, no phone of it equals the old
    one: [change_contact] answers "Provide correct data.". *)
Lemma change_contact_missing_phone_message :
  change_contact [lit "Ann"; lit "9999999999"; lit "3333333333"]
                 two_phone_book
  = (Ok (lit "Provide correct data."), two_phone_book)
  /\ lit "Provide correct data." <> lit "Contact not found.".
Proof. split; [vm_compute; reflexivity|vm_compute; discriminate]. Qed.

(** C5, as amended. No exception leaves a handler: in a well-formed state
    each handler returns a text, and the state stays well-formed.  An
    operation on a contact that is missing is answered with
    "Contact not found."; [change_contact] answers so when the name is
    unknown, and answers "Provide correct data." when the contact exists
    and none of its phones equals the old one. *)
Theorem handler_error_translation (today : date) (s : state) :
  wf s ->
  (forall h args, In h (handlers today) ->
     exists msg s', h args s = (Ok msg, s') /\ wf s')
  /\ (forall nm a b rest,
        dict_get (data s) nm = None ->
        change_contact (nm :: a :: b :: rest) s
        = (Ok (lit "Contact not found."), s)
        /\ show_phone (nm :: rest) s = (Ok (lit "Contact not found."), s)
        /\ add_birthday (nm :: a :: rest) s
           = (Ok (lit "Contact not found."), s)
        /\ show_birthday (nm :: rest) s
           = (Ok (lit "Contact not found."), s))
  /\ (forall nm old_phone new_phone rest o,
        record_of s nm = Some o ->
        no_phone_with_value s (phones o) old_phone ->
        change_contact (nm :: old_phone :: new_phone :: rest) s
        = (Ok (lit "Provide correct data."), s)).
Proof.
  intros W. split; [|split].
  - intros h args I. apply (handlers_safe today); assumption.
  - intros nm a b rest G.
    split; [apply change_contact_unknown; exact G|].
    split; [apply show_phone_unknown; exact G|].
    split; [apply add_birthday_unknown; exact G|].
    apply show_birthday_unknown; exact G.
  - intros nm old_phone new_phone rest o R H. unfold record_of in R.
    destruct (dict_get (data s) nm) as [r|] eqn:G; [|discriminate].
    apply (change_contact_missing_phone s nm old_phone new_phone rest r o);
      try assumption.
    apply (wf_phones_allocated s r o W R).
Qed.

Lemma handler_error_translation_witness :
  change_contact [lit "Bob"; lit "1111111111"; lit "3333333333"]
                 two_phone_book
  = (Ok (lit "Contact not found."), two_phone_book).
Proof.
  apply (handler_error_translation (mkDate 2024 12 30) two_phone_book).
  - exact wf_two_phone_book.
  - reflexivity.
Defined.

(** C6. A record whose birthday is a 29th of February, looked for in a
    target year that is not a leap year: the query raises the ValueError
    of the date constructor instead of returning a list, and the handler
    [birthdays] answers "Provide correct data.". *)
Theorem leap_day_fails (today : date) (days : Z) (args : list pystr)
    (s : state) (o : ContactRecord) (b : Birthday) (bd : date) :
  valid_date today -> wf s ->
  in_book s o -> birthday o = Some b -> strptime (value b) = Ok bd ->
  month bd = 2 -> day bd = 29 ->
  is_leap (target_year today bd) = false ->
  (exists w, get_upcoming_birthdays today days s = (Raise (ValueError w), s))
  /\ birthdays today args s = (Ok (lit "Provide correct data."), s).
Proof.
  intros Ht W I B S M D T.
  apply in_book_values in I. destruct I as (r & I & L).
  pose proof (congratulation_leap_day today b bd Ht S M D T) as C.
  assert (R : forall n, exists w,
             get_upcoming_birthdays today n s = (Raise (ValueError w), s)).
  { intros n. unfold get_upcoming_birthdays.
    apply (upcoming_loop_raises today n s _ r o b DateRange);
      auto using wf_values. }
  split; [apply R|].
  destruct (R 7) as [w E].
  unfold birthdays, input_error, bind. rewrite E. reflexivity.
Qed.

Lemma leap_day_fails_witness :
  (exists w, get_upcoming_birthdays (mkDate 2025 2 1) 7 leap_day_book
             = (Raise (ValueError w), leap_day_book))
  /\ birthdays (mkDate 2025 2 1) [] leap_day_book
     = (Ok (lit "Provide correct data."), leap_day_book).
Proof.
  apply (leap_day_fails (mkDate 2025 2 1) 7 [] leap_day_book
           (mkRecord (mkField (lit "Leo")) []
                     (Some (mkField (lit "29.02.2000"))))
           (mkField (lit "29.02.2000")) (mkDate 2000 2 29)).
  - valid_by_computation.
  - exact wf_leap_day_book.
  - exists (lit "Leo"), 0%nat. split; [left|]; reflexivity.
  - reflexivity.
  - vm_compute; reflexivity.
  - reflexivity.
  - reflexivity.
  - vm_compute; reflexivity.
Defined.

(** C7. [add_contact]: the first call for a name creates a record, puts
    it into the book and answers "Contact added."; a call for a name that
    is present reuses its record and answers "Contact updated."; after two
    calls with the same new name and two valid phones the book has one
    entry for the name, and its record holds both phones in that order. *)
Theorem add_contact_twice :
  (forall s nm phone rest,
     dict_get (data s) nm = None -> ten_digits phone ->
     add_contact (nm :: phone :: rest) s
     = (Ok (lit "Contact added."),
        mkState (objects s
                 ++ [mkRecord (mkField nm) [length (phone_objects s)] None])
                (phone_objects s ++ [mkField phone])
                (data s ++ [(nm, length (objects s))])))
  /\ (forall s nm phone rest r o,
        dict_get (data s) nm = Some r -> objects s !! r = Some o ->
        ten_digits phone ->
        add_contact (nm :: phone :: rest) s
        = (Ok (lit "Contact updated."),
           mkState (<[r := mkRecord (name o)
                             (phones o ++ [length (phone_objects s)])
                             (birthday o)]> (objects s))
                   (phone_objects s ++ [mkField phone]) (data s)))
  /\ (forall s nm p1 p2 rest1 rest2,
        dict_get (data s) nm = None -> ten_digits p1 -> ten_digits p2 ->
        exists s1 s2 o,
          add_contact (nm :: p1 :: rest1) s = (Ok (lit "Contact added."), s1)
          /\ add_contact (nm :: p2 :: rest2) s1
             = (Ok (lit "Contact updated."), s2)
          /\ length (objects s2) = length (objects s1)
          /\ data s2 = data s1
          /\ entries_for s2 nm = 1%nat
          /\ record_of s2 nm = Some o
          /\ name o = mkField nm
          /\ phones_of s2 o = Some [p1; p2]).
Proof.
  split; [|split].
  - intros s nm phone rest G V. apply add_contact_new; assumption.
  - intros s nm phone rest r o G L V. apply add_contact_existing; assumption.
  - intros s nm p1 p2 rest1 rest2 G V1 V2.
    eexists. eexists. eexists.
    split; [apply add_contact_new; assumption|].
    split.
    { apply (add_contact_existing _ nm p2 rest2 (length (objects s))
               (mkRecord (mkField nm) [length (phone_objects s)] None)).
      - cbn [data]. apply dict_get_app_absent. exact G.
      - cbn [objects]. apply store_lookup_new.
      - exact V2. }
    cbn [objects phone_objects data name phones birthday app].
    rewrite store_insert_new.
    split; [rewrite !length_app; reflexivity|].
    split; [reflexivity|].
    split.
    { unfold entries_for. cbn [data]. rewrite List.filter_app.
      rewrite dict_get_absent_filter by exact G.
      simpl. rewrite pystr_eqb_refl. reflexivity. }
    split.
    { unfold record_of. cbn [data objects].
      rewrite dict_get_app_absent by exact G. apply store_lookup_new. }
    split; [reflexivity|].
    unfold phones_of. cbn [phone_objects phones texts].
    rewrite lookup_app_l by (rewrite length_app; simpl; lia).
    rewrite !store_lookup_new. reflexivity.
Qed.

Lemma add_contact_twice_witness :
  exists s1 s2 o,
    add_contact [lit "Bob"; lit "1111111111"] empty_book
    = (Ok (lit "Contact added."), s1)
    /\ add_contact [lit "Bob"; lit "2222222222"] s1
       = (Ok (lit "Contact updated."), s2)
    /\ length (objects s2) = length (objects s1)
    /\ data s2 = data s1
    /\ entries_for s2 (lit "Bob") = 1%nat
    /\ record_of s2 (lit "Bob") = Some o
    /\ name o = mkField (lit "Bob")
    /\ phones_of s2 o = Some [lit "1111111111"; lit "2222222222"].
Proof.
  apply (proj2 (proj2 add_contact_twice) empty_book (lit "Bob")
           (lit "1111111111") (lit "2222222222") [] []).
  - reflexivity.
  - apply Phone_init_ok. vm_compute. reflexivity.
  - apply Phone_init_ok. vm_compute. reflexivity.
Defined.

(** C8. [Birthday] accepts a text exactly when it is written
    day.month.year, the fields being those the directives [%d], [%m] and
    [%Y] read (the year has four digits), and the three numbers are a date
    of the Gregorian calendar; every other text is refused with the
    program's ValueError.  "29.02.2021" is refused, "29.02.2020" is
    accepted. *)
Theorem Birthday_init_iff (raw : pystr) :
  (Birthday_init raw = Ok (mkField raw) <-> parses_as_date raw)
  /\ (~ parses_as_date raw -> Birthday_init raw = Raise (ValueError DateFormat))
  /\ Birthday_init (lit "29.02.2021") = Raise (ValueError DateFormat)
  /\ Birthday_init (lit "29.02.2020") = Ok (mkField (lit "29.02.2020")).
Proof.
  split; [apply Birthday_init_ok|].
  split; [|split; vm_compute; reflexivity].
  intros N. destruct (Birthday_init_cases raw) as [E|E]; [|exact E].
  apply Birthday_init_ok in E. contradiction.
Qed.

(** C9, counterexample. The text "1.1.2000" is accepted and rendered as
    it was written, which is not the form DD.MM.YYYY. *)
Lemma birthday_rendering_not_canonical :
  Birthday_init (lit "1.1.2000") = Ok (mkField (lit "1.1.2000"))
  /\ Birthday_str (mkField (lit "1.1.2000")) = lit "1.1.2000"
  /\ ~ canonical_form (lit "1.1.2000").
Proof.
  split; [vm_compute; reflexivity|]. split; [reflexivity|].
  intros (d1 & d2 & m1 & m2 & y1 & y2 & y3 & y4 & E & _).
  vm_compute in E. discriminate.
Qed.

(** C9, as amended. The rendering of a [Birthday], also as [show_birthday]
    returns it, is the accepted text as it was written; it has the form
    DD.MM.YYYY when the text was written so, and the text DD.MM.YYYY of a
    date is accepted and read back as that date. *)
Theorem birthday_rendering :
  (forall raw b,
     Birthday_init raw = Ok b ->
     Birthday_str b = raw
     /\ (canonical_form raw -> canonical_form (Birthday_str b))
     /\ (forall s nm rest r o,
           dict_get (data s) nm = Some r -> objects s !! r = Some o ->
           birthday o = Some b ->
           show_birthday (nm :: rest) s = (Ok raw, s)))
  /\ (forall d,
        valid_date d ->
        Birthday_init (strftime d) = Ok (mkField (strftime d))
        /\ canonical_form (Birthday_str (mkField (strftime d)))
        /\ strptime (strftime d) = Ok d).
Proof.
  split.
  - intros raw b H.
    assert (E : b = mkField raw).
    { destruct (Birthday_init_cases raw) as [E|E]; rewrite E in H;
        congruence. }
    subst b. split; [reflexivity|]. split; [auto|].
    intros s nm rest r o G L B.
    apply (show_birthday_set s nm rest r o (mkField raw)); assumption.
  - intros d V. pose proof (strptime_strftime d V) as S.
    split; [unfold Birthday_init; rewrite S; reflexivity|].
    split; [apply strftime_canonical; exact V|exact S].
Qed.

Lemma birthday_rendering_witness :
  Birthday_str (mkField (lit "1.1.2000")) = lit "1.1.2000"
  /\ (canonical_form (lit "1.1.2000")
      -> canonical_form (Birthday_str (mkField (lit "1.1.2000"))))
  /\ (forall s nm rest r o,
        dict_get (data s) nm = Some r -> objects s !! r = Some o ->
        birthday o = Some (mkField (lit "1.1.2000")) ->
        show_birthday (nm :: rest) s = (Ok (lit "1.1.2000"), s)).
Proof.
  apply (proj1 birthday_rendering (lit "1.1.2000") (mkField (lit "1.1.2000"))).
  vm_compute. reflexivity.
Defined.

(** C10, counterexample. The empty text is refused by [Phone], yet
    [add_contact] with an empty phone never validates it and answers
    "Contact added.". *)
Lemma add_contact_empty_phone :
  Phone_init [] = Raise (ValueError PhoneFormat)
  /\ add_contact [lit "Bob"; []] empty_book
     = (Ok (lit "Contact added."),
        mkState [mkRecord (mkField (lit "Bob")) [] None] []
                [(lit "Bob", 0%nat)]).
Proof. split; vm_compute; reflexivity. Qed.

(** C10, as amended. [add_contact] for a name that is absent, with a
    phone that is not empty and that [Phone] refuses: the answer is
    "Provide correct data.", and the book has changed all the same, a new
    record with that name and no phone being in it. *)
Theorem add_contact_not_atomic (s : state) (nm phone : pystr)
    (rest : list pystr) :
  dict_get (data s) nm = None ->
  phone <> [] ->
  Phone_init phone = Raise (ValueError PhoneFormat) ->
  exists s',
    add_contact (nm :: phone :: rest) s
    = (Ok (lit "Provide correct data."), s')
    /\ s' = mkState (objects s ++ [mkRecord (mkField nm) [] None])
                    (phone_objects s)
                    (data s ++ [(nm, length (objects s))])
    /\ record_of s nm = None
    /\ record_of s' nm = Some (mkRecord (mkField nm) [] None).
Proof.
  intros G NE P.
  assert (N : ~ ten_digits phone).
  { intros V. apply Phone_init_ok in V. congruence. }
  eexists. split; [apply add_contact_new_invalid; assumption|].
  split; [reflexivity|]. split.
  - unfold record_of. rewrite G. reflexivity.
  - unfold record_of. cbn [data objects].
    rewrite dict_get_app_absent by exact G. apply store_lookup_new.
Qed.

Lemma add_contact_not_atomic_witness :
  exists s',
    add_contact [lit "Bob"; lit "12345"] empty_book
    = (Ok (lit "Provide correct data."), s')
    /\ s' = mkState ([] ++ [mkRecord (mkField (lit "Bob")) [] None]) []
                    ([] ++ [(lit "Bob", 0%nat)])
    /\ record_of empty_book (lit "Bob") = None
    /\ record_of s' (lit "Bob")
       = Some (mkRecord (mkField (lit "Bob")) [] None).
Proof.
  apply (add_contact_not_atomic empty_book (lit "Bob") (lit "12345") []).
  - reflexivity.
  - vm_compute. discriminate.
  - vm_compute. reflexivity.
Defined.

(** * Further properties of the program *)

Lemma upcoming_loop_order today days s values : forall acc res,
  upcoming_loop today days values acc s = (Ok res, s) ->
  exists ls,
    Forall2 (fun r l => exists o, objects s !! r = Some o
                                  /\ record_reminders today days o = Ok l)
            values ls
    /\ res = acc ++ concat ls.
Proof.
  induction values as [|r rest IH]; intros acc res; simpl.
  - unfold ret. intros H. inversion H; subst. exists [].
    split; [constructor|]. simpl. rewrite app_nil_r. reflexivity.
  - unfold bind, getobj. destruct (objects s !! r) as [o|] eqn:L; [|discriminate].
    intros H.
    assert (G : forall l acc',
               record_reminders today days o = Ok l ->
               upcoming_loop today days rest acc' s = (Ok res, s) ->
               acc' = acc ++ l ->
               exists ls,
                 Forall2 (fun r l => exists o, objects s !! r = Some o
                            /\ record_reminders today days o = Ok l)
                         (r :: rest) ls
                 /\ res = acc ++ concat ls).
    { intros l acc' R H' ->. destruct (IH _ _ H') as (ls & F & ->).
      exists (l :: ls). split; [constructor; eauto|].
      simpl. rewrite app_assoc. reflexivity. }
    unfold record_reminders in G.
    destruct (birthday o) as [b|].
    + destruct (congratulation today b) as [adj|e]; simpl in H; [|discriminate].
      destruct ((0 <=? days_between adj today)
                && (days_between adj today <=? days)).
      * eapply G; [reflexivity|exact H|reflexivity].
      * eapply G; [reflexivity|exact H|]. rewrite app_nil_r. reflexivity.
    + eapply G; [reflexivity|exact H|]. rewrite app_nil_r. reflexivity.
Qed.

(** X1. The result of [get_upcoming_birthdays] follows the order in which
    the book iterates over its records: it is the concatenation, record
    after record in the order of the dictionary, of what each record
    contributes. *)
Theorem upcoming_in_book_order (today : date) (days : Z) (s : state)
    (res : list reminder) :
  get_upcoming_birthdays today days s = (Ok res, s) ->
  exists ls,
    Forall2 (fun kv l => exists o, objects s !! snd kv = Some o
                                   /\ record_reminders today days o = Ok l)
            (data s) ls
    /\ res = concat ls.
Proof.
  unfold get_upcoming_birthdays. intros H.
  destruct (upcoming_loop_order _ _ _ _ _ _ H) as (ls & F & ->).
  exists ls. split; [|reflexivity].
  clear H. revert ls F. induction (data s) as [|kv d IH]; intros ls F.
  - inversion F; subst. constructor.
  - simpl in F. inversion F; subst. constructor; auto.
Qed.

Lemma upcoming_in_book_order_witness :
  exists ls,
    Forall2 (fun kv l => exists o, objects new_year_book !! snd kv = Some o
               /\ record_reminders (mkDate 2024 12 30) 7 o = Ok l)
            (data new_year_book) ls
    /\ [mkReminder (lit "Ann") (lit "01.01.2025")] = concat ls.
Proof.
  apply (upcoming_in_book_order (mkDate 2024 12 30) 7 new_year_book).
  vm_compute. reflexivity.
Defined.

(** X2. [show_phone]: the phones of the contact joined by "; ", the text
    "No phone numbers." when it has none, "Contact not found." when the
    name is unknown; the book is not changed. *)
Theorem show_phone_answers (s : state) (nm : pystr) (rest : list pystr) :
  (dict_get (data s) nm = None ->
   show_phone (nm :: rest) s = (Ok (lit "Contact not found."), s))
  /\ (forall o vs, record_of s nm = Some o -> phones_of s o = Some vs ->
        show_phone (nm :: rest) s
        = (Ok (match vs with
               | [] => lit "No phone numbers."
               | _ => join (lit "; ") vs
               end), s)).
Proof.
  split; [apply show_phone_unknown|].
  intros o vs R T. unfold record_of in R. unfold phones_of in T.
  destruct (dict_get (data s) nm) as [r|] eqn:G; [|discriminate].
  unfold show_phone, input_error, unpack1.
  unfold bind at 1. unfold ret at 1.
  unfold bind at 1. unfold find at 1. rewrite G.
  unfold bind at 1. unfold attr, ret at 1.
  unfold bind at 1. unfold getobj at 1. rewrite R.
  pose proof (texts_length _ _ _ T) as Len.
  destruct (phones o) as [|p ps] eqn:E.
  - destruct vs; [reflexivity|discriminate].
  - unfold bind at 1. rewrite (phone_values_texts s _ vs T).
    destruct vs; [discriminate|reflexivity].
Qed.

(** X3. A handler that is given too few arguments answers
    "Provide correct data." (unpacking raises ValueError) and changes
    nothing. *)
Theorem too_few_arguments (s : state) (a b : pystr) :
  add_contact [] s = (Ok (lit "Provide correct data."), s)
  /\ add_contact [a] s = (Ok (lit "Provide correct data."), s)
  /\ change_contact [] s = (Ok (lit "Provide correct data."), s)
  /\ change_contact [a] s = (Ok (lit "Provide correct data."), s)
  /\ change_contact [a; b] s = (Ok (lit "Provide correct data."), s)
  /\ show_phone [] s = (Ok (lit "Provide correct data."), s)
  /\ add_birthday [] s = (Ok (lit "Provide correct data."), s)
  /\ add_birthday [a] s = (Ok (lit "Provide correct data."), s)
  /\ show_birthday [] s = (Ok (lit "Provide correct data."), s).
Proof. repeat split. Qed.

(** X4. [add_birthday] for a contact of the book: a text that [Birthday]
    accepts is stored as the birthday of the record, replacing an earlier
    one, and the answer is "Birthday added."; a text that it refuses
    gives "Provide correct data." and changes nothing. *)
Theorem add_birthday_sets (s : state) (nm text : pystr) (rest : list pystr)
    (r : ref) (o : ContactRecord) :
  dict_get (data s) nm = Some r -> objects s !! r = Some o ->
  (parses_as_date text ->
   add_birthday (nm :: text :: rest) s
   = (Ok (lit "Birthday added."),
      mkState (<[r := mkRecord (name o) (phones o) (Some (mkField text))]>
                 (objects s))
              (phone_objects s) (data s)))
  /\ (~ parses_as_date text ->
      add_birthday (nm :: text :: rest) s
      = (Ok (lit "Provide correct data."), s)).
Proof.
  intros G L. split; intros P.
  - apply Birthday_init_ok in P.
    unfold add_birthday, input_error, unpack2.
    unfold bind at 1. unfold ret at 1. cbn [fst snd].
    unfold bind at 1. unfold find at 1. rewrite G.
    unfold bind at 1. unfold attr, ret at 1.
    unfold bind at 1. unfold Record_add_birthday.
    unfold bind at 1. rewrite P. unfold lift, ret at 1.
    unfold bind at 1. unfold getobj at 1. rewrite L.
    reflexivity.
  - assert (E : Birthday_init text = Raise (ValueError DateFormat)).
    { destruct (Birthday_init_cases text) as [E|E]; [|exact E].
      apply Birthday_init_ok in E. contradiction. }
    unfold add_birthday, input_error, unpack2.
    unfold bind at 1. unfold ret at 1. cbn [fst snd].
    unfold bind at 1. unfold find at 1. rewrite G.
    unfold bind at 1. unfold attr, ret at 1.
    unfold bind at 1. unfold Record_add_birthday.
    unfold bind at 1. rewrite E. reflexivity.
Qed.

Lemma add_birthday_sets_witness :
  add_birthday [lit "Ann"; lit "29.02.2020"] two_phone_book
  = (Ok (lit "Birthday added."),
     mkState (<[0%nat := mkRecord (name ann) (phones ann)
                           (Some (mkField (lit "29.02.2020")))]>
                (objects two_phone_book))
             (phone_objects two_phone_book) (data two_phone_book)).
Proof.
  apply (add_birthday_sets two_phone_book (lit "Ann") (lit "29.02.2020") []
           0%nat ann).
  - reflexivity.
  - reflexivity.
  - apply Birthday_init_ok. vm_compute. reflexivity.
Defined.

Lemma dict_get_set_eq d k v : dict_get (dict_set d k v) k = Some v.
Proof.
  induction d as [|[k' v'] d IH]; simpl.
  - rewrite pystr_eqb_refl. reflexivity.
  - destruct (pystr_eqb k' k) eqn:E; simpl; rewrite E; [reflexivity|exact IH].
Qed.

Lemma dict_get_set_ne d k v k' :
  k' <> k -> dict_get (dict_set d k v) k' = dict_get d k'.
Proof.
  intros N. induction d as [|[k0 v0] d IH]; simpl.
  - destruct (pystr_eqb k k') eqn:E; [|reflexivity].
    apply pystr_eqb_eq in E. congruence.
  - destruct (pystr_eqb k0 k) eqn:E; simpl.
    + apply pystr_eqb_eq in E. subst k0.
      destruct (pystr_eqb k k') eqn:E'; [|reflexivity].
      apply pystr_eqb_eq in E'. congruence.
    + destruct (pystr_eqb k0 k'); [reflexivity|exact IH].
Qed.

Lemma dict_set_present_keys d k v r0 :
  dict_get d k = Some r0 ->
  List.map fst (dict_set d k v) = List.map fst d.
Proof.
  induction d as [|[k' v'] d IH]; simpl; [discriminate|].
  destruct (pystr_eqb k' k); simpl; [reflexivity|].
  intros H. rewrite IH by exact H. reflexivity.
Qed.

(** X5. [add_record] puts the record under its name: [find] then returns
    it, the other names keep their records, a name that was present keeps
    its place in the order of the book (the earlier record is replaced
    without an error), and a new name goes last.  [delete] of an unknown
    name raises KeyError and changes nothing. *)
Theorem add_record_overwrites (s : state) (record : ref)
    (o : ContactRecord) :
  objects s !! record = Some o ->
  (exists s',
     add_record record s = (Ok tt, s') /\ objects s' = objects s
     /\ find (value (name o)) s' = (Ok (Some record), s')
     /\ (forall k, k <> value (name o) ->
           dict_get (data s') k = dict_get (data s) k)
     /\ (forall r0, dict_get (data s) (value (name o)) = Some r0 ->
           keys s' = keys s)
     /\ (dict_get (data s) (value (name o)) = None ->
         keys s' = keys s ++ [value (name o)]))
  /\ (forall nm, dict_get (data s) nm = None ->
        delete_record nm s = (Raise KeyError, s)).
Proof.
  intros L. split.
  - eexists. split.
    { unfold add_record, bind, getobj. rewrite L. reflexivity. }
    cbn [objects data]. split; [reflexivity|].
    split; [unfold find; cbn [data]; rewrite dict_get_set_eq; reflexivity|].
    split; [intros k N; apply dict_get_set_ne; exact N|].
    split.
    + intros r0 G. unfold keys. cbn [data].
      apply (dict_set_present_keys _ _ _ r0). exact G.
    + intros G. unfold keys. cbn [data]. rewrite dict_set_absent by exact G.
      rewrite List.map_app. reflexivity.
  - intros nm G. unfold delete_record. rewrite G. reflexivity.
Qed.

Lemma add_record_overwrites_witness :
  delete_record (lit "Bob") two_phone_book = (Raise KeyError, two_phone_book).
Proof.
  apply (proj2 (add_record_overwrites two_phone_book 0%nat ann eq_refl)).
  reflexivity.
Defined.

(** X6. [remove_phone] removes the first phone with the given value and
    keeps the others in their order; when no phone has that value,
    [list.remove] is handed [None] and raises ValueError, the record
    staying as it was. *)
Theorem remove_phone_first (s : state) (self : ref) (o : ContactRecord)
    (phone : pystr) :
  wf s -> objects s !! self = Some o ->
  (no_phone_with_value s (phones o) phone ->
   remove_phone self phone s = (Raise (ValueError NotInList), s))
  /\ (forall i p, first_with_value s (phones o) phone i p ->
        remove_phone self phone s
        = (Ok tt,
           mkState (<[self := mkRecord (name o) (delete i (phones o))
                                (birthday o)]> (objects s))
                   (phone_objects s) (data s))).
Proof.
  intros W L. pose proof (wf_phones_allocated s self o W L) as F. split.
  - intros H. unfold remove_phone, find_phone.
    unfold bind at 1. unfold bind at 1. unfold getobj at 1. rewrite L.
    rewrite (find_phone_loop_none s _ _ F H).
    unfold bind, getobj. rewrite L. reflexivity.
  - intros i p H. unfold remove_phone, find_phone.
    unfold bind at 1. unfold bind at 1. unfold getobj at 1. rewrite L.
    rewrite (find_phone_loop_first s _ _ i p F H).
    unfold bind, getobj. rewrite L.
    rewrite (first_with_value_remove s _ _ i p H). reflexivity.
Qed.

Lemma remove_phone_first_witness :
  remove_phone 0%nat (lit "9999999999") two_phone_book
  = (Raise (ValueError NotInList), two_phone_book).
Proof.
  apply (proj1 (remove_phone_first two_phone_book 0%nat ann
                  (lit "9999999999") wf_two_phone_book eq_refl)).
  intros p x [<-|[<-|[]]] E; vm_compute in E; inversion E; subst;
    vm_compute; discriminate.
Defined.

(** * Further properties of the handlers *)

(** ** Handlers that only read *)

Lemma input_error_state func s : snd (input_error func s) = snd (func s).
Proof.
  unfold input_error. destruct (func s) as [[v|[w| | | | |]] s']; reflexivity.
Qed.

Lemma phone_values_snd ps s : snd (phone_values ps s) = s.
Proof.
  destruct (phone_values ps s) as [r s'] eqn:E.
  apply phone_values_state in E. exact E.
Qed.

Lemma show_phone_state args s : snd (show_phone args s) = s.
Proof.
  unfold show_phone. rewrite input_error_state.
  destruct args as [|nm rest]; [reflexivity|].
  unfold unpack1. unfold bind at 1. unfold ret at 1.
  unfold bind at 1. unfold find at 1.
  destruct (dict_get (data s) nm) as [r|]; [|reflexivity].
  unfold bind at 1. unfold attr, ret at 1.
  unfold bind at 1. unfold getobj at 1.
  destruct (objects s !! r) as [o|]; [|reflexivity].
  destruct (phones o) as [|p ps]; [reflexivity|].
  unfold bind.
  destruct (phone_values (p :: ps) s) as [[vs|e] s'] eqn:E;
    apply phone_values_state in E; exact E.
Qed.

Lemma show_birthday_state args s : snd (show_birthday args s) = s.
Proof.
  unfold show_birthday. rewrite input_error_state.
  destruct args as [|nm rest]; [reflexivity|].
  unfold unpack1. unfold bind at 1. unfold ret at 1.
  unfold bind at 1. unfold find at 1.
  destruct (dict_get (data s) nm) as [r|]; [|reflexivity].
  unfold bind at 1. unfold attr, ret at 1.
  unfold bind at 1. unfold getobj at 1.
  destruct (objects s !! r) as [o|]; [|reflexivity].
  destruct (birthday o); reflexivity.
Qed.

Lemma birthdays_state today args s : snd (birthdays today args s) = s.
Proof.
  unfold birthdays. rewrite input_error_state.
  unfold bind, get_upcoming_birthdays.
  destruct (upcoming_loop today 7 (List.map snd (data s)) [] s)
    as [[res|e] s'] eqn:E; apply upcoming_loop_state in E; subst s';
    [destruct res|]; reflexivity.
Qed.

Lemma book_lines_state values : forall acc s r s',
  book_lines values acc s = (r, s') -> s' = s.
Proof.
  induction values as [|v rest IH]; intros acc s r s'; simpl.
  - unfold ret. congruence.
  - unfold bind at 1. unfold getobj at 1.
    destruct (objects s !! v) as [o|]; [|congruence].
    unfold bind at 1. unfold book_line. unfold bind at 1.
    destruct (phone_values (phones o) s) as [[vs|e] s1] eqn:E;
      apply phone_values_state in E; subst s1; [|congruence].
    unfold ret at 1. apply IH.
Qed.

Lemma show_all_contacts_state args s : snd (show_all_contacts args s) = s.
Proof.
  unfold show_all_contacts. rewrite input_error_state.
  unfold AddressBook_str. destruct (data s) as [|kv d]; [reflexivity|].
  unfold bind.
  destruct (book_lines (List.map snd (kv :: d)) [] s) as [[ls|e] s'] eqn:E;
    apply book_lines_state in E; exact E.
Qed.

(** ** The remaining runs of the handlers *)

Lemma add_contact_new_empty s nm (phone : pystr) rest :
  dict_get (data s) nm = None -> phone = [] ->
  add_contact (nm :: phone :: rest) s
  = (Ok (lit "Contact added."),
     mkState (objects s ++ [mkRecord (mkField nm) [] None]) (phone_objects s)
             (data s ++ [(nm, length (objects s))])).
Proof.
  intros G ->. unfold add_contact, input_error, unpack2.
  unfold bind at 1. unfold ret at 1. cbv zeta. cbn [fst snd].
  unfold bind at 1. unfold find at 1. rewrite G.
  unfold bind at 1. rewrite create_record_eq. cbn [fst snd].
  rewrite dict_set_absent by exact G. reflexivity.
Qed.

Lemma add_contact_existing_empty s nm (phone : pystr) rest r :
  dict_get (data s) nm = Some r -> phone = [] ->
  add_contact (nm :: phone :: rest) s = (Ok (lit "Contact updated."), s).
Proof.
  intros G ->. unfold add_contact, input_error, unpack2.
  unfold bind at 1. unfold ret at 1. cbv zeta. cbn [fst snd].
  unfold bind at 1. unfold find at 1. rewrite G. reflexivity.
Qed.

Lemma add_contact_existing_invalid s nm phone rest r :
  dict_get (data s) nm = Some r -> phone <> [] -> ~ ten_digits phone ->
  add_contact (nm :: phone :: rest) s = (Ok (lit "Provide correct data."), s).
Proof.
  intros G NE N. unfold add_contact, input_error, unpack2.
  unfold bind at 1. unfold ret at 1. cbv zeta. cbn [fst snd].
  unfold bind at 1. unfold find at 1. rewrite G.
  unfold bind at 1. unfold ret at 1. cbn [fst snd].
  destruct phone as [|c phone]; [congruence|].
  unfold bind at 1. rewrite add_phone_invalid by exact N. reflexivity.
Qed.

Lemma change_contact_found_valid s nm old_phone new_phone rest r o i p :
  dict_get (data s) nm = Some r -> objects s !! r = Some o ->
  Forall (phone_allocated s) (phones o) ->
  first_with_value s (phones o) old_phone i p -> ten_digits new_phone ->
  change_contact (nm :: old_phone :: new_phone :: rest) s
  = (Ok (lit "Phone number updated."),
     mkState (objects s) (<[p := mkField new_phone]> (phone_objects s))
             (data s)).
Proof.
  intros G L F H V.
  unfold change_contact, input_error, unpack3.
  unfold bind at 1. unfold ret at 1.
  unfold bind at 1. unfold find at 1. rewrite G.
  unfold bind at 1. unfold attr, ret at 1.
  unfold bind at 1.
  rewrite (edit_phone_valid _ _ o _ _ i p) by assumption. reflexivity.
Qed.

Lemma change_contact_found_invalid s nm old_phone new_phone rest r o i p :
  dict_get (data s) nm = Some r -> objects s !! r = Some o ->
  Forall (phone_allocated s) (phones o) ->
  first_with_value s (phones o) old_phone i p -> ~ ten_digits new_phone ->
  change_contact (nm :: old_phone :: new_phone :: rest) s
  = (Ok (lit "Provide correct data."), s).
Proof.
  intros G L F H V.
  unfold change_contact, input_error, unpack3.
  unfold bind at 1. unfold ret at 1.
  unfold bind at 1. unfold find at 1. rewrite G.
  unfold bind at 1. unfold attr, ret at 1.
  unfold bind at 1.
  rewrite (edit_phone_invalid _ _ o _ _ i p) by assumption. reflexivity.
Qed.

Lemma add_birthday_valid s nm text rest r o :
  dict_get (data s) nm = Some r -> objects s !! r = Some o ->
  parses_as_date text ->
  add_birthday (nm :: text :: rest) s
  = (Ok (lit "Birthday added."),
     mkState (<[r := mkRecord (name o) (phones o) (Some (mkField text))]>
                (objects s))
             (phone_objects s) (data s)).
Proof.
  intros G L P.
  unfold add_birthday, input_error, unpack2.
  unfold bind at 1. unfold ret at 1. cbn [fst snd].
  unfold bind at 1. unfold find at 1. rewrite G.
  unfold bind at 1. unfold attr, ret at 1.
  unfold bind at 1.
  rewrite (Record_add_birthday_valid _ _ o) by assumption. reflexivity.
Qed.

Lemma add_birthday_invalid s nm text rest r :
  dict_get (data s) nm = Some r -> ~ parses_as_date text ->
  add_birthday (nm :: text :: rest) s = (Ok (lit "Provide correct data."), s).
Proof.
  intros G P.
  unfold add_birthday, input_error, unpack2.
  unfold bind at 1. unfold ret at 1. cbn [fst snd].
  unfold bind at 1. unfold find at 1. rewrite G.
  unfold bind at 1. unfold attr, ret at 1.
  unfold bind at 1.
  rewrite Record_add_birthday_invalid by assumption. reflexivity.
Qed.

Lemma dict_get_keys d k : dict_get d k = None <-> ~ In k (List.map fst d).
Proof.
  induction d as [|[k' v] d IH]; simpl; [tauto|].
  destruct (pystr_eqb k' k) eqn:E.
  - apply pystr_eqb_eq in E. split; [discriminate|]. intros H.
    exfalso. apply H. left. exact E.
  - apply pystr_eqb_neq in E. rewrite IH. tauto.
Qed.

(** ** Books that grow *)









(** ** What the handlers show *)

Lemma show_phone_numbers s nm rest r o vs :
  dict_get (data s) nm = Some r -> objects s !! r = Some o ->
  phones_of s o = Some vs -> vs <> [] ->
  show_phone (nm :: rest) s = (Ok (join (lit "; ") vs), s).
Proof.
  intros G L T NE. unfold phones_of in T.
  unfold show_phone, input_error, unpack1.
  unfold bind at 1. unfold ret at 1.
  unfold bind at 1. unfold find at 1. rewrite G.
  unfold bind at 1. unfold attr, ret at 1.
  unfold bind at 1. unfold getobj at 1. rewrite L.
  destruct (phones o) as [|p ps] eqn:E.
  - simpl in T. inversion T; subst. congruence.
  - unfold bind at 1. rewrite (phone_values_texts s _ vs T). reflexivity.
Qed.

(** The lines of the listing, one for each value of the dictionary. *)
Lemma book_lines_run s values :
  wf s -> Forall (allocated s) values ->
  forall acc,
  exists ls,
    book_lines values acc s = (Ok (acc ++ ls), s)
    /\ Forall2 (fun r l => exists o vs, objects s !! r = Some o
                                        /\ phones_of s o = Some vs
                                        /\ l = listing_line o vs)
               values ls.
Proof.
  intros W. induction values as [|r rest IH]; intros F acc.
  - exists []. rewrite app_nil_r. split; [reflexivity|constructor].
  - inversion F as [|? ? A F']; subst.
    destruct (allocated_lookup s r A) as [o L].
    destruct (texts_allocated s (phones o) (wf_phones_allocated s r o W L))
      as [vs T].
    destruct (IH F' (acc ++ [listing_line o vs])) as (ls & E & H).
    exists (listing_line o vs :: ls). split.
    + simpl. unfold bind at 1. unfold getobj at 1. rewrite L.
      unfold bind at 1. unfold book_line. unfold bind at 1.
      rewrite (phone_values_texts s _ vs T). unfold ret at 1.
      fold (listing_line o vs). rewrite E. rewrite <- app_assoc. reflexivity.
    + constructor; [|exact H]. exists o, vs. auto.
Qed.

(** ** The dictionary *)

Lemma dict_del_get_eq d k :
  NoDup (List.map fst d) -> dict_get (dict_del d k) k = None.
Proof.
  induction d as [|[k' v] d IH]; simpl; [reflexivity|].
  intros N. apply NoDup_cons in N. destruct N as [N1 N2].
  destruct (pystr_eqb k' k) eqn:E.
  - apply pystr_eqb_eq in E. subst k'. apply dict_get_keys.
    intros I. apply N1. apply list_elem_of_In. exact I.
  - simpl. rewrite E. apply IH. exact N2.
Qed.

Lemma dict_del_get_ne d k k' :
  k' <> k -> dict_get (dict_del d k) k' = dict_get d k'.
Proof.
  intros N. induction d as [|[k0 v] d IH]; simpl; [reflexivity|].
  destruct (pystr_eqb k0 k) eqn:E.
  - apply pystr_eqb_eq in E. subst k0.
    destruct (pystr_eqb k k') eqn:E'; [|reflexivity].
    apply pystr_eqb_eq in E'. congruence.
  - simpl. destruct (pystr_eqb k0 k'); [reflexivity|exact IH].
Qed.

Lemma dict_del_keys d k :
  NoDup (List.map fst d) ->
  List.map fst (dict_del d k)
  = List.filter (fun k' => negb (pystr_eqb k' k)) (List.map fst d).
Proof.
  induction d as [|[k' v] d IH]; simpl; [reflexivity|].
  intros N. apply NoDup_cons in N. destruct N as [N1 N2].
  destruct (pystr_eqb k' k) eqn:E; simpl.
  - apply pystr_eqb_eq in E. subst k'.
    clear IH N2. induction d as [|[k0 v0] d IH]; simpl; [reflexivity|].
    destruct (pystr_eqb k0 k) eqn:E0.
    + apply pystr_eqb_eq in E0. subst k0. exfalso. apply N1.
      simpl. left.
    + simpl. f_equal. apply IH. intros I. apply N1. simpl. right. exact I.
  - rewrite IH by exact N2. reflexivity.
Qed.

Lemma dict_del_length d k r :
  dict_get d k = Some r -> S (length (dict_del d k)) = length d.
Proof.
  induction d as [|[k' v] d IH]; simpl; [discriminate|].
  destruct (pystr_eqb k' k); [reflexivity|].
  intros H. simpl. rewrite (IH H). reflexivity.
Qed.

(** ** Bounds of the birthday query *)


(** ** An occurrence that has passed *)

Lemma next_year_ordinal y m d :
  toordinal (mkDate y m d) + 365 <= toordinal (mkDate (y + 1) m d).
Proof.
  unfold toordinal, ymd2ord. cbn [year month day].
  rewrite days_before_year_succ. unfold days_before_month, int_of_bool.
  destruct (is_leap y), (is_leap (y + 1)), (2 <? m); cbn [andb]; lia.
Qed.

Lemma weekend_shift_bounds d : 0 <= weekend_shift d <= 2.
Proof.
  unfold weekend_shift.
  destruct (weekday d =? 5); [lia|]. destruct (weekday d =? 6); lia.
Qed.

Lemma weekend_shift_weekend d : 5 <= weekday d -> 1 <= weekend_shift d.
Proof.
  unfold weekend_shift, weekday. intros H.
  destruct (Z.eqb_spec ((toordinal d + 6) mod 7) 5); [lia|].
  destruct (Z.eqb_spec ((toordinal d + 6) mod 7) 6); [lia|].
  unfold weekday in H. Z.div_mod_to_equations. lia.
Qed.

(** The date of congratulation for an occurrence that is today. *)
Lemma congratulation_today d b bd :
  valid_date d -> strptime (value b) = Ok bd ->
  month d = month bd -> day d = day bd ->
  congratulation d b = adjust_for_weekend d.
Proof.
  intros V S Hm Hd. unfold congratulation. rewrite S.
  assert (E : mkDate (year d) (month bd) (day bd) = d).
  { destruct d as [y m dd]; cbn [year month day] in *; subst; reflexivity. }
  destruct V as (Vy & Vm & Vd).
  unfold replace_year at 1.
  rewrite date_new_ok by (rewrite <- ?Hm, <- ?Hd; assumption).
  rewrite E.
  assert (L : date_lt d d = false).
  { apply not_true_is_false. rewrite date_lt_true. lia. }
  rewrite L. reflexivity.
Qed.

(** ** Valid numbers, records under their names *)

Lemma keys_are_names_setobj s r o o' objs :
  keys_are_names s -> objects s !! r = Some o -> name o' = name o ->
  keys_are_names (mkState (<[r := o']> (objects s)) objs (data s)).
Proof.
  intros K L Hn k j oj I Lj. cbn [objects data] in *.
  apply list_lookup_insert_Some in Lj.
  destruct Lj as [(<- & <- & _)|(_ & Lj)].
  - rewrite Hn. apply (K k r o I L).
  - apply (K k j oj I Lj).
Qed.

Lemma keys_are_names_new s nm ps b objs :
  wf s -> keys_are_names s ->
  keys_are_names (mkState (objects s ++ [mkRecord (mkField nm) ps b]) objs
                          (data s ++ [(nm, length (objects s))])).
Proof.
  intros W K k j oj I Lj. cbn [objects data] in *.
  apply in_app_or in I. destruct I as [I|[I|[]]].
  - assert (A : allocated s j).
    { destruct W as [W _]. rewrite List.Forall_forall in W. apply (W _ I). }
    rewrite lookup_app_l in Lj by exact A. apply (K k j oj I Lj).
  - inversion I; subst. rewrite store_lookup_new in Lj.
    inversion Lj; subst. reflexivity.
Qed.

Lemma add_contact_tidy args s :
  wf s -> phones_valid s -> keys_are_names s ->
  phones_valid (snd (add_contact args s))
  /\ keys_are_names (snd (add_contact args s)).
Proof.
  intros W P K. destruct args as [|nm [|phone rest]]; try (split; assumption).
  destruct (dict_get (data s) nm) as [r|] eqn:G.
  - destruct (allocated_lookup s r (wf_allocated s nm r W G)) as [o L].
    destruct phone as [|c t].
    { rewrite (add_contact_existing_empty s nm _ rest r G eq_refl).
      split; assumption. }
    destruct (ten_digits_dec (c :: t)) as [V|N].
    + rewrite (add_contact_existing s nm _ rest r o G L V). cbn [snd]. split.
      * unfold phones_valid. cbn [phone_objects]. apply Forall_app.
        split; [exact P|]. constructor; [exact V|constructor].
      * apply (keys_are_names_setobj s r o); auto.
    + rewrite (add_contact_existing_invalid s nm _ rest r G) by
        (congruence || exact N).
      split; assumption.
  - destruct phone as [|c t].
    { rewrite (add_contact_new_empty s nm _ rest G eq_refl). cbn [snd].
      split; [exact P|apply keys_are_names_new; assumption]. }
    destruct (ten_digits_dec (c :: t)) as [V|N].
    + rewrite (add_contact_new s nm _ rest G V). cbn [snd]. split.
      * unfold phones_valid. cbn [phone_objects]. apply Forall_app.
        split; [exact P|]. constructor; [exact V|constructor].
      * apply keys_are_names_new; assumption.
    + rewrite (add_contact_new_invalid s nm _ rest G) by
        (congruence || exact N).
      cbn [snd]. split; [exact P|apply keys_are_names_new; assumption].
Qed.

Lemma change_contact_tidy args s :
  wf s -> phones_valid s -> keys_are_names s ->
  phones_valid (snd (change_contact args s))
  /\ keys_are_names (snd (change_contact args s)).
Proof.
  intros W P K. destruct args as [|nm [|old_phone [|new_phone rest]]];
    try (split; assumption).
  destruct (dict_get (data s) nm) as [r|] eqn:G.
  2:{ rewrite (change_contact_unknown s nm _ _ rest G). split; assumption. }
  destruct (allocated_lookup s r (wf_allocated s nm r W G)) as [o L].
  pose proof (wf_phones_allocated s r o W L) as F.
  destruct (find_phone_cases s (phones o) old_phone F) as [N|(i & p & H)].
  { rewrite (change_contact_missing_phone s nm _ _ rest r o G L F N).
    split; assumption. }
  destruct (ten_digits_dec new_phone) as [V|N].
  - rewrite (change_contact_found_valid s nm _ _ rest r o i p G L F H V).
    cbn [snd]. split; [|exact K].
    unfold phones_valid. cbn [phone_objects].
    apply Forall_insert; [exact P|exact V].
  - rewrite (change_contact_found_invalid s nm _ _ rest r o i p G L F H N).
    split; assumption.
Qed.

Lemma add_birthday_tidy args s :
  wf s -> phones_valid s -> keys_are_names s ->
  phones_valid (snd (add_birthday args s))
  /\ keys_are_names (snd (add_birthday args s)).
Proof.
  intros W P K. destruct args as [|nm [|text rest]]; try (split; assumption).
  destruct (dict_get (data s) nm) as [r|] eqn:G.
  2:{ rewrite (add_birthday_unknown s nm _ rest G). split; assumption. }
  destruct (allocated_lookup s r (wf_allocated s nm r W G)) as [o L].
  destruct (parses_as_date_dec text) as [D|N].
  - rewrite (add_birthday_valid s nm _ rest r o G L D). cbn [snd].
    split; [exact P|]. apply (keys_are_names_setobj s r o); auto.
  - rewrite (add_birthday_invalid s nm _ rest r G N). split; assumption.
Qed.

(** * The command line *)

(** ** Words of a line *)

Lemma split_loop_blank s w :
  blank s -> split_loop s w = match w with [] => [] | _ => [w] end.
Proof.
  intros B. revert w. induction B as [|c s Hc B IH]; intros w; simpl.
  - reflexivity.
  - rewrite Hc. destruct w; rewrite IH; reflexivity.
Qed.

Lemma split_loop_lead s1 s2 : blank s1 -> split_loop (s1 ++ s2) [] = split_loop s2 [].
Proof.
  intros B. induction B as [|c s Hc B IH]; simpl; [reflexivity|].
  rewrite Hc. exact IH.
Qed.

Lemma split_loop_word t s w :
  Forall (fun c => char_isspace c = false) t ->
  split_loop (t ++ s) w = split_loop s (w ++ t).
Proof.
  intros F. revert w. induction F as [|c t Hc F IH]; intros w; simpl.
  - rewrite app_nil_r. reflexivity.
  - rewrite Hc, IH, <- app_assoc. reflexivity.
Qed.

Lemma split_loop_space c s w :
  char_isspace c = true -> w <> [] ->
  split_loop (c :: s) w = w :: split_loop s [].
Proof.
  intros Hc Hw. cbn [split_loop]. rewrite Hc.
  destruct w; [contradiction|reflexivity].
Qed.

(** The words of a line are words, and together they are the line without
    its white space. *)
Lemma split_loop_spec s : forall w,
  Forall (fun c => char_isspace c = false) w ->
  Forall word (split_loop s w)
  /\ concat (split_loop s w) = w ++ without_spaces s.
Proof.
  induction s as [|c s IH]; intros w F; simpl.
  - destruct w as [|x w]; simpl.
    + split; [constructor|reflexivity].
    + rewrite !app_nil_r. split; [|reflexivity].
      constructor; [|constructor]. split; [discriminate|exact F].
  - destruct (char_isspace c) eqn:Hc; simpl.
    + destruct (IH [] (List.Forall_nil _)) as [W C].
      destruct w as [|x w]; [auto|].
      split; [constructor; [split; [discriminate|exact F]|exact W]|].
      simpl. rewrite C. reflexivity.
    + assert (F' : Forall (fun c => char_isspace c = false) (w ++ [c])).
      { apply Forall_app. split; [exact F|]. constructor; [exact Hc|constructor]. }
      destruct (IH _ F') as [W C]. split; [exact W|].
      rewrite C, <- app_assoc. reflexivity.
Qed.

Lemma without_spaces_blank s : without_spaces s = [] <-> blank s.
Proof.
  unfold without_spaces, blank. induction s as [|c s IH]; simpl.
  - split; [constructor|reflexivity].
  - destruct (char_isspace c) eqn:Hc; simpl.
    + rewrite IH. split; [intros H; constructor; assumption|].
      intros H. inversion H; assumption.
    + split; [discriminate|]. intros H. inversion H; congruence.
Qed.

Lemma split_nil s : split s = [] <-> blank s.
Proof.
  unfold split. split.
  - intros E. destruct (split_loop_spec s [] (List.Forall_nil _)) as [_ C].
    rewrite E in C. simpl in C. apply without_spaces_blank. congruence.
  - intros B. apply (split_loop_blank s [] B).
Qed.

(** The words of words joined by blanks. *)
Lemma split_join t ts trail :
  Forall word (t :: ts) -> blank trail ->
  split_loop (join (lit " ") (t :: ts) ++ trail) [] = t :: ts.
Proof.
  revert t. induction ts as [|t' ts IH]; intros t F B.
  - inversion F as [|? ? [Ne Ft] _]; subst. cbn [join].
    rewrite split_loop_word by exact Ft. rewrite split_loop_blank by exact B.
    simpl. destruct t; congruence.
  - inversion F as [|? ? [Ne Ft] F']; subst.
    change (join (lit " ") (t :: t' :: ts))
      with (t ++ lit " " ++ join (lit " ") (t' :: ts)).
    rewrite <- !app_assoc. rewrite split_loop_word by exact Ft.
    cbn [app].
    change (lit " " ++ join (lit " ") (t' :: ts) ++ trail)
      with (32%N :: join (lit " ") (t' :: ts) ++ trail).
    rewrite split_loop_space by (try reflexivity; exact Ne).
    rewrite (IH t' F' B). reflexivity.
Qed.

Lemma strip_left_word t :
  Forall (fun c => char_isspace c = false) t -> strip_left t = t.
Proof. intros F. destruct F as [|c t Hc F]; simpl; [|rewrite Hc]; reflexivity. Qed.

Lemma strip_word t :
  Forall (fun c => char_isspace c = false) t -> strip t = t.
Proof.
  intros F. unfold strip. rewrite (strip_left_word t F).
  rewrite strip_left_word; [apply rev_involutive|].
  apply List.Forall_rev. exact F.
Qed.

(** What [parse_input] returns. *)
Lemma parse_input_cases user_input :
  (blank user_input
   /\ parse_input user_input = Ok (Message (lit "Provide correct data.")))
  \/ (exists cmd args,
        split user_input = cmd :: args
        /\ parse_input user_input = Ok (Returned (lower cmd :: args))).
Proof.
  unfold parse_input. destruct (split user_input) as [|cmd args] eqn:E.
  - left. split; [apply split_nil; exact E|reflexivity].
  - right. exists cmd, args. split; [reflexivity|].
    destruct (split_loop_spec user_input [] (List.Forall_nil _)) as [W _].
    fold (split user_input) in W. rewrite E in W.
    inversion W as [|? ? [_ F] _]; subst.
    rewrite (strip_word cmd F). reflexivity.
Qed.

(** ** Lower case *)

Lemma lower_in_small c : (c < 128)%N -> lower_in lower_runs c = ascii_lower c.
Proof.
  intros H.
  assert (A : forallb (fun k => (lower_in lower_runs (N.of_nat k)
                                 =? ascii_lower (N.of_nat k))%N)
                      (seq 0 128) = true) by (vm_compute; reflexivity).
  rewrite forallb_forall in A. specialize (A (N.to_nat c)).
  rewrite N2Nat.id in A. apply N.eqb_eq. apply A. apply in_seq. lia.
Qed.

Lemma lower_loop_small t : forall before,
  Forall (fun c => (c < 128)%N) t ->
  lower_loop before t = List.map ascii_lower t.
Proof.
  induction t as [|c t IH]; intros before F; [reflexivity|].
  inversion F as [|? ? Hc F']; subst. cbn [lower_loop List.map].
  destruct (N.eqb_spec c 0x3a3); [lia|].
  unfold to_lower_full. destruct (N.eqb_spec c 0x130); [lia|].
  rewrite (lower_in_small c Hc), (IH _ F'). reflexivity.
Qed.

(** The characters that the table maps into ASCII. *)
Lemma lower_in_preimage_of runs :
  forallb (fun r : N * N * N * N =>
             let '(first, last, step, image) := r in
             (128 <=? image)
             || ((first =? 0x41) && (last =? 0x5a) && (image =? 0x61))
             || ((first =? 0x212a) && (last =? 0x212a) && (image =? 0x6b)))%N
          runs = true ->
  forall c,
    (lower_in runs c < 128)%N -> lower_in runs c <> 0x6b%N ->
    c = lower_in runs c
    \/ ((0x41 <= c <= 0x5a)%N /\ lower_in runs c = (c + 32)%N).
Proof.
  induction runs as [|[[[first last] step] image] runs IH]; intros G c;
    cbn [lower_in]; [auto|].
  cbn [forallb] in G. apply andb_true_iff in G. destruct G as [G1 G2].
  destruct ((first <=? c)%N && (c <=? last)%N
            && ((c - first) mod step =? 0)%N) eqn:In; [|apply IH; exact G2].
  apply andb_true_iff in In. destruct In as [In _].
  apply andb_true_iff in In. destruct In as [In1 In2].
  apply N.leb_le in In1, In2.
  apply orb_true_iff in G1. destruct G1 as [G1|G1].
  - apply orb_true_iff in G1. destruct G1 as [G1|G1].
    + apply N.leb_le in G1. lia.
    + apply andb_true_iff in G1. destruct G1 as [G1 Gi].
      apply andb_true_iff in G1. destruct G1 as [Gf Gl].
      apply N.eqb_eq in Gf, Gl, Gi. subst. intros _ _. right. lia.
  - apply andb_true_iff in G1. destruct G1 as [G1 Gi].
    apply andb_true_iff in G1. destruct G1 as [Gf Gl].
    apply N.eqb_eq in Gf, Gl, Gi. subst. lia.
Qed.

Lemma lower_in_preimage c :
  (lower_in lower_runs c < 128)%N -> lower_in lower_runs c <> 0x6b%N ->
  c = lower_in lower_runs c
  \/ ((0x41 <= c <= 0x5a)%N /\ lower_in lower_runs c = (c + 32)%N).
Proof. apply lower_in_preimage_of. vm_compute. reflexivity. Qed.

Lemma handle_capital_sigma_large before after :
  (128 <= handle_capital_sigma before after)%N.
Proof.
  unfold handle_capital_sigma.
  match goal with |- context [if ?b then _ else _] => destruct b end; lia.
Qed.

(** A text whose lower case is in ASCII and has no k is that lower case
    but for capitals A..Z. *)
Lemma lower_loop_spelling t : forall before w,
  Forall (fun x => (x < 128)%N /\ x <> 0x6b%N) w ->
  lower_loop before t = w -> spelling_of w t.
Proof.
  induction t as [|c t IH]; intros before w F E; cbn [lower_loop] in E.
  - subst w. constructor.
  - destruct (N.eqb_spec c 0x3a3) as [->|N3].
    { subst w. inversion F as [|? ? [H _] _]; subst.
      pose proof (handle_capital_sigma_large before t). lia. }
    unfold to_lower_full in E. destruct (N.eqb_spec c 0x130) as [->|N1].
    { subst w. inversion F as [|? ? _ F']; subst.
      inversion F' as [|? ? [H _] _]; subst. lia. }
    cbn [app] in E. subst w. inversion F as [|? ? [H1 H2] F']; subst.
    constructor; [|apply (IH (c :: before)); [exact F'|reflexivity]].
    destruct (lower_in_preimage c H1 H2) as [<-|[R ->]]; [auto|].
    right. auto.
Qed.

Lemma spelling_lower w t :
  Forall (fun x => (x < 128)%N /\ ~ (0x41 <= x <= 0x5a)%N) w ->
  spelling_of w t -> lower t = w.
Proof.
  intros F S. unfold lower.
  assert (A : Forall (fun c => (c < 128)%N) t /\ List.map ascii_lower t = w).
  { induction S as [|x c w t H S IH].
    - split; [constructor|reflexivity].
    - inversion F as [|? ? [Hx Hn] F']; subst.
      destruct (IH F') as [A1 A2].
      destruct H as [->|[R ->]].
      + split; [constructor; assumption|]. cbn [List.map]. rewrite A2.
        unfold ascii_lower.
        destruct (N.leb_spec 0x41 x); destruct (N.leb_spec x 0x5a);
          cbn [andb]; try reflexivity. lia.
      + split; [constructor; [lia|assumption]|]. cbn [List.map]. rewrite A2.
        unfold ascii_lower.
        destruct (N.leb_spec 0x41 c); destruct (N.leb_spec c 0x5a);
          cbn [andb]; try reflexivity; lia. }
  destruct A as [A1 A2]. rewrite (lower_loop_small t [] A1). exact A2.
Qed.

Lemma command_words_plain w :
  In w command_words ->
  Forall (fun x => (x < 128)%N /\ x <> 0x6b%N /\ ~ (0x41 <= x <= 0x5a)%N) w.
Proof.
  intros I.
  assert (A : forallb (forallb (fun x => (x <? 128)%N && negb (x =? 0x6b)%N
                                          && negb ((0x41 <=? x)%N
                                                   && (x <=? 0x5a)%N)))
                      command_words = true) by (vm_compute; reflexivity).
  rewrite forallb_forall in A. specialize (A w I).
  rewrite forallb_forall in A. apply List.Forall_forall. intros x Ix.
  specialize (A x Ix).
  apply andb_true_iff in A. destruct A as [A A3].
  apply andb_true_iff in A. destruct A as [A1 A2].
  apply N.ltb_lt in A1. apply negb_true_iff in A2, A3.
  apply N.eqb_neq in A2. split; [exact A1|]. split; [exact A2|].
  intros [H1 H2]. apply N.leb_le in H1, H2. rewrite H1, H2 in A3. discriminate.
Qed.

(** ** The loop of [main] *)

Lemma loop_body_blank today line book :
  blank line ->
  loop_body today line book = Goes_on [Print (lit "Invalid command.")] book.
Proof.
  intros B. destruct (parse_input_cases line) as [[_ E]|(cmd & args & S & _)].
  - unfold loop_body. rewrite E. reflexivity.
  - apply split_nil in B. congruence.
Qed.

Lemma exit_line_blank line : blank line -> exit_line line = false.
Proof.
  intros B. destruct (parse_input_cases line) as [[_ E]|(cmd & args & S & _)].
  - unfold exit_line. rewrite E. reflexivity.
  - apply split_nil in B. congruence.
Qed.

(** A turn of the loop leaves it, prints one line, or prints what one of
    the handlers answers. *)
Lemma loop_body_cases today line book :
  (exit_line line = true
   /\ loop_body today line book
      = Ends [Dump book; Print (lit "Good bye!")] Finished)
  \/ (exit_line line = false
      /\ ((exists text, loop_body today line book = Goes_on [Print text] book)
          \/ exists h args,
               In h (handlers today)
               /\ loop_body today line book = print_answer h args book)).
Proof.
  destruct (parse_input_cases line) as [[B _]|(cmd & args & _ & E)].
  { right. split; [apply exit_line_blank; exact B|]. left.
    eexists. apply loop_body_blank. exact B. }
  unfold loop_body, exit_line. rewrite E. cbn [unpack_command].
  destruct (in_list (lower cmd) [lit "close"; lit "exit"]);
    [left; split; reflexivity|].
  right. split; [reflexivity|]. unfold handlers.
  repeat match goal with
         | |- context [if pystr_eqb ?a ?b then _ else _] =>
             destruct (pystr_eqb a b);
             [first [left; eexists; reflexivity
                    |right; eexists; eexists; split; [|reflexivity];
                     simpl; tauto]|]
         end.
  left. eexists. reflexivity.
Qed.


Lemma loop_body_safe today line book :
  wf book ->
  (exit_line line = true
   /\ loop_body today line book
      = Ends [Dump book; Print (lit "Good bye!")] Finished)
  \/ (exit_line line = false
      /\ exists text book',
           loop_body today line book = Goes_on [Print text] book'
           /\ wf book').
Proof.
  intros W.
  destruct (loop_body_cases today line book)
    as [H|[X [[text H]|(h & args & I & H)]]]; [left; exact H| |].
  - right. split; [exact X|]. eauto.
  - right. split; [exact X|]. rewrite H. unfold print_answer.
    destruct (handlers_safe today h args book I W) as (msg & s' & E & W').
    rewrite E. eauto.
Qed.


Lemma main_loop_safe inputs : forall book,
  wf book ->
  (snd (main_loop inputs book) = Finished
   \/ snd (main_loop inputs book) = End_of_input)
  /\ dumps_wf (fst (main_loop inputs book)).
Proof.
  induction inputs as [|[today line] rest IH]; intros book W.
  - simpl. split; [auto|]. intros b [H|[]]. discriminate.
  - cbn [main_loop].
    destruct (loop_body_safe today line book W)
      as [[X H]|[X (text & book' & H & W')]]; rewrite H.
    + cbn [fst snd]. split; [auto|].
      intros b [E|[E|[E|[]]]]; try discriminate. inversion E; subst. exact W.
    + destruct (IH book' W') as [IH1 IH2].
      destruct (main_loop rest book') as [events e]. cbn [fst snd] in *.
      split; [exact IH1|].
      intros b [E|[E|I]]; try discriminate. apply IH2. exact I.
Qed.


(** ** A line typed with blanks *)

Lemma parse_input_joined lead trail cmd args :
  blank lead -> blank trail -> word cmd -> Forall word args ->
  parse_input (lead ++ join (lit " ") (cmd :: args) ++ trail)
  = Ok (Returned (lower cmd :: args)).
Proof.
  intros Bl Bt Wc Wa. unfold parse_input, split.
  rewrite (split_loop_lead _ _ Bl).
  assert (F : Forall word (cmd :: args)) by (constructor; assumption).
  rewrite (split_join cmd args trail F Bt).
  rewrite (strip_word cmd (proj2 Wc)). reflexivity.
Qed.

Lemma parse_input_line cmd args :
  word cmd -> Forall word args ->
  parse_input (join (lit " ") (cmd :: args)) = Ok (Returned (lower cmd :: args)).
Proof.
  intros Wc Wa.
  pose proof (parse_input_joined [] [] cmd args (List.Forall_nil _)
                (List.Forall_nil _) Wc Wa) as H.
  rewrite app_nil_r in H. exact H.
Qed.

Lemma in_ranges_disjoint t1 t2 :
  forallb (fun r => forallb (fun q => (snd r <? fst q)%N || (snd q <? fst r)%N)
                            t2) t1 = true ->
  forall c, in_ranges t1 c = true -> in_ranges t2 c = false.
Proof.
  intros D c H. unfold in_ranges in *. apply existsb_exists in H.
  destruct H as (r & Ir & Hr). apply not_true_is_false. intros H2.
  apply existsb_exists in H2. destruct H2 as (q & Iq & Hq).
  rewrite forallb_forall in D. specialize (D r Ir).
  rewrite forallb_forall in D. specialize (D q Iq).
  apply andb_true_iff in Hr, Hq. destruct Hr as [R1 R2], Hq as [Q1 Q2].
  apply N.leb_le in R1, R2, Q1, Q2.
  apply orb_true_iff in D. destruct D as [D|D]; apply N.ltb_lt in D; lia.
Qed.

Lemma digit_not_space c : char_isdigit c = true -> char_isspace c = false.
Proof.
  unfold char_isdigit, is_decimal, char_isspace. intros H.
  apply orb_true_iff in H. destruct H as [H|H]; revert c H;
    apply in_ranges_disjoint; vm_compute; reflexivity.
Qed.

Lemma ten_digits_word phone : ten_digits phone -> word phone.
Proof.
  intros [L F]. split; [intros ->; discriminate|].
  eapply List.Forall_impl; [|exact F]. intros c. apply digit_not_space.
Qed.

Lemma loop_body_add today line args book :
  parse_input line = Ok (Returned (lit "add" :: args)) ->
  loop_body today line book = print_answer add_contact args book.
Proof. intros H. unfold loop_body. rewrite H. reflexivity. Qed.

Lemma loop_body_phone today line args book :
  parse_input line = Ok (Returned (lit "phone" :: args)) ->
  loop_body today line book = print_answer show_phone args book.
Proof. intros H. unfold loop_body. rewrite H. reflexivity. Qed.



(** X8. The handlers [show_phone], [show_birthday], [birthdays] and
    [show_all_contacts] leave the book as it is, whatever the arguments
    and whatever they answer. *)
Theorem readers_leave_book (today : date) (args : list pystr) (s : state) :
  snd (show_phone args s) = s
  /\ snd (show_birthday args s) = s
  /\ snd (birthdays today args s) = s
  /\ snd (show_all_contacts args s) = s.
Proof.
  split; [apply show_phone_state|].
  split; [apply show_birthday_state|].
  split; [apply birthdays_state|apply show_all_contacts_state].
Qed.

(** X9. [add_contact] for a name of the book: a phone that [Phone]
    accepts is put after the phones the contact has, also when the contact
    has that number already, the answer is "Contact updated." and
    [show_phone] then shows the old numbers followed by the new one; with
    an empty phone the answer is the same and nothing changes; with any
    other phone the answer is "Provide correct data." and nothing
    changes. *)
Theorem add_contact_appends (s : state) (nm phone : pystr)
    (rest : list pystr) (r : ref) (o : ContactRecord) (vs : list pystr) :
  dict_get (data s) nm = Some r -> objects s !! r = Some o ->
  phones_of s o = Some vs ->
  (ten_digits phone ->
   exists s' o',
     add_contact (nm :: phone :: rest) s = (Ok (lit "Contact updated."), s')
     /\ data s' = data s
     /\ record_of s' nm = Some o'
     /\ name o' = name o /\ birthday o' = birthday o
     /\ phones_of s' o' = Some (vs ++ [phone])
     /\ forall rest', show_phone (nm :: rest') s'
                      = (Ok (join (lit "; ") (vs ++ [phone])), s'))
  /\ (phone = [] ->
      add_contact (nm :: phone :: rest) s = (Ok (lit "Contact updated."), s))
  /\ (phone <> [] -> ~ ten_digits phone ->
      add_contact (nm :: phone :: rest) s
      = (Ok (lit "Provide correct data."), s)).
Proof.
  intros G L T. split; [|split].
  - intros V. eexists. eexists.
    split; [apply (add_contact_existing s nm phone rest r o G L V)|].
    cbn [data objects phone_objects].
    assert (L' : <[r := mkRecord (name o)
                          (phones o ++ [length (phone_objects s)])
                          (birthday o)]> (objects s) !! r
                 = Some (mkRecord (name o)
                           (phones o ++ [length (phone_objects s)])
                           (birthday o))).
    { apply list_lookup_insert_eq. apply lookup_lt_Some in L. exact L. }
    assert (T' : phones_of
                   (mkState (<[r := mkRecord (name o)
                                    (phones o ++ [length (phone_objects s)])
                                    (birthday o)]> (objects s))
                            (phone_objects s ++ [mkField phone]) (data s))
                   (mkRecord (name o)
                      (phones o ++ [length (phone_objects s)]) (birthday o))
                 = Some (vs ++ [phone])).
    { unfold phones_of in *. cbn [phone_objects phones].
      apply texts_app; [apply texts_alloc; exact T|].
      cbn [texts]. rewrite store_lookup_new. reflexivity. }
    split; [reflexivity|].
    split; [unfold record_of; cbn [data objects]; rewrite G; exact L'|].
    split; [reflexivity|]. split; [reflexivity|].
    split; [exact T'|].
    intros rest'. eapply show_phone_numbers; [exact G|exact L'|exact T'|].
    destruct vs; discriminate.
  - intros E. apply (add_contact_existing_empty s nm phone rest r G E).
  - intros NE N. apply (add_contact_existing_invalid s nm phone rest r G NE N).
Qed.

Lemma add_contact_appends_witness :
  exists s' o',
    add_contact [lit "Ann"; lit "1111111111"] two_phone_book
    = (Ok (lit "Contact updated."), s')
    /\ data s' = data two_phone_book
    /\ record_of s' (lit "Ann") = Some o'
    /\ name o' = name ann /\ birthday o' = birthday ann
    /\ phones_of s' o'
       = Some ([lit "1111111111"; lit "2222222222"] ++ [lit "1111111111"])
    /\ forall rest', show_phone (lit "Ann" :: rest') s'
                     = (Ok (join (lit "; ")
                              ([lit "1111111111"; lit "2222222222"]
                               ++ [lit "1111111111"])), s').
Proof.
  apply (add_contact_appends two_phone_book (lit "Ann") (lit "1111111111") []
           0%nat ann [lit "1111111111"; lit "2222222222"]).
  - reflexivity.
  - reflexivity.
  - reflexivity.
  - apply Phone_init_ok. vm_compute. reflexivity.
Defined.

(** X10. [change_contact] for a contact that has the old number: when
    [Phone] accepts the new text the answer is "Phone number updated.",
    the names of the book and its records stay, and [show_phone] then
    shows the numbers of the contact with the new one at the place of the
    first old one; when it refuses the text the answer is
    "Provide correct data." and nothing changes. *)
Theorem change_contact_updates (s : state) (nm old_phone new_phone : pystr)
    (rest : list pystr) (r : ref) (o : ContactRecord) (vs : list pystr)
    (i : nat) (p : pref) :
  wf s -> dict_get (data s) nm = Some r -> objects s !! r = Some o ->
  phones_of s o = Some vs -> first_with_value s (phones o) old_phone i p ->
  (ten_digits new_phone ->
   exists s',
     change_contact (nm :: old_phone :: new_phone :: rest) s
     = (Ok (lit "Phone number updated."), s')
     /\ data s' = data s /\ objects s' = objects s
     /\ phones_of s' o = Some (<[i := new_phone]> vs)
     /\ forall rest', show_phone (nm :: rest') s'
                      = (Ok (join (lit "; ") (<[i := new_phone]> vs)), s'))
  /\ (~ ten_digits new_phone ->
      change_contact (nm :: old_phone :: new_phone :: rest) s
      = (Ok (lit "Provide correct data."), s)).
Proof.
  intros W G L T H. pose proof (wf_phones_allocated s r o W L) as F. split.
  - intros V. eexists.
    split; [apply (change_contact_found_valid s nm _ _ rest r o i p);
            assumption|].
    cbn [data objects].
    assert (T' : phones_of
                   (mkState (objects s)
                      (<[p := mkField new_phone]> (phone_objects s)) (data s))
                   o
                 = Some (<[i := new_phone]> vs)).
    { unfold phones_of in *. cbn [phone_objects].
      destruct H as (Li & _).
      apply texts_insert; [apply (wf_phones_NoDup s r o W L)|exact Li|exact T]. }
    split; [reflexivity|]. split; [reflexivity|]. split; [exact T'|].
    intros rest'. eapply show_phone_numbers; [exact G|exact L|exact T'|].
    destruct H as (Li & _). unfold phones_of in T.
    pose proof (texts_length _ _ _ T) as Len.
    apply lookup_lt_Some in Li. intros E.
    apply (f_equal (@length pystr)) in E.
    rewrite length_insert in E. simpl in E. lia.
  - intros N.
    apply (change_contact_found_invalid s nm _ _ rest r o i p); assumption.
Qed.

Lemma change_contact_updates_witness :
  exists s',
    change_contact [lit "Ann"; lit "2222222222"; lit "3333333333"]
                   two_phone_book
    = (Ok (lit "Phone number updated."), s')
    /\ data s' = data two_phone_book /\ objects s' = objects two_phone_book
    /\ phones_of s' ann
       = Some (<[1%nat := lit "3333333333"]>
                 [lit "1111111111"; lit "2222222222"])
    /\ forall rest', show_phone (lit "Ann" :: rest') s'
                     = (Ok (join (lit "; ")
                              (<[1%nat := lit "3333333333"]>
                                 [lit "1111111111"; lit "2222222222"])), s').
Proof.
  apply (change_contact_updates two_phone_book (lit "Ann") (lit "2222222222")
           (lit "3333333333") [] 0%nat ann
           [lit "1111111111"; lit "2222222222"] 1%nat 1%nat).
  - exact wf_two_phone_book.
  - reflexivity.
  - reflexivity.
  - reflexivity.
  - split; [reflexivity|]. split.
    + exists (mkField (lit "2222222222")). split; reflexivity.
    + intros j q y Hj Lj Ly. destruct j as [|j]; [|lia].
      vm_compute in Lj. inversion Lj; subst q.
      vm_compute in Ly. inversion Ly; subst y. vm_compute. discriminate.
  - apply Phone_init_ok. vm_compute. reflexivity.
Defined.

(** X11. [show_all_contacts]: for an empty book the answer is
    "Address book is empty."; otherwise it is one line for each name of
    the book, in the order of the book, with the name, the numbers joined
    by "; " and the birthday as it was written or "N/A", the lines being
    joined by a line feed. *)
Theorem show_all_contacts_lists (args : list pystr) (s : state) :
  wf s ->
  (data s = [] ->
   show_all_contacts args s = (Ok (lit "Address book is empty."), s))
  /\ (data s <> [] ->
      exists ls,
        show_all_contacts args s = (Ok (join newline ls), s)
        /\ Forall2 (fun kv l => exists o vs,
                      objects s !! snd kv = Some o
                      /\ phones_of s o = Some vs
                      /\ l = listing_line o vs)
                   (data s) ls).
Proof.
  intros W. split.
  - intros E. unfold show_all_contacts, input_error, AddressBook_str.
    rewrite E. reflexivity.
  - intros NE.
    destruct (book_lines_run s (List.map snd (data s)) W (wf_values s W) [])
      as (ls & E & F).
    exists ls. split.
    + unfold show_all_contacts, input_error, AddressBook_str.
      destruct (data s) as [|kv d]; [congruence|].
      unfold bind. rewrite E. reflexivity.
    + clear E NE. revert ls F.
      induction (data s) as [|kv d IH]; intros ls F; simpl in F.
      * inversion F; subst. constructor.
      * inversion F; subst. constructor; auto.
Qed.

Lemma show_all_contacts_lists_witness :
  exists ls,
    show_all_contacts [] two_phone_book = (Ok (join newline ls), two_phone_book)
    /\ Forall2 (fun kv l => exists o vs,
                  objects two_phone_book !! snd kv = Some o
                  /\ phones_of two_phone_book o = Some vs
                  /\ l = listing_line o vs)
               (data two_phone_book) ls.
Proof.
  apply (show_all_contacts_lists [] two_phone_book).
  - exact wf_two_phone_book.
  - vm_compute. discriminate.
Defined.

(** X12. [AddressBook.delete] of a name of the book takes the name and
    nothing else out: [find] then returns [None] for it, every other name
    has the record it had, and the names that stay keep their order. *)
Theorem delete_present (s : state) (nm : pystr) (r : ref) :
  NoDup (keys s) -> dict_get (data s) nm = Some r ->
  exists s',
    delete_record nm s = (Ok tt, s')
    /\ objects s' = objects s /\ phone_objects s' = phone_objects s
    /\ find nm s' = (Ok None, s')
    /\ (forall k, k <> nm -> find k s' = (Ok (dict_get (data s) k), s'))
    /\ keys s' = List.filter (fun k => negb (pystr_eqb k nm)) (keys s)
    /\ S (length (keys s')) = length (keys s).
Proof.
  intros N G. eexists.
  split; [unfold delete_record; rewrite G; reflexivity|].
  unfold find, keys in *. cbn [objects phone_objects data].
  split; [reflexivity|]. split; [reflexivity|].
  split; [rewrite dict_del_get_eq by exact N; reflexivity|].
  split; [intros k Hk; rewrite dict_del_get_ne by exact Hk; reflexivity|].
  split; [apply dict_del_keys; exact N|].
  rewrite !length_map. apply (dict_del_length _ _ r G).
Qed.

Lemma delete_present_witness :
  exists s',
    delete_record (lit "Ann") two_phone_book = (Ok tt, s')
    /\ objects s' = objects two_phone_book
    /\ phone_objects s' = phone_objects two_phone_book
    /\ find (lit "Ann") s' = (Ok None, s')
    /\ (forall k, k <> lit "Ann" ->
          find k s' = (Ok (dict_get (data two_phone_book) k), s'))
    /\ keys s' = List.filter (fun k => negb (pystr_eqb k (lit "Ann")))
                             (keys two_phone_book)
    /\ S (length (keys s')) = length (keys two_phone_book).
Proof.
  apply (delete_present two_phone_book (lit "Ann") 0%nat).
  - vm_compute. apply NoDup_singleton.
  - reflexivity.
Defined.



(** X14. A birthday whose occurrence [d] is a Saturday or a Sunday, with
    [adjust_for_weekend] as the specification gives it: the query of the
    day [d] reports it with the date of the following Monday, but the
    query of that Monday reports nothing for it, since the occurrence is
    then behind and next year's is taken. *)
Theorem weekend_birthday_dropped_on_monday (d monday : date) (days : Z)
    (o : ContactRecord) (b : Birthday) (bd : date) :
  birthday o = Some b -> strptime (value b) = Ok bd ->
  valid_date d -> month d = month bd -> day d = day bd ->
  5 <= weekday d ->
  valid_date monday -> year monday = year d ->
  toordinal monday = toordinal d + weekend_shift d ->
  days <= 362 ->
  (2 <= days ->
   record_reminders d days o
   = Ok [mkReminder (value (name o)) (strftime monday)])
  /\ (forall l, record_reminders monday days o = Ok l -> l = []).
Proof.
  intros B S V Hm Hd Hw Vm Hy T Hdays.
  pose proof (weekend_shift_bounds d) as SB.
  pose proof (weekend_shift_weekend d Hw) as SW.
  split.
  - intros H2. unfold record_reminders. rewrite B.
    rewrite (congratulation_today d b bd V S Hm Hd).
    destruct (adjust_for_weekend_shift d V) as (adj & A & Va & Ta).
    rewrite A.
    assert (E : adj = monday) by (apply toordinal_inj; auto; lia).
    subst adj. unfold days_between.
    destruct (Z.leb_spec 0 (toordinal monday - toordinal d)); [|lia].
    destruct (Z.leb_spec (toordinal monday - toordinal d) days); [|lia].
    reflexivity.
  - intros l H. unfold record_reminders in H. rewrite B in H.
    destruct (congratulation monday b) as [adj|e] eqn:C; [|discriminate].
    apply (congratulation_ok monday Vm) in C.
    destruct C as (bd' & S' & Vo & Va & Ta).
    rewrite S in S'. inversion S'; subst bd'. clear S'.
    assert (E : this_year monday bd = d).
    { unfold this_year. rewrite Hy, <- Hm, <- Hd.
      destruct d as [y m dd]; reflexivity. }
    unfold occurrence in Vo, Ta. rewrite E in Vo, Ta.
    destruct (Z.ltb_spec (toordinal d) (toordinal monday)) as [Lt|Ge]; [|lia].
    pose proof (next_year_ordinal (year monday) (month bd) (day bd)) as NY.
    fold (this_year monday bd) in NY. rewrite E in NY.
    fold (next_year monday bd) in NY.
    pose proof (weekend_shift_bounds (next_year monday bd)) as SB'.
    unfold days_between in H.
    destruct (Z.leb_spec 0 (toordinal adj - toordinal monday));
      destruct (Z.leb_spec (toordinal adj - toordinal monday) days);
      cbn [andb] in H; try (inversion H; reflexivity).
    lia.
Qed.

Lemma weekend_birthday_dropped_on_monday_witness :
  (2 <= 7 ->
   record_reminders (mkDate 2025 1 4) 7
     (mkRecord (mkField (lit "Ann")) [] (Some (mkField (lit "04.01.2000"))))
   = Ok [mkReminder (lit "Ann") (strftime (mkDate 2025 1 6))])
  /\ (forall l,
        record_reminders (mkDate 2025 1 6) 7
          (mkRecord (mkField (lit "Ann")) []
                    (Some (mkField (lit "04.01.2000"))))
        = Ok l -> l = []).
Proof.
  apply (weekend_birthday_dropped_on_monday (mkDate 2025 1 4) (mkDate 2025 1 6)
           7 (mkRecord (mkField (lit "Ann")) []
                       (Some (mkField (lit "04.01.2000"))))
           (mkField (lit "04.01.2000")) (mkDate 2000 1 4)).
  - reflexivity.
  - vm_compute. reflexivity.
  - valid_by_computation.
  - reflexivity.
  - reflexivity.
  - vm_compute. discriminate.
  - valid_by_computation.
  - reflexivity.
  - vm_compute. reflexivity.
  - lia.
Defined.

(** X15. [parse_input] never raises.  For a line of white space only,
    the empty line among them, it returns the text
    "Provide correct data." in the place of a tuple; for every other line
    it returns the words of the line, the first one in lower case and the
    others as they are, the words being what is left of the line when its
    white space is taken out (so that [strip] has nothing to remove). *)
Theorem parse_input_words (user_input : pystr) :
  (blank user_input
   /\ parse_input user_input = Ok (Message (lit "Provide correct data.")))
  \/ (exists cmd args,
        parse_input user_input = Ok (Returned (lower cmd :: args))
        /\ word cmd /\ Forall word args /\ strip cmd = cmd
        /\ cmd ++ concat args = without_spaces user_input).
Proof.
  destruct (parse_input_cases user_input) as [H|(cmd & args & S & E)];
    [left; exact H|].
  right. exists cmd, args. split; [exact E|].
  destruct (split_loop_spec user_input [] (List.Forall_nil _)) as [W C].
  fold (split user_input) in W, C. rewrite S in W, C.
  inversion W as [|? ? Wc Wa]; subst.
  split; [exact Wc|]. split; [exact Wa|].
  split; [apply strip_word; apply Wc|exact C].
Qed.

(** X16. A command and its arguments, each a word, written with one blank
    between them and any white space before and after: [parse_input]
    returns the command in lower case followed by the arguments as they
    were written. *)
Theorem parse_input_join (lead trail cmd : pystr) (args : list pystr) :
  blank lead -> blank trail -> word cmd -> Forall word args ->
  parse_input (lead ++ join (lit " ") (cmd :: args) ++ trail)
  = Ok (Returned (lower cmd :: args)).
Proof.
  intros Bl Bt Wc Wa. apply parse_input_joined; assumption.
Qed.

Lemma parse_input_join_witness :
  parse_input (lit "  " ++ join (lit " ") [lit "ADD"; lit "Bob"; lit "123"]
               ++ [])
  = Ok (Returned [lower (lit "ADD"); lit "Bob"; lit "123"]).
Proof.
  apply (parse_input_join (lit "  ") [] (lit "ADD") [lit "Bob"; lit "123"]).
  - repeat constructor.
  - constructor.
  - split; [vm_compute; discriminate|repeat constructor].
  - repeat constructor; vm_compute; discriminate.
Defined.

(** X17. A line of white space only, the empty line among them: [main]
    takes the characters of the message of [parse_input] for the command
    and its arguments, so that the command is "P"; it prints
    "Invalid command.", leaves the book as it is and reads the next
    line. *)
Theorem blank_line_invalid_command (today : date) (user_input : pystr)
    (rest : list (date * pystr)) (book : state) :
  blank user_input ->
  unpack_command (Message (lit "Provide correct data."))
  = Ok (lit "P", List.map (fun c => [c]) (lit "rovide correct data."))
  /\ loop_body today user_input book
     = Goes_on [Print (lit "Invalid command.")] book
  /\ main_loop ((today, user_input) :: rest) book
     = (Prompt (lit "Enter a command: ") :: Print (lit "Invalid command.")
          :: fst (main_loop rest book),
        snd (main_loop rest book)).
Proof.
  intros B. split; [reflexivity|].
  split; [apply loop_body_blank; exact B|].
  cbn [main_loop]. rewrite (loop_body_blank today user_input book B).
  destruct (main_loop rest book) as [events e]. reflexivity.
Qed.

Lemma blank_line_invalid_command_witness :
  unpack_command (Message (lit "Provide correct data."))
  = Ok (lit "P", List.map (fun c => [c]) (lit "rovide correct data."))
  /\ loop_body (mkDate 2024 12 30) [] two_phone_book
     = Goes_on [Print (lit "Invalid command.")] two_phone_book
  /\ main_loop [(mkDate 2024 12 30, [])] two_phone_book
     = (Prompt (lit "Enter a command: ") :: Print (lit "Invalid command.")
          :: fst (main_loop [] two_phone_book),
        snd (main_loop [] two_phone_book)).
Proof.
  apply (blank_line_invalid_command (mkDate 2024 12 30) [] [] two_phone_book).
  constructor.
Defined.

(** X18. The first word of a line is taken for one of the commands of
    [main] exactly when it is that command written with small or capital
    letters A..Z: no other character has a lower case among the letters of
    the commands. *)
Theorem command_spelling (w t : pystr) :
  In w command_words -> (lower t = w <-> spelling_of w t).
Proof.
  intros I. pose proof (command_words_plain w I) as P. split.
  - intros E. apply (lower_loop_spelling t [] w); [|exact E].
    eapply List.Forall_impl; [|exact P]. intros x (H1 & H2 & _). auto.
  - apply spelling_lower. eapply List.Forall_impl; [|exact P].
    intros x (H1 & _ & H3). auto.
Qed.

Lemma command_spelling_witness :
  lower (lit "Add") = lit "add" <-> spelling_of (lit "add") (lit "Add").
Proof.
  apply (command_spelling (lit "add") (lit "Add")).
  simpl. tauto.
Defined.


(** X20. A run of [main] that starts without a file, or with a file that
    holds a well-formed book, ends by leaving the loop or by the end of
    the input: no exception of a handler comes out; and what it writes to
    the file is a well-formed book. *)
Theorem main_never_crashes (file : option state)
    (inputs : list (date * pystr)) :
  (forall book, file = Some book -> wf book) ->
  (snd (main file inputs) = Finished \/ snd (main file inputs) = End_of_input)
  /\ dumps_wf (fst (main file inputs)).
Proof.
  intros H.
  assert (W : wf (load_data file)).
  { destruct file as [book|]; [apply H; reflexivity|apply wf_empty_book]. }
  unfold main. destruct (main_loop_safe inputs (load_data file) W) as [E D].
  destruct (main_loop inputs (load_data file)) as [events e].
  cbn [fst snd] in *. split; [exact E|].
  intros b [I|I]; [discriminate|]. apply D. exact I.
Qed.

Lemma main_never_crashes_witness :
  (snd (main (Some two_phone_book)
          [(mkDate 2024 12 30, lit "add Bob 3333333333");
           (mkDate 2024 12 30, lit "EXIT")]) = Finished
   \/ snd (main (Some two_phone_book)
             [(mkDate 2024 12 30, lit "add Bob 3333333333");
              (mkDate 2024 12 30, lit "EXIT")]) = End_of_input)
  /\ dumps_wf (fst (main (Some two_phone_book)
                      [(mkDate 2024 12 30, lit "add Bob 3333333333");
                       (mkDate 2024 12 30, lit "EXIT")])).
Proof.
  apply (main_never_crashes (Some two_phone_book)
           [(mkDate 2024 12 30, lit "add Bob 3333333333");
            (mkDate 2024 12 30, lit "EXIT")]).
  intros book E. inversion E; subst. exact wf_two_phone_book.
Defined.

(** X21. The handlers keep the book in order: when every [Phone] object
    holds a number that [Phone] accepts and every record is filed under
    its own name, this is so after any handler has run; the empty book
    with which the program starts is in that order. *)
Theorem handlers_keep_order (today : date) (h : list pystr -> M pystr)
    (args : list pystr) (s : state) :
  In h (handlers today) -> wf s -> phones_valid s -> keys_are_names s ->
  phones_valid (snd (h args s)) /\ keys_are_names (snd (h args s))
  /\ wf empty_book /\ phones_valid empty_book /\ keys_are_names empty_book.
Proof.
  intros H W P K.
  assert (E : phones_valid (snd (h args s)) /\ keys_are_names (snd (h args s))).
  { simpl in H. destruct H as [<-|[<-|[<-|[<-|[<-|[<-|[<-|[]]]]]]]].
    - apply add_contact_tidy; assumption.
    - apply change_contact_tidy; assumption.
    - rewrite show_phone_state. split; assumption.
    - rewrite show_all_contacts_state. split; assumption.
    - apply add_birthday_tidy; assumption.
    - rewrite show_birthday_state. split; assumption.
    - rewrite birthdays_state. split; assumption. }
  destruct E as [E1 E2]. split; [exact E1|]. split; [exact E2|].
  split; [apply wf_empty_book|]. split; [constructor|].
  intros k r o [].
Qed.

Lemma handlers_keep_order_witness :
  phones_valid (snd (add_contact [lit "Bob"; lit "3333333333"] empty_book))
  /\ keys_are_names
       (snd (add_contact [lit "Bob"; lit "3333333333"] empty_book))
  /\ wf empty_book /\ phones_valid empty_book /\ keys_are_names empty_book.
Proof.
  apply (handlers_keep_order (mkDate 2024 12 30) add_contact
           [lit "Bob"; lit "3333333333"] empty_book).
  - left. reflexivity.
  - exact wf_empty_book.
  - constructor.
  - intros k r o [].
Defined.

(** X22. A session of two lines: "add", a new name and a number that
    [Phone] accepts, then "phone" and the name, the words one blank
    apart.  The program prints "Contact added." and then the number as
    it was typed; the input being at its end, the run stops without the
    book being written. *)
Theorem session_add_then_phone (day1 day2 : date) (nm phone : pystr)
    (book : state) :
  word nm -> ten_digits phone -> dict_get (data book) nm = None ->
  main_loop [(day1, join (lit " ") [lit "add"; nm; phone]);
             (day2, join (lit " ") [lit "phone"; nm])] book
  = ([Prompt (lit "Enter a command: "); Print (lit "Contact added.");
      Prompt (lit "Enter a command: "); Print phone;
      Prompt (lit "Enter a command: ")],
     End_of_input).
Proof.
  intros Wn V G. pose proof (ten_digits_word phone V) as Wp.
  assert (Wadd : word (lit "add")).
  { split; [vm_compute; discriminate|repeat constructor]. }
  assert (Wphone : word (lit "phone")).
  { split; [vm_compute; discriminate|repeat constructor]. }
  cbn [main_loop].
  rewrite (loop_body_add day1 _ [nm; phone] book)
    by (apply (parse_input_line (lit "add") [nm; phone]); auto).
  unfold print_answer at 1. rewrite (add_contact_new book nm phone [] G V).
  rewrite (loop_body_phone day2 _ [nm])
    by (apply (parse_input_line (lit "phone") [nm]); auto).
  unfold print_answer.
  rewrite (show_phone_numbers _ nm [] (length (objects book))
             (mkRecord (mkField nm) [length (phone_objects book)] None)
             [phone]); [reflexivity| | | |].
  - cbn [data]. apply dict_get_app_absent. exact G.
  - cbn [objects]. apply store_lookup_new.
  - unfold phones_of. cbn [phone_objects phones texts].
    rewrite store_lookup_new. reflexivity.
  - discriminate.
Qed.

Lemma session_add_then_phone_witness :
  main_loop [(mkDate 2024 12 30,
              join (lit " ") [lit "add"; lit "Bob"; lit "3333333333"]);
             (mkDate 2024 12 31, join (lit " ") [lit "phone"; lit "Bob"])]
            two_phone_book
  = ([Prompt (lit "Enter a command: "); Print (lit "Contact added.");
      Prompt (lit "Enter a command: "); Print (lit "3333333333");
      Prompt (lit "Enter a command: ")],
     End_of_input).
Proof.
  apply (session_add_then_phone (mkDate 2024 12 30) (mkDate 2024 12 31)
           (lit "Bob") (lit "3333333333") two_phone_book).
  - split; [vm_compute; discriminate|repeat constructor].
  - apply Phone_init_ok. vm_compute. reflexivity.
  - reflexivity.
Defined.
